(** * mars_label_stat: label statistics over JSON-lines files

    A shallow embedding of [src/mars_label_stat.go] and the properties of
    its counting engine: per-line label extraction ([fastExtractLabel] and
    the full JSON path of [processFile]), per-file counting
    ([processFile]), file discovery ([collectJSONLFiles]) and the
    aggregation and ranking done by [countLabels]; and of what surrounds
    it: the command line read by [main], the path of the output file
    ([ensureDir], [getOutputFilePath]) and the conditions under which
    [saveResult] writes it.

    Conventions.
    - A Go [string] is a sequence of bytes: Rocq's [string] (one [ascii]
      per byte).  Positions are [nat]; they never exceed [len(line)].
    - A Go [int64] is a [Z] kept in range by [Int64.wrap].
    - A Go [map[string]int64] is a [gmap string Z]; a [nil] map is the
      empty map (the program only ranges over it).
    - Library functions ([strings.Index], [strings.TrimSpace],
      [filepath.Ext], [encoding/json], [fmt]'s verbs) are modelled by the
      definitions named after them. *)

From Stdlib Require Import ZArith Lia Ascii String List.
From Stdlib Require Import Floats.SpecFloat DecimalString DecimalN.
From stdpp Require Import gmap strings list fin_maps sorting.

Local Open Scope string_scope.
Local Open Scope Z_scope.

(** ** 64-bit signed integers *)

Module Int64.

Definition modulus : Z := 2 ^ 64.
Definition half : Z := 2 ^ 63.

(** Two's complement wrap-around of an unbounded integer. *)
Definition wrap (z : Z) : Z := (z + half) mod modulus - half.

(** [a + b] on [int64]. *)
Definition add (a b : Z) : Z := wrap (a + b).

Definition in_range (z : Z) : Prop := - half <= z < half.

End Int64.

(** ** Byte strings *)

Definition dq : ascii := "034"%char.   (* the double quote *)
Definition sq : ascii := "039"%char.   (* the single quote *)
Definition backslash : ascii := "092"%char.
Definition TAB : ascii := "009"%char.
Definition LF : ascii := "010"%char.

Definition len (s : string) : nat := String.length s.

(** [s[i:j]] for [i <= j <= len s]. *)
Definition slice (s : string) (i j : nat) : string :=
  String.substring i (j - i) s.

(** [s[i:]]. *)
Definition slice_from (s : string) (i : nat) : string :=
  slice s i (len s).

(** [s[i]]; the program only reads positions below [len s]. *)
Definition byte_at (s : string) (i : nat) : ascii :=
  match String.get i s with
  | Some c => c
  | None => "000"%char
  end.

(** [strings.Index s substr]: the position of the first occurrence of
    [substr] in [s]; [None] stands for Go's [-1]. *)
Fixpoint Index_from (s substr : string) (i : nat) : option nat :=
  if String.prefix substr s then Some i
  else match s with
       | EmptyString => None
       | String _ rest => Index_from rest substr (S i)
       end.

Definition strings_Index (s substr : string) : option nat :=
  Index_from s substr 0.

(** *** [strings.TrimSpace]

    Go trims every leading and trailing Unicode white-space code point.
    On bytes these are the six ASCII blanks and the UTF-8 encodings of
    U+0085, U+00A0, U+1680, U+2000..U+200A, U+2028, U+2029, U+202F,
    U+205F and U+3000. *)

Definition isSpace1 (c : ascii) : bool :=
  let n := nat_of_ascii c in
  ((9 <=? n) && (n <=? 13) || (n =? 32))%nat.

Definition isSpace2 (c1 c2 : ascii) : bool :=
  let a := nat_of_ascii c1 in
  let b := nat_of_ascii c2 in
  ((a =? 194) && ((b =? 133) || (b =? 160)))%nat.

Definition isSpace3 (c1 c2 c3 : ascii) : bool :=
  let a := nat_of_ascii c1 in
  let b := nat_of_ascii c2 in
  let c := nat_of_ascii c3 in
  ((a =? 225) && (b =? 154) && (c =? 128)
   || (a =? 226) && (b =? 128)
        && ((128 <=? c) && (c <=? 138) || (c =? 168) || (c =? 169) || (c =? 175))
   || (a =? 226) && (b =? 129) && (c =? 159)
   || (a =? 227) && (b =? 128) && (c =? 128))%nat.

Section Trim.
(** White-space tests on one, two and three bytes, in reading order. *)
Variable p1 : ascii -> bool.
Variable p2 : ascii -> ascii -> bool.
Variable p3 : ascii -> ascii -> ascii -> bool.

Fixpoint trimLeftBy (s : string) : string :=
  match s with
  | EmptyString => s
  | String c1 r1 =>
      if p1 c1 then trimLeftBy r1
      else
        match r1 with
        | EmptyString => s
        | String c2 r2 =>
            if p2 c1 c2 then trimLeftBy r2
            else
              match r2 with
              | EmptyString => s
              | String c3 r3 => if p3 c1 c2 c3 then trimLeftBy r3 else s
              end
        end
  end.

End Trim.

Definition strrev (s : string) : string :=
  string_of_list_ascii (rev (list_ascii_of_string s)).

Definition TrimLeftSpace (s : string) : string :=
  trimLeftBy isSpace1 isSpace2 isSpace3 s.

(** Trailing white space is leading white space of the reversed string,
    each encoding read backwards. *)
Definition TrimRightSpace (s : string) : string :=
  strrev (trimLeftBy isSpace1 (fun a b => isSpace2 b a)
                     (fun a b c => isSpace3 c b a) (strrev s)).

Definition strings_TrimSpace (s : string) : string :=
  TrimRightSpace (TrimLeftSpace s).

(** ** fastExtractLabel (lines 68-135) *)

(** [for start < len(line) && (line[start] == ' ' || line[start] == '\t'
    || line[start] == '\n') { start++ }], with [rest = line[start:]]. *)
Fixpoint skipBlank (rest : string) (start : nat) : nat :=
  match rest with
  | String c rest' =>
      if (c =? " ")%char || (c =? TAB)%char || (c =? LF)%char
      then skipBlank rest' (S start)
      else start
  | EmptyString => start
  end.

(** The scan for the closing quote [q], with [rest = line[end:]]: a
    backslash that is not the last byte skips itself and the next byte. *)
Fixpoint scanQuoted (q : ascii) (rest : string) (e : nat) : nat :=
  match rest with
  | EmptyString => e
  | String c rest' =>
      if (c =? q)%char then e
      else
        match rest' with
        | String _ rest'' =>
            if (c =? backslash)%char then scanQuoted q rest'' (e + 2)
            else scanQuoted q rest' (e + 1)
        | EmptyString => scanQuoted q rest' (e + 1)
        end
  end.

(** [for end < len(line) && line[end] != ',' && line[end] != '}' &&
    line[end] != '\n' { end++ }], with [rest = line[end:]]. *)
Fixpoint scanPlain (rest : string) (e : nat) : nat :=
  match rest with
  | String c rest' =>
      if (c =? ",")%char || (c =? "}")%char || (c =? LF)%char
      then e
      else scanPlain rest' (S e)
  | EmptyString => e
  end.

(** Lines 129-132: one layer of matching quotes is removed. *)
Definition stripQuotes (value : string) : string :=
  let n := len value in
  if (2 <=? n)%nat
     && ((byte_at value 0 =? dq)%char && (byte_at value (n - 1) =? dq)%char
         || (byte_at value 0 =? sq)%char && (byte_at value (n - 1) =? sq)%char)
  then slice value 1 (n - 1)
  else value.

(** The pattern searched for: the eight bytes ["label":] (quotes included). *)
Definition labelKeyPattern : string :=
  String dq ("label" ++ String dq ":").

Definition fastExtractLabel (line : string) : string :=
  let labelKey := labelKeyPattern in
  match strings_Index line labelKey with
  | None => ""
  | Some pos =>
      let start0 := (pos + len labelKey)%nat in
      let start := skipBlank (slice_from line start0) start0 in
      if (len line <=? start)%nat then ""
      else
        let firstChar := byte_at line start in
        let quoted (q : ascii) : option string :=
          if (firstChar =? q)%char then
            let e := scanQuoted q (slice_from line (start + 1)) (start + 1) in
            if (e <? len line)%nat then Some (slice line (start + 1) e)
            else None
          else None in
        match quoted dq with
        | Some v => v
        | None =>
            match quoted sq with
            | Some v => v
            | None =>
                let e := scanPlain (slice_from line start) start in
                let value := strings_TrimSpace (slice line start e) in
                stripQuotes value
            end
        end
  end.

(** Test inputs are written with a backquote where the line has a double
    quote. *)
Definition bq (s : string) : string :=
  string_of_list_ascii
    (map (fun c => if (c =? "`")%char then dq else c) (list_ascii_of_string s)).

(** ** float64 and its decimal conversions

    A [float64] is an IEEE 754 binary64 value: [S754_finite s m e] stands
    for [(-1)^s * m * 2^e].  The two conversions below are specified in
    exact arithmetic: [strconv.ParseFloat] rounds a decimal to the
    nearest binary64 value (ties to even), and [strconv.FormatFloat] with
    precision -1 produces the shortest decimal that [ParseFloat] reads
    back as the value, the nearest one among those of that length. *)

Definition float64 : Set := spec_float.

(** [10^k] for [k >= 0], and 1 for a negative [k]: the rational [10^k]
    is [p10 k / p10 (- k)]. *)
Definition p10 (k : Z) : Z := 10 ^ Z.max k 0.

(** [N / D] rounded to the nearest integer, a tie to the even one. *)
Definition roundHalfEven (N D : Z) : Z :=
  let q := N / D in
  let r := N mod D in
  if 2 * r <? D then q
  else if D <? 2 * r then q + 1
  else if Z.even q then q else q + 1.

(** The binary64 value nearest to [n / d] (ties to even), for positive
    [n] and [d]; [None] when the result is out of range (Go: [ErrRange]).
    [W] is [n / d] in units of [2^-1074], the spacing of the smallest
    values, and [t - 1074] the exponent at which the mantissa has at most
    53 bits. *)
Definition round_ratio (neg : bool) (n d : Z) : option float64 :=
  let A := n * 2 ^ 1074 in
  let W := A / d in
  let t := Z.max 0 (Z.log2 W - 52) in
  let q := roundHalfEven A (d * 2 ^ t) in
  let '(m, t') := if q =? 2 ^ 53 then (2 ^ 52, t + 1) else (q, t) in
  if 2045 <? t' then None
  else match m with
       | Z.pos p => Some (S754_finite neg p (t' - 1074))
       | _ => Some (S754_zero neg)
       end.

(** [strconv.ParseFloat] on the decimal [(-1)^neg * digits * 10^exp10]. *)
Definition parseDecimal (neg : bool) (digits exp10 : Z) : option float64 :=
  if digits <=? 0 then Some (S754_zero neg)
  else round_ratio neg (digits * p10 exp10) (p10 (- exp10)).

(** Decimal digits of a non-negative integer, most significant first. *)
Definition itoa (n : Z) : string :=
  NilZero.string_of_uint (N.to_uint (Z.to_N n)).

Definition ndigits (n : Z) : Z := Z.of_nat (String.length (itoa n)).

(** The number of decimal digits of a positive integer, counted upwards
    from [k], with [pow = 10^k]. *)
Fixpoint widthFrom (fuel : nat) (k pow : Z) (n : Z) : Z :=
  match fuel with
  | O => k
  | S fuel' => if n <? pow then k else widthFrom fuel' (k + 1) (10 * pow) n
  end.

(** [width n = k] with [10^(k-1) <= n < 10^k]. *)
Definition width (n : Z) : Z := widthFrom (Z.to_nat (Z.log2 n)) 1 10 n.

(** [10^p <= a / b]. *)
Definition ratio_ge_pow10 (a b p : Z) : bool := b * p10 p <=? a * p10 (- p).

(** [floor (log10 (a / b))] for positive [a] and [b]. *)
Definition floorLog10 (a b : Z) : Z :=
  let p := width a - width b in
  if ratio_ge_pow10 a b p then p else p - 1.

Definition sameFloat (a b : float64) : bool :=
  match a, b with
  | S754_zero s, S754_zero s' => Bool.eqb s s'
  | S754_infinity s, S754_infinity s' => Bool.eqb s s'
  | S754_finite s m e, S754_finite s' m' e' =>
      Bool.eqb s s' && (m =? m')%positive && (e =? e')
  | _, _ => false
  end.

(** Trailing zeros move into the exponent: [c * 10^q] with the last
    digit of [c] not 0. *)
Fixpoint stripZeros (fuel : nat) (c q : Z) : Z * Z :=
  match fuel with
  | O => (c, q)
  | S fuel' =>
      if (c mod 10 =? 0) && (0 <? c) then stripZeros fuel' (c / 10) (q + 1)
      else (c, q)
  end.

Definition normalDecimal (c q : Z) : Z * Z := stripZeros 20 c q.

(** [strconv.ParseFloat] reads the decimal [c * 10^q] back as
    [m * 2^e]. *)
Definition readsBack (m : positive) (e : Z) (d : Z * Z) : bool :=
  match parseDecimal false (fst d) (snd d) with
  | Some f => sameFloat f (S754_finite false m e)
  | None => false
  end.

(** [m * 2^e] in units of [2^-1074], and the denominator of that unit. *)
Definition scaledValue (m : positive) (e : Z) : Z := Z.pos m * 2 ^ (e + 1074).
Definition unitDenominator : Z := 2 ^ 1074.

(** The decimal exponent of [m * 2^e]: [10^X <= m * 2^e < 10^(X+1)]. *)
Definition decimalExponent (m : positive) (e : Z) : Z :=
  floorLog10 (scaledValue m e) unitDenominator.

(** Among the decimals with [n] digits, the two next to [m * 2^e], whose
    decimal exponent is [X]: the nearer one of those that read back as
    it, if any.  [a / b] is the value in units of the last of the [n]
    digits. *)
Definition candidate (m : positive) (e : Z) (X : Z) (n : Z) : option (Z * Z) :=
  let V := scaledValue m e in
  let q := X - n + 1 in
  let a := V * p10 (- q) in
  let b := unitDenominator * p10 q in
  let lo := normalDecimal (a / b) q in
  let hi := normalDecimal (a / b + 1) q in
  let loNearer :=
    match 2 * (a mod b) ?= b with
    | Lt => true
    | Gt => false
    | Eq => Z.even (a / b)
    end in
  match readsBack m e lo, readsBack m e hi with
  | true, true => Some (if loNearer then lo else hi)
  | true, false => Some lo
  | false, true => Some hi
  | false, false => None
  end.

(** The first candidate found with [n], [n + 1], ... digits. *)
Fixpoint searchFrom (m : positive) (e : Z) (X : Z) (n : Z) (fuel : nat)
  : option (Z * Z) :=
  match fuel with
  | O => None
  | S fuel' =>
      match candidate m e X n with
      | Some d => Some d
      | None => searchFrom m e X (n + 1) fuel'
      end
  end.

(** The shortest decimal that reads back as [m * 2^e]: at most 17 digits
    are needed for a [float64]. *)
Definition shortestDecimal (m : positive) (e : Z) : option (Z * Z) :=
  searchFrom m e (decimalExponent m e) 1 17.

(** [strconv]'s decimal for the shortest conversion: the digits and the
    position [dp] of the decimal point ([0.d1d2... * 10^dp]).  The second
    case is for the [spec_float]s that are no [float64] (a mantissa of
    more than 53 bits, or one that is not normalised): the 17 digits
    nearest to the value. *)
Definition shortest (m : positive) (e : Z) : string * Z :=
  let '(c, q) :=
    match shortestDecimal m e with
    | Some d => d
    | None =>
        let q := decimalExponent m e - 16 in
        normalDecimal
          (roundHalfEven (scaledValue m e * p10 (- q)) (unitDenominator * p10 q)) q
    end in
  (itoa c, ndigits c + q).

(** The finite [spec_float]s that are [float64] values: a mantissa of 53
    bits, normalised unless the exponent is the smallest one. *)
Definition canonical (m : positive) (e : Z) : Prop :=
  -1074 <= e <= 971
  /\ Z.pos m < 2 ^ 53
  /\ (2 ^ 52 <= Z.pos m \/ e = -1074).

(** [n / d] lies strictly between the midpoints from [m * 2^e] to its two
    neighbours (the lower neighbour of a power of two is at half the
    distance). *)
Definition nearerThanNeighbours (m : positive) (e : Z) (n d : Z) : Prop :=
  let A := n * 2 ^ 1074 in
  let T := 2 ^ (e + 1074) in
  (2 * Z.pos m - 1) * T * d < 2 * A < (2 * Z.pos m + 1) * T * d
  /\ (Z.pos m = 2 ^ 52 -> -1074 < e -> (4 * Z.pos m - 1) * T * d < 4 * A).

(** Two fractions with the same value. *)
Definition sameRatio (n d n' d' : Z) : Prop := n * d' = n' * d.

(** The decimal [c * 10^q] is as near to [m * 2^e] as [c' * 10^q'] is,
    or nearer: the distances [|c * 10^q - m * 2^e|] and
    [|c' * 10^q' - m * 2^e|], both taken to the common denominator
    [2^1074 * 10^max(-q,0) * 10^max(-q',0)]. *)
Definition asNear (m : positive) (e : Z) (c q c' q' : Z) : Prop :=
  Z.abs (c * p10 q * unitDenominator - scaledValue m e * p10 (- q)) * p10 (- q')
  <= Z.abs (c' * p10 q' * unitDenominator - scaledValue m e * p10 (- q')) * p10 (- q).

Fixpoint zeros (n : nat) : string :=
  match n with
  | O => ""
  | S n' => String "0" (zeros n')
  end.

(** [%e] with the shortest precision: [d.ddde+XX], at least two exponent
    digits. *)
Definition fmtE (digs : string) (dp : Z) : string :=
  let exp := dp - 1 in
  let mant :=
    match digs with
    | String d EmptyString => String d ""
    | String d rest => String d ("." ++ rest)
    | EmptyString => "0"
    end in
  let ex := Z.abs exp in
  mant ++ "e" ++ (if exp <? 0 then "-" else "+")
       ++ (if ex <? 10 then "0" else "") ++ itoa ex.

(** [%f] with the shortest precision: no exponent, no trailing zeros
    after the point. *)
Definition fmtF (digs : string) (dp : Z) : string :=
  let nd := Z.of_nat (String.length digs) in
  if 0 <? dp then
    if nd <=? dp then digs ++ zeros (Z.to_nat (dp - nd))
    else String.substring 0 (Z.to_nat dp) digs ++ "."
         ++ String.substring (Z.to_nat dp) (Z.to_nat (nd - dp)) digs
  else if nd =? 0 then "0" else "0." ++ zeros (Z.to_nat (- dp)) ++ digs.

(** The decimal exponent at which [%g] changes to the exponent form when
    no precision is given ([eprec = 6] in [strconv]'s [formatDigits]). *)
Definition eprec : Z := 6.

Definition usesExponent (dp : Z) : bool :=
  let exp := dp - 1 in (exp <? -4) || (eprec <=? exp).

(** [fmt.Sprintf("%g", v)] for a [float64]. *)
Definition fmt_g (v : float64) : string :=
  match v with
  | S754_nan => "NaN"
  | S754_infinity s => if s then "-Inf" else "+Inf"
  | S754_zero s => if s then "-0" else "0"
  | S754_finite s m e =>
      let '(digs, dp) := shortest m e in
      (if s then "-" else "")
        ++ (if usesExponent dp then fmtE digs dp else fmtF digs dp)
  end.

(** ** encoding/json: decoding a line into [map[string]interface{}]

    A decoded value is one of the dynamic types [json.Unmarshal] stores in
    an [interface{}]: [nil], [bool], [float64], [string],
    [[]interface{}] and [map[string]interface{}].  An object keeps its
    members in document order; a lookup takes the last member with the
    key, as repeated assignment to a Go map does. *)

#[warnings="-register-all"]
Inductive JSON : Type :=
| JNull
| JBool (b : bool)
| JNumber (f : float64)
| JString (s : string)
| JArray (elems : list JSON)
| JObject (members : list (string * JSON)).

(** [data[key]]: the value and [ok]. *)
Fixpoint obj_lookup (key : string) (members : list (string * JSON)) : option JSON :=
  match members with
  | [] => None
  | (k, v) :: rest =>
      match obj_lookup key rest with
      | Some v' => Some v'
      | None => if String.eqb k key then Some v else None
      end
  end.

Definition code (c : ascii) : Z := Z.of_nat (nat_of_ascii c).
Definition chr (n : Z) : ascii := ascii_of_nat (Z.to_nat n).

Definition isJSONSpace (c : ascii) : bool :=
  (c =? " ")%char || (c =? TAB)%char || (c =? "013")%char || (c =? LF)%char.

Fixpoint skipWS (s : string) : string :=
  match s with
  | String c r => if isJSONSpace c then skipWS r else s
  | EmptyString => s
  end.

Definition isDigit (c : ascii) : bool := (48 <=? code c) && (code c <=? 57).

(** Reads a run of digits: the digits read extend [acc]; their number is
    added to [n]. *)
Fixpoint takeDigits (acc : Z) (n : Z) (s : string) : Z * Z * string :=
  match s with
  | String c r =>
      if isDigit c then takeDigits (10 * acc + (code c - 48)) (n + 1) r
      else (acc, n, s)
  | EmptyString => (acc, n, s)
  end.

(** A JSON number: an optional minus sign; an integer part that is a
    single 0 or starts with a non-zero digit; an optional fraction (a dot
    and at least one digit); an optional exponent (e or E, an optional
    sign, at least one digit).  It is converted as [strconv.ParseFloat]
    does.  [None]: not a number, or out of the [float64] range. *)
Definition takeSign (s : string) : bool * string :=
  match s with
  | String c r => if (c =? "-")%char then (true, r) else (false, s)
  | EmptyString => (false, s)
  end.

Definition parseInt (s : string) : option (Z * string) :=
  match s with
  | String c r =>
      if (c =? "0")%char then Some (0, r)
      else if isDigit c then let '(v, _, r') := takeDigits 0 0 s in Some (v, r')
      else None
  | EmptyString => None
  end.

(** The fraction extends the digits [iv] of the integer part. *)
Definition parseFrac (iv : Z) (s : string) : option (Z * Z * string) :=
  match s with
  | String c r =>
      if (c =? ".")%char then
        let '(v, n, r') := takeDigits iv 0 r in
        if n =? 0 then None else Some (v, n, r')
      else Some (iv, 0, s)
  | EmptyString => Some (iv, 0, s)
  end.

Definition parseExp (s : string) : option (Z * string) :=
  match s with
  | String c r =>
      if (c =? "e")%char || (c =? "E")%char then
        let '(eneg, r1) :=
          match r with
          | String c' r' =>
              if (c' =? "-")%char then (true, r')
              else if (c' =? "+")%char then (false, r')
              else (false, r)
          | EmptyString => (false, r)
          end in
        let '(v, n, r2) := takeDigits 0 0 r1 in
        if n =? 0 then None else Some (if eneg then - v else v, r2)
      else Some (0, s)
  | EmptyString => Some (0, s)
  end.

Definition parseNumber (s : string) : option (float64 * string) :=
  let '(neg, s1) := takeSign s in
  match parseInt s1 with
  | None => None
  | Some (iv, s2) =>
      match parseFrac iv s2 with
      | None => None
      | Some (digits, nfrac, s3) =>
          match parseExp s3 with
          | None => None
          | Some (ex, s4) =>
              match parseDecimal neg digits (ex - nfrac) with
              | Some f => Some (f, s4)
              | None => None
              end
          end
      end
  end.

(** *** String literals

    [scanString] reads the body of a string literal up to its closing
    quote, as the decoder's scanner accepts it; [unquote] is the
    decoder's [unquote]: escapes are replaced, UTF-16 surrogate pairs are
    joined, and bytes that are not well-formed UTF-8 become U+FFFD. *)

Inductive stritem : Type :=
| Raw (c : ascii)        (* a byte of the literal *)
| Esc (c : ascii)        (* a two-byte escape, already decoded *)
| U16 (unit : Z).        (* a \uXXXX escape *)

Definition hexval (c : ascii) : option Z :=
  let n := code c in
  if (48 <=? n) && (n <=? 57) then Some (n - 48)
  else if (97 <=? n) && (n <=? 102) then Some (n - 87)
  else if (65 <=? n) && (n <=? 70) then Some (n - 55)
  else None.

Definition hex4 (a b c d : ascii) : option Z :=
  match hexval a, hexval b, hexval c, hexval d with
  | Some x, Some y, Some z, Some w => Some (((x * 16 + y) * 16 + z) * 16 + w)
  | _, _, _, _ => None
  end.

Definition escapeByte (c : ascii) : option ascii :=
  if (c =? dq)%char || (c =? backslash)%char || (c =? "/")%char then Some c
  else if (c =? "b")%char then Some "008"%char
  else if (c =? "f")%char then Some "012"%char
  else if (c =? "n")%char then Some LF
  else if (c =? "r")%char then Some "013"%char
  else if (c =? "t")%char then Some TAB
  else None.

Fixpoint scanString (s : string) : option (list stritem * string) :=
  match s with
  | EmptyString => None
  | String c r =>
      if (c =? dq)%char then Some ([], r)
      else if (c =? backslash)%char then
        match r with
        | String e r1 =>
            if (e =? "u")%char then
              match r1 with
              | String h1 (String h2 (String h3 (String h4 r2))) =>
                  match hex4 h1 h2 h3 h4, scanString r2 with
                  | Some u, Some (items, rest) => Some (U16 u :: items, rest)
                  | _, _ => None
                  end
              | _ => None
              end
            else
              match escapeByte e, scanString r1 with
              | Some b, Some (items, rest) => Some (Esc b :: items, rest)
              | _, _ => None
              end
        | EmptyString => None
        end
      else if code c <? 32 then None
      else
        match scanString r with
        | Some (items, rest) => Some (Raw c :: items, rest)
        | None => None
        end
  end.

(** [utf8.EncodeRune]. *)
Definition utf8_encode (r : Z) : string :=
  if r <? 128 then String (chr r) ""
  else if r <? 2048 then
    String (chr (192 + r / 64)) (String (chr (128 + r mod 64)) "")
  else if r <? 65536 then
    String (chr (224 + r / 4096))
      (String (chr (128 + (r / 64) mod 64)) (String (chr (128 + r mod 64)) ""))
  else
    String (chr (240 + r / 262144))
      (String (chr (128 + (r / 4096) mod 64))
         (String (chr (128 + (r / 64) mod 64)) (String (chr (128 + r mod 64)) ""))).

(** U+FFFD, the replacement character. *)
Definition replacementChar : Z := 65533.

Definition isCont (lo hi : Z) (i : stritem) : bool :=
  match i with
  | Raw c => (lo <=? code c) && (code c <=? hi)
  | _ => false
  end.

(** The number of bytes that follow the lead byte [b] in a well-formed
    UTF-8 encoding starting at it; [None] when there is none. *)
Definition utf8_tail (b : ascii) (rest : list stritem) : option nat :=
  let n := code b in
  let second_lo := if n =? 224 then 160 else if n =? 240 then 144 else 128 in
  let second_hi := if n =? 237 then 159 else if n =? 244 then 143 else 191 in
  let want : nat :=
    if (194 <=? n) && (n <=? 223) then 1%nat
    else if (224 <=? n) && (n <=? 239) then 2%nat
    else if (240 <=? n) && (n <=? 244) then 3%nat
    else 0%nat in
  match want, rest with
  | 1%nat, i1 :: _ =>
      if isCont second_lo second_hi i1 then Some 1%nat else None
  | 2%nat, i1 :: i2 :: _ =>
      if isCont second_lo second_hi i1 && isCont 128 191 i2 then Some 2%nat
      else None
  | 3%nat, i1 :: i2 :: i3 :: _ =>
      if isCont second_lo second_hi i1 && isCont 128 191 i2 && isCont 128 191 i3
      then Some 3%nat else None
  | _, _ => None
  end.

Definition isSurrogate (u : Z) : bool := (55296 <=? u) && (u <? 57344).

(** [utf16.DecodeRune]: the code point of a surrogate pair. *)
Definition utf16_pair (hi lo : Z) : option Z :=
  if (55296 <=? hi) && (hi <? 56320) && (56320 <=? lo) && (lo <? 57344)
  then Some ((hi - 55296) * 1024 + (lo - 56320) + 65536)
  else None.

(** [copy] counts the continuation bytes of a well-formed encoding still
    to be copied. *)
Fixpoint unquote (copy : nat) (items : list stritem) : string :=
  match items with
  | [] => ""
  | Esc b :: rest => String b (unquote 0 rest)
  | U16 u :: rest =>
      if isSurrogate u then
        match rest with
        | U16 u2 :: rest2 =>
            match utf16_pair u u2 with
            | Some r => utf8_encode r ++ unquote 0 rest2
            | None => utf8_encode replacementChar ++ unquote 0 rest
            end
        | _ => utf8_encode replacementChar ++ unquote 0 rest
        end
      else utf8_encode u ++ unquote 0 rest
  | Raw b :: rest =>
      match copy with
      | S k => String b (unquote k rest)
      | O =>
          if code b <? 128 then String b (unquote 0 rest)
          else
            match utf8_tail b rest with
            | Some k => String b (unquote k rest)
            | None => utf8_encode replacementChar ++ unquote 0 rest
            end
      end
  end.

(** A string literal after its opening quote. *)
Definition parseString (s : string) : option (string * string) :=
  match scanString s with
  | Some (items, rest) => Some (unquote 0 items, rest)
  | None => None
  end.

(** *** Values *)

(** The decoder refuses more than 10000 nested arrays and objects. *)
Definition maxNestingDepth : Z := 10000.

(** [s] without its first [n] bytes. *)
Definition dropBytes (n : nat) (s : string) : string :=
  String.substring n (len s - n) s.

(** One JSON value at the start of [s] (after white space) and the text
    that follows it.  A value that takes up [n] bytes is read with any
    fuel of at least [n] ([parse_enough] below), so the fuel given by
    [json_Unmarshal] is never the reason of a rejection
    ([parseValue_fuel]). *)
Fixpoint parseValue (fuel : nat) (depth : Z) (s : string) {struct fuel}
  : option (JSON * string) :=
  match fuel with
  | O => None
  | S fuel' =>
      match skipWS s with
      | EmptyString => None
      | String c r as s' =>
          if (c =? "{")%char then
            if maxNestingDepth <=? depth then None
            else
              match skipWS r with
              | EmptyString => None
              | String c' r' =>
                  if (c' =? "}")%char then Some (JObject [], r')
                  else parseMembers fuel' (depth + 1) r []
              end
          else if (c =? "[")%char then
            if maxNestingDepth <=? depth then None
            else
              match skipWS r with
              | EmptyString => None
              | String c' r' =>
                  if (c' =? "]")%char then Some (JArray [], r')
                  else parseElements fuel' (depth + 1) r []
              end
          else if (c =? dq)%char then
            match parseString r with
            | Some (str, rest) => Some (JString str, rest)
            | None => None
            end
          else if String.prefix "true" s' then Some (JBool true, dropBytes 4 s')
          else if String.prefix "false" s' then Some (JBool false, dropBytes 5 s')
          else if String.prefix "null" s' then Some (JNull, dropBytes 4 s')
          else
            match parseNumber s' with
            | Some (f, rest) => Some (JNumber f, rest)
            | None => None
            end
      end
  end

with parseMembers (fuel : nat) (depth : Z) (s : string)
  (acc : list (string * JSON))
  {struct fuel} : option (JSON * string) :=
  match fuel with
  | O => None
  | S fuel' =>
      match skipWS s with
      | EmptyString => None
      | String c r =>
          if (c =? dq)%char then
            match parseString r with
            | None => None
            | Some (k, r1) =>
                match skipWS r1 with
                | EmptyString => None
                | String c1 r2 =>
                    if (c1 =? ":")%char then
                      match parseValue fuel' depth r2 with
                      | None => None
                      | Some (v, r3) =>
                          match skipWS r3 with
                          | EmptyString => None
                          | String c2 r4 =>
                              if (c2 =? ",")%char
                              then parseMembers fuel' depth r4 (acc ++ [(k, v)])
                              else if (c2 =? "}")%char
                              then Some (JObject (acc ++ [(k, v)]), r4)
                              else None
                          end
                      end
                    else None
                end
            end
          else None
      end
  end

with parseElements (fuel : nat) (depth : Z) (s : string) (acc : list JSON)
  {struct fuel} : option (JSON * string) :=
  match fuel with
  | O => None
  | S fuel' =>
      match parseValue fuel' depth s with
      | None => None
      | Some (v, r1) =>
          match skipWS r1 with
          | EmptyString => None
          | String c r2 =>
              if (c =? ",")%char then parseElements fuel' depth r2 (acc ++ [v])
              else if (c =? "]")%char then Some (JArray (acc ++ [v]), r2)
              else None
          end
      end
  end.

(** [json.Unmarshal([]byte(line), &data)] with
    [data map[string]interface{}]: [Some members] when [err == nil]
    (an object, or [null], which leaves [data] nil), [None] when an
    error is returned: the text is not one JSON value, a number is out of
    range, or the value is not an object. *)
Definition json_Unmarshal (line : string) : option (list (string * JSON)) :=
  match parseValue (S (len line)) 0 line with
  | Some (v, rest) =>
      match skipWS rest, v with
      | EmptyString, JObject members => Some members
      | EmptyString, JNull => Some []
      | _, _ => None
      end
  | None => None
  end.

(** ** fmt: the verbs the program uses *)

(** Go's [<] on strings: byte-wise lexicographic order. *)
Fixpoint string_lt (a b : string) : bool :=
  match a, b with
  | _, EmptyString => false
  | EmptyString, String _ _ => true
  | String x a', String y b' =>
      if (nat_of_ascii x <? nat_of_ascii y)%nat then true
      else if (nat_of_ascii y <? nat_of_ascii x)%nat then false
      else string_lt a' b'
  end.

Section Sort.
Context {A : Type} (less : A -> A -> bool).

Fixpoint insertSorted (x : A) (l : list A) : list A :=
  match l with
  | [] => [x]
  | y :: l' => if less x y then x :: l else y :: insertSorted x l'
  end.

(** [sort.Slice(s, less)], as an insertion sort.  Which algorithm sorts
    does not matter where [less] is a strict total order on the elements:
    the sorted arrangement is then unique ([sorted_arrangement_unique]
    below). *)
Fixpoint sort_Slice (l : list A) : list A :=
  match l with
  | [] => []
  | x :: l' => insertSorted x (sort_Slice l')
  end.

End Sort.

Fixpoint join (sep : string) (l : list string) : string :=
  match l with
  | [] => ""
  | [x] => x
  | x :: rest => x ++ sep ++ join sep rest
  end.

(** The bindings a Go map holds after the members were assigned in
    order: the last one of each key. *)
Fixpoint dedupLast {B : Type} (l : list (string * B)) : list (string * B) :=
  match l with
  | [] => []
  | (k, v) :: rest =>
      if existsb (fun kv => String.eqb (fst kv) k) rest then dedupLast rest
      else (k, v) :: dedupLast rest
  end.

(** [fmt.Sprintf("%v", v)] on a decoded value: [<nil>], [true]/[false],
    a number as [%g], a string as it is, a slice as [[a b c]] and a map
    as [map[k:v k:v]] with its keys in increasing order. *)
Fixpoint fmt_v (v : JSON) : string :=
  match v with
  | JNull => "<nil>"
  | JBool b => if b then "true" else "false"
  | JNumber f => fmt_g f
  | JString s => s
  | JArray elems => "[" ++ join " " (map fmt_v elems) ++ "]"
  | JObject members =>
      let rendered :=
        map (fun kv => match kv with (k, x) => (k, fmt_v x) end) members in
      let entries :=
        sort_Slice (fun a b => string_lt (fst a) (fst b)) (dedupLast rendered) in
      "map[" ++ join " " (map (fun kv => fst kv ++ ":" ++ snd kv) entries) ++ "]"
  end.

(** ** processFile (lines 213-271) *)

(** Lines 244-257: the label of a decoded line.  The type switch's
    [int] case is never taken, the decoder producing no [int]. *)
Definition labelOfData (data : list (string * JSON)) (labelKey : string) : string :=
  match obj_lookup labelKey data with
  | Some labelVal =>
      match labelVal with
      | JString v => v
      | JNumber v => fmt_g v
      | JBool v => fmt_v (JBool v)
      | v => fmt_v v
      end
  | None => ""
  end.

(** The per-file state of the scanning loop: [counts] and [lineCount]. *)
Definition FileCounts : Type := gmap string Z * Z.

(** [counts[label]++; lineCount++]. *)
Definition countLabel (st : FileCounts) (label : string) : FileCounts :=
  (<[label := Int64.add (default 0 (fst st !! label)) 1]> (fst st),
   Int64.add (snd st) 1).

(** One iteration of the loop at lines 227-264. *)
Definition processLine (labelKey : string) (fastParse : bool)
  (st : FileCounts) (line : string) : FileCounts :=
  if String.eqb line "" then st                      (* continue *)
  else
    let extracted : option string :=
      if fastParse then Some (fastExtractLabel line)
      else
        match json_Unmarshal line with
        | None => None                               (* continue *)
        | Some data => Some (labelOfData data labelKey)
        end in
    match extracted with
    | None => st
    | Some label => if String.eqb label "" then st else countLabel st label
    end.

(** What [os.Open] and the [bufio.Scanner] make of a file: it cannot be
    opened, or the scanner delivers [lines] and then stops, at the end of
    the file ([readErr = None]) or on a failure, such as a line longer
    than the 10 MB buffer ([readErr = Some cause]). *)
Inductive FileState : Type :=
| CannotOpen (cause : string)
| Scanned (lines : list string) (readErr : option string).

(** [fmt.Errorf] of lines 216 and 267; [os.Open]'s error reads
    [open <path>: <cause>]. *)
Definition openErrorMessage (filePath cause : string) : string :=
  "打开文件失败: " ++ ("open " ++ filePath ++ ": " ++ cause).

Definition readErrorMessage (filePath cause : string) : string :=
  "读取文件失败[" ++ filePath ++ "]: " ++ cause.

Definition scanLines (labelKey : string) (fastParse : bool) (lines : list string)
  : FileCounts :=
  fold_left (processLine labelKey fastParse) lines (∅, 0).

(** [(counts, lineCount, err)]. *)
Definition processFile (file : FileState) (filePath labelKey : string)
  (fastParse : bool) : gmap string Z * Z * option string :=
  match file with
  | CannotOpen cause => (∅, 0, Some (openErrorMessage filePath cause))
  | Scanned lines readErr =>
      let '(counts, lineCount) := scanLines labelKey fastParse lines in
      match readErr with
      | Some cause => (counts, lineCount, Some (readErrorMessage filePath cause))
      | None => (counts, lineCount, None)
      end
  end.

(** ** collectJSONLFiles (lines 288-307) *)

(** [strings.ToLower] on the bytes [A]-[Z].  Go also lowers non-ASCII
    letters; none of them lowers to a byte of [.jsonl], so the test of
    line 298 is the same. *)
Definition lowerByte (c : ascii) : ascii :=
  let n := nat_of_ascii c in
  if ((65 <=? n) && (n <=? 90))%nat then ascii_of_nat (n + 32) else c.

Definition strings_ToLower (s : string) : string :=
  string_of_list_ascii (map lowerByte (list_ascii_of_string s)).

(** [filepath.Ext]: the suffix from the last dot of the last path element,
    empty without a dot.  [rev_path] is the path read backwards. *)
Fixpoint ext_rev (rev_path : list ascii) (acc : list ascii) : list ascii :=
  match rev_path with
  | [] => []
  | c :: rest =>
      if (c =? "/")%char then []
      else if (c =? ".")%char then c :: acc
      else ext_rev rest (c :: acc)
  end.

Definition filepath_Ext (path : string) : string :=
  string_of_list_ascii (ext_rev (rev (list_ascii_of_string path)) []).

(** Lines 297-298. *)
Definition isJSONLName (name : string) : bool :=
  let ext := strings_ToLower (filepath_Ext name) in
  String.eqb ext ".jsonl" || String.eqb ext ".json".

(** *** [path/filepath], on Unix paths *)

(** The elements of a path, the texts between its slashes (empty ones
    included). *)
Fixpoint pathElems (path : string) : list string :=
  match path with
  | EmptyString => [""]
  | String c r =>
      if (c =? "/")%char then "" :: pathElems r
      else
        match pathElems r with
        | e :: es => String c e :: es
        | [] => [String c ""]
        end
  end.

Definition filepath_IsAbs (path : string) : bool := String.prefix "/" path.

(** One element met by [filepath.Clean], with the elements kept so far
    (the last one first): an empty element and [.] are dropped; [..]
    removes the element before it, stays at the root, and is kept at the
    start of a path that is not rooted. *)
Definition cleanStep (rooted : bool) (kept : list string) (e : string)
  : list string :=
  if String.eqb e "" || String.eqb e "." then kept
  else if String.eqb e ".." then
    match kept with
    | top :: below => if String.eqb top ".." then e :: kept else below
    | [] => if rooted then [] else [e]
    end
  else e :: kept.

Definition filepath_Clean (path : string) : string :=
  if String.eqb path "" then "."
  else
    let rooted := filepath_IsAbs path in
    let kept := fold_left (cleanStep rooted) (pathElems path) [] in
    let body := join "/" (rev kept) in
    if rooted then "/" ++ body
    else if String.eqb body "" then "." else body.

(** [filepath.Join]: the elements from the first one that is not empty,
    joined with slashes and cleaned; the empty text if all are empty. *)
Fixpoint filepath_JoinAll (elem : list string) : string :=
  match elem with
  | [] => ""
  | e :: rest =>
      if String.eqb e "" then filepath_JoinAll rest
      else filepath_Clean (join "/" elem)
  end.

(** What [filepath.Walk] finds at a path: an entry that is not a
    directory, a directory with its entries in the order they are
    visited, a directory that cannot be listed, or an entry [os.Lstat]
    fails on. *)
#[warnings="-register-all"]
Inductive FSNode : Type :=
| NFile (name : string)
| NDir (name : string) (entries : list FSNode)
| NUnlistable (name : string) (cause : string)
| NBroken (name : string) (cause : string).

Definition nodeName (n : FSNode) : string :=
  match n with
  | NFile name | NDir name _ | NUnlistable name _ | NBroken name _ => name
  end.

(** [filepath.Join(path, name)], as [filepath.Walk] calls it for every
    entry of a directory: the path of an entry is cleaned, the root is
    passed to the callback as it was given. *)
Definition filepath_Join (path name : string) : string :=
  filepath_JoinAll [path; name].

(** [filepath.Walk] with the callback of lines 291-304: [files] grows by
    the path of every matching non-directory; the first error stops the
    walk and is returned. *)
Fixpoint walk (path : string) (node : FSNode) (files : list string)
  : list string * option string :=
  match node with
  | NFile name =>
      (if isJSONLName name then (files ++ [path])%list else files, None)
  | NDir _ entries =>
      (fix walkEntries (es : list FSNode) (files : list string)
         : list string * option string :=
         match es with
         | [] => (files, None)
         | e :: es' =>
             match walk (filepath_Join path (nodeName e)) e files with
             | (files', Some err) => (files', Some err)
             | (files', None) => walkEntries es' files'
             end
         end) entries files
  | NUnlistable _ cause => (files, Some cause)
  | NBroken _ cause => (files, Some cause)
  end.

Definition collectJSONLFiles (root : FSNode) (directory : string)
  : list string * option string :=
  walk directory root [].

(** ** The worker pool and countLabels (lines 274-285 and 310-400) *)

Record Config : Type := {
  LabelKey : string;
  Workers : Z;
  BatchSize : Z;
  UseFastParse : bool;
  Output : string;
  OutputSuffix : string
}.

Record LabelCount : Type := {
  Label : string;
  Count : Z
}.

(** [ProcessingTime] and [LinesPerSecond] are wall-clock measurements and
    are left out. *)
Record Result : Type := {
  Directory : string;
  FilesProcessed : Z;
  TotalLines : Z;
  UniqueLabels : Z;
  LabelCounts : gmap string Z;
  SortedLabels : list LabelCount;
  Errors : list string
}.

Record Job : Type := {
  FilePath : string;
  JobLabelKey : string
}.

Record WorkerResult : Type := {
  Counts : gmap string Z;
  Lines : Z;
  Error : option string
}.

(** The files of the machine: what the walk finds at the directory given
    to [countLabels], and what opening and scanning each path gives. *)
Record World : Type := {
  tree : FSNode;
  fileAt : string -> FileState
}.

(** One iteration of a worker's loop (lines 277-284). *)
Definition runJob (w : World) (fastParse : bool) (job : Job) : WorkerResult :=
  let '(counts, lines, err) :=
    processFile (fileAt w (FilePath job)) (FilePath job) (JobLabelKey job) fastParse in
  {| Counts := counts; Lines := lines; Error := err |}.

(** [for label, count := range result.Counts { totalCounts[label] += count }]. *)
Definition mergeCounts (totalCounts counts : gmap string Z) : gmap string Z :=
  map_fold (fun label count acc =>
              <[label := Int64.add (default 0 (acc !! label)) count]> acc)
           totalCounts counts.

(** The aggregator's state: [totalCounts], [totalLines], [errors]. *)
Record Totals : Type := {
  totalCounts : gmap string Z;
  totalLines : Z;
  errors : list string
}.

(** One iteration of the loop at lines 357-368. *)
Definition collect (acc : Totals) (result : WorkerResult) : Totals :=
  match Error result with
  | Some msg =>
      {| totalCounts := totalCounts acc;
         totalLines := totalLines acc;
         errors := (errors acc ++ [msg])%list |}            (* continue *)
  | None =>
      {| totalCounts := mergeCounts (totalCounts acc) (Counts result);
         totalLines := Int64.add (totalLines acc) (Lines result);
         errors := errors acc |}
  end.

Definition collectAll (results : list WorkerResult) : Totals :=
  fold_left collect results
            {| totalCounts := ∅; totalLines := 0; errors := [] |}.

(** The comparison given to [sort.Slice] (lines 382-387). *)
Definition less (a b : LabelCount) : bool :=
  if Count a =? Count b then string_lt (Label a) (Label b)
  else Count b <? Count a.

(** Lines 373-387.  Go ranges over a map in no fixed order; the order
    [map_to_list] gives stands for any of them
    ([ranking_any_iteration_order] below). *)
Definition rank (counts : gmap string Z) : list LabelCount :=
  sort_Slice less
    (map (fun kv => {| Label := fst kv; Count := snd kv |}) (map_to_list counts)).

(** The order in which the workers' results reach the aggregator: the
    positions of the jobs, by arrival.  With [Workers <= 0] no worker
    runs, the result channel is closed at once and nothing arrives. *)
Definition arrivals (config : Config) (schedule : list nat)
  (results : list WorkerResult) : list WorkerResult :=
  if 0 <? Workers config then omap (fun i => results !! i) schedule else [].

(** Every job is taken once and gives one result: a schedule is an
    arrangement of the job positions.  (A pool of [n] workers produces
    some of these arrangements, one worker only the first-to-last one.) *)
Definition schedule_of (n : nat) (schedule : list nat) : Prop :=
  schedule ≡ₚ seq 0 n.

(** A run of [countLabels]: the jobs sent to the workers, and what is
    returned, an error or the result. *)
Record Run : Type := {
  jobsSent : list Job;
  returned : string + Result
}.

Definition countLabels (w : World) (schedule : list nat)
  (config : Config) (directory : string) : Run :=
  match collectJSONLFiles (tree w) directory with
  | (_, Some err) =>
      {| jobsSent := []; returned := inl ("收集文件失败: " ++ err) |}
  | (files, None) =>
      if (length files =? 0)%nat then
        {| jobsSent := []; returned := inl "未找到JSONL或JSON文件" |}
      else
        let jobs :=
          map (fun file => {| FilePath := file; JobLabelKey := LabelKey config |})
              files in
        let results := map (runJob w (UseFastParse config)) jobs in
        let totals := collectAll (arrivals config schedule results) in
        {| jobsSent := jobs;
           returned := inr
             {| Directory := directory;
                FilesProcessed := Z.of_nat (length files);
                TotalLines := totalLines totals;
                UniqueLabels := Z.of_nat (size (totalCounts totals));
                LabelCounts := totalCounts totals;
                SortedLabels := rank (totalCounts totals);
                Errors := errors totals |} |}
  end.

(** ** The output file (lines 138-210) *)

(** *** [filepath.Abs], [filepath.Base] and [strings.ReplaceAll] *)

(** [filepath.Abs], with [wd] for what [os.Getwd] returns: its error
    ([inl]) or the working directory ([inr]). *)
Definition filepath_Abs (wd : string + string) (path : string) : string + string :=
  if filepath_IsAbs path then inr (filepath_Clean path)
  else
    match wd with
    | inl err => inl err
    | inr dir => inr (filepath_JoinAll [dir; path])
    end.

(** The last of the elements that are not empty. *)
Fixpoint lastElem (elems : list string) (found : option string) : option string :=
  match elems with
  | [] => found
  | e :: rest => lastElem rest (if String.eqb e "" then found else Some e)
  end.

(** [filepath.Base]: the last element of the path, trailing slashes
    apart; [.] for the empty path and [/] for a path of slashes only. *)
Definition filepath_Base (path : string) : string :=
  if String.eqb path "" then "."
  else
    match lastElem (pathElems path) None with
    | Some e => e
    | None => "/"
    end.

(** The number of bytes of the first code point of a text
    ([utf8.DecodeRuneInString]): a byte that starts no well-formed
    encoding counts alone. *)
Definition runeWidth (s : string) : nat :=
  match s with
  | EmptyString => 0
  | String b r =>
      if code b <? 128 then 1%nat
      else
        match utf8_tail b (map Raw (list_ascii_of_string r)) with
        | Some k => S k
        | None => 1%nat
        end
  end.

(** [strings.ReplaceAll s old new] for [old] not empty: the occurrences
    of [old] are replaced from the left, none overlapping another.
    [skip] counts the bytes of an occurrence still to pass. *)
Fixpoint replaceFrom (old new : string) (skip : nat) (s : string) : string :=
  match s with
  | EmptyString => ""
  | String c r =>
      match skip with
      | S k => replaceFrom old new k r
      | O =>
          if String.prefix old s
          then new ++ replaceFrom old new (len old - 1) r
          else String c (replaceFrom old new 0 r)
      end
  end.

(** For the empty [old]: [new] is put before every code point. *)
Fixpoint insertAtRunes (new : string) (skip : nat) (s : string) : string :=
  match s with
  | EmptyString => ""
  | String c r =>
      match skip with
      | S k => String c (insertAtRunes new k r)
      | O => new ++ String c (insertAtRunes new (runeWidth s - 1) r)
      end
  end.

Definition strings_ReplaceAll (s old new : string) : string :=
  if String.eqb old new then s
  else if String.eqb old "" then insertAtRunes new 0 s ++ new
  else replaceFrom old new 0 s.

(** *** ensureDir (lines 138-161) *)

(** What [os.Stat] returns for a path: a directory, another kind of
    file, an error for which [os.IsNotExist] holds, or another error. *)
Inductive StatResult : Type :=
| StatDir
| StatFile
| StatNotExist (err : string)
| StatError (err : string).

(** What the system answers to the calls [ensureDir] may make, in their
    order: the first [os.Stat], [os.MkdirAll] (its error, if any) and the
    second [os.Stat]. *)
Record DirProbe : Type := {
  firstStat : StatResult;
  mkdirAll : option string;
  secondStat : StatResult
}.

(** The error returned ([None] for [nil]) and the lines printed. *)
Definition ensureDir (probe : DirProbe) (dirPath : string)
  : option string * list string :=
  if String.eqb dirPath "" then (None, [])
  else
    let first : option string * list string :=
      match firstStat probe with
      | StatNotExist _ =>
          match mkdirAll probe with
          | Some err => (Some ("无法创建目录 " ++ dirPath ++ ": " ++ err), [])
          | None => (None, ["已创建输出目录: " ++ dirPath])
          end
      | StatError err => (Some ("无法访问目录 " ++ dirPath ++ ": " ++ err), [])
      | StatDir | StatFile => (None, [])
      end in
    match first with
    | (Some err, printed) => (Some err, printed)
    | (None, printed) =>
        match secondStat probe with
        | StatFile =>
            (Some ("输出路径 " ++ dirPath ++ " 已存在但不是目录"), printed)
        | _ => (None, printed)
        end
    end.

(** *** getOutputFilePath (lines 164-210) *)

Definition defaultSuffix : string := "_label_stats.json".

(** Lines 172-182: the name of the directory, made fit for a file name. *)
Definition outputBaseName (absDir : string) : string :=
  let dirName := filepath_Base absDir in
  let dirName :=
    if String.eqb dirName "." || String.eqb dirName "/" || String.eqb dirName ""
    then "data" else dirName in
  let dirName := strings_ReplaceAll dirName " " "_" in
  let dirName := strings_ReplaceAll dirName "/" "_" in
  let dirName := strings_ReplaceAll dirName (String backslash "") "_" in
  strings_ReplaceAll dirName ":" "".

(** The path or the error ([inl]) returned, and the lines printed. *)
Definition getOutputFilePath (wd : string + string) (probe : DirProbe)
  (directory outputDir suffix : string) : (string + string) * list string :=
  match filepath_Abs wd directory with
  | inl err => (inl ("无法获取输入目录的绝对路径: " ++ err), [])
  | inr absDir =>
      let dirName := outputBaseName absDir in
      let suffix := if String.eqb suffix "" then defaultSuffix else suffix in
      let fileName := dirName ++ suffix in
      if negb (String.eqb outputDir "") then
        match ensureDir probe outputDir with
        | (Some err, printed) => (inl err, printed)
        | (None, printed) =>
            match filepath_Abs wd outputDir with
            | inl err => (inl ("无法获取输出目录的绝对路径: " ++ err), printed)
            | inr absOutputDir =>
                (inr (filepath_JoinAll [absOutputDir; fileName]), printed)
            end
        end
      else (inr fileName, [])
  end.

(** ** The measured time and saveResult (lines 370, 394-395, 403-434) *)

(** [float64(n)] for an integer, and the division and the addition of
    [float64]: IEEE 754 binary64, rounding to nearest, ties to even. *)
Definition float64_of_int64 (n : Z) : float64 := binary_normalize 53 1024 n 0 false.

Definition float64_div (x y : float64) : float64 := SFdiv 53 1024 x y.

Definition float64_add (x y : float64) : float64 := SFadd 53 1024 x y.

(** [time.Duration.Seconds] of a duration of [d] nanoseconds. *)
Definition Duration_Seconds (d : Z) : float64 :=
  let sec := Z.quot d 1000000000 in
  let nsec := Z.rem d 1000000000 in
  float64_add (float64_of_int64 sec)
              (float64_div (float64_of_int64 nsec) (float64_of_int64 1000000000)).

(** The two measurements of a [Result]. *)
Record Timing : Type := {
  ProcessingTime : float64;
  LinesPerSecond : float64
}.

(** Lines 370 and 394-395, with [elapsed] for [time.Since(startTime)]. *)
Definition measure (totalLines : Z) (elapsed : Z) : Timing :=
  let processingTime := Duration_Seconds elapsed in
  {| ProcessingTime := processingTime;
     LinesPerSecond := float64_div (float64_of_int64 totalLines) processingTime |}.

(** A value given to [json.MarshalIndent]: an integer, a [float64], a
    string, a slice ([nil] when empty), a map and a struct with its
    fields in their order. *)
#[warnings="-register-all"]
Inductive Doc : Type :=
| DInt (n : Z)
| DFloat (f : float64)
| DString (s : string)
| DList (items : list Doc)
| DMap (members : list (string * Doc))
| DStruct (fields : list (string * Doc)).

(** The first [float64] the encoder refuses, a NaN or an infinity: a map
    is encoded in the order of its keys, a slice and a struct in their
    own order. *)
Definition isFinite (f : float64) : bool :=
  match f with
  | S754_zero _ | S754_finite _ _ _ => true
  | S754_infinity _ | S754_nan => false
  end.

(** The first refusal in a list of outcomes. *)
Fixpoint firstSome {K : Type} (outcomes : list (K * option float64)) : option float64 :=
  match outcomes with
  | [] => None
  | (_, Some f) :: _ => Some f
  | (_, None) :: rest => firstSome rest
  end.

Fixpoint unsupportedValue (d : Doc) : option float64 :=
  let ofMembers :=
    fix ofMembers (ms : list (string * Doc)) : list (string * option float64) :=
      match ms with
      | [] => []
      | (k, x) :: rest => (k, unsupportedValue x) :: ofMembers rest
      end in
  match d with
  | DInt _ | DString _ => None
  | DFloat f => if isFinite f then None else Some f
  | DList items =>
      (fix firstOf (ds : list Doc) : option float64 :=
         match ds with
         | [] => None
         | x :: rest =>
             match unsupportedValue x with
             | Some f => Some f
             | None => firstOf rest
             end
         end) items
  | DMap members =>
      firstSome (sort_Slice (fun a b => string_lt (fst a) (fst b)) (ofMembers members))
  | DStruct fields => firstSome (ofMembers fields)
  end.

(** Lines 405-422: the value that is serialised. *)
Definition formatted (result : Result) (timing : Timing) (timestamp : string) : Doc :=
  let metadata :=
    DMap [ ("directory", DString (Directory result));
           ("files_processed", DInt (FilesProcessed result));
           ("total_lines", DInt (TotalLines result));
           ("unique_labels", DInt (UniqueLabels result));
           ("processing_time_s", DFloat (ProcessingTime timing));
           ("lines_per_second", DFloat (LinesPerSecond timing));
           ("errors_count", DInt (Z.of_nat (length (Errors result))));
           ("timestamp", DString timestamp) ] in
  let labelCounts :=
    DMap (map (fun kv => (fst kv, DInt (snd kv))) (map_to_list (LabelCounts result))) in
  let sortedLabels :=
    DList (map (fun lc => DStruct [ ("label", DString (Label lc));
                                    ("count", DInt (Count lc)) ])
               (SortedLabels result)) in
  let base :=
    [ ("metadata", metadata);
      ("label_counts", labelCounts);
      ("sorted_labels", sortedLabels) ] in
  DMap (if (0 <? length (Errors result))%nat
        then (base ++ [ ("errors", DList (map DString (Errors result))) ])%list
        else base).

Section SaveResult.

(** The text [json.MarshalIndent] gives for a value it accepts, and what
    [ioutil.WriteFile] returns (its error, if any). *)
Variable render : Doc -> string.
Variable writeFile : option string.

(** The error returned ([None] for [nil]) and the text written to
    [outputFile], if any. *)
Definition saveResult (result : Result) (timing : Timing) (timestamp : string)
  (outputFile : string) : option string * option (string * string) :=
  let doc := formatted result timing timestamp in
  match unsupportedValue doc with
  | Some f =>
      (Some ("序列化JSON失败: " ++ ("json: unsupported value: " ++ fmt_g f)), None)
  | None =>
      match writeFile with
      | Some err => (Some ("写入文件失败: " ++ err), None)
      | None => (None, Some (outputFile, render doc))
      end
  end.

End SaveResult.

(** ** main: the command line (lines 498-556) *)

(** [fmt.Sscanf(s, "%d", &workers)]: white space is skipped (a line feed
    in it is an error), then an optional sign and at least one decimal
    digit are read; what follows the digits is left unread.  [None]
    stands for [err != nil]: no digit, or a number outside [int64]. *)
Fixpoint scanSkipSpace (s : string) : option string :=
  match s with
  | EmptyString => Some s
  | String c1 r1 =>
      if (c1 =? LF)%char then None
      else if isSpace1 c1 then scanSkipSpace r1
      else
        match r1 with
        | EmptyString => Some s
        | String c2 r2 =>
            if isSpace2 c1 c2 then scanSkipSpace r2
            else
              match r2 with
              | EmptyString => Some s
              | String c3 r3 =>
                  if isSpace3 c1 c2 c3 then scanSkipSpace r3 else Some s
              end
        end
  end.

Definition Sscanf_d (s : string) : option Z :=
  match scanSkipSpace s with
  | None => None
  | Some s1 =>
      let '(neg, s2) :=
        match s1 with
        | String c r =>
            if (c =? "+")%char then (false, r)
            else if (c =? "-")%char then (true, r)
            else (false, s1)
        | EmptyString => (false, s1)
        end in
      let '(v, n, _) := takeDigits 0 0 s2 in
      if n =? 0 then None
      else
        let x := if neg then - v else v in
        if (- Int64.half <=? x) && (x <? Int64.half) then Some x else None
  end.

(** Lines 512-519, with [numCPU] for [runtime.NumCPU()]. *)
Definition defaultConfig (numCPU : Z) : Config :=
  {| LabelKey := "label";
     Workers := Int64.wrap (numCPU * 2);
     BatchSize := 10000;
     UseFastParse := true;
     Output := "/Users/lixiaolong/tmp/20260118/file_stat/";
     OutputSuffix := "_label_stats.json" |}.

Definition setLabelKey (v : string) (c : Config) : Config :=
  {| LabelKey := v; Workers := Workers c; BatchSize := BatchSize c;
     UseFastParse := UseFastParse c; Output := Output c;
     OutputSuffix := OutputSuffix c |}.

Definition setOutput (v : string) (c : Config) : Config :=
  {| LabelKey := LabelKey c; Workers := Workers c; BatchSize := BatchSize c;
     UseFastParse := UseFastParse c; Output := v;
     OutputSuffix := OutputSuffix c |}.

Definition setWorkers (n : Z) (c : Config) : Config :=
  {| LabelKey := LabelKey c; Workers := n; BatchSize := BatchSize c;
     UseFastParse := UseFastParse c; Output := Output c;
     OutputSuffix := OutputSuffix c |}.

Definition setOutputSuffix (v : string) (c : Config) : Config :=
  {| LabelKey := LabelKey c; Workers := Workers c; BatchSize := BatchSize c;
     UseFastParse := UseFastParse c; Output := Output c;
     OutputSuffix := v |}.

Definition setUseFastParse (b : bool) (c : Config) : Config :=
  {| LabelKey := LabelKey c; Workers := Workers c; BatchSize := BatchSize c;
     UseFastParse := b; Output := Output c;
     OutputSuffix := OutputSuffix c |}.

(** The line printed for an argument that is no option (line 554). *)
Definition unknownArgument (arg : string) : string :=
  "警告: 未知参数 " ++ arg.

(** The loop of lines 525-556 over [args = os.Args[2:]]: the
    configuration it leaves and the warnings it prints.  An option that
    takes a value consumes the next argument, whatever it is; without a
    next argument it does nothing. *)
Fixpoint parseArgs (args : list string) (config : Config) (warnings : list string)
  : Config * list string :=
  match args with
  | [] => (config, warnings)
  | arg :: rest =>
      if String.eqb arg "-label-key" then
        match rest with
        | v :: rest' => parseArgs rest' (setLabelKey v config) warnings
        | [] => (config, warnings)
        end
      else if String.eqb arg "-output" then
        match rest with
        | v :: rest' => parseArgs rest' (setOutput v config) warnings
        | [] => (config, warnings)
        end
      else if String.eqb arg "-workers" then
        match rest with
        | v :: rest' =>
            let config' :=
              match Sscanf_d v with
              | Some workers =>
                  if 0 <? workers then setWorkers workers config else config
              | None => config
              end in
            parseArgs rest' config' warnings
        | [] => (config, warnings)
        end
      else if String.eqb arg "-suffix" then
        match rest with
        | v :: rest' => parseArgs rest' (setOutputSuffix v config) warnings
        | [] => (config, warnings)
        end
      else if String.eqb arg "-full-parse" then
        parseArgs rest (setUseFastParse false config) warnings
      else
        parseArgs rest config (warnings ++ [unknownArgument arg])%list
  end.

(** What [main] does with [os.Args] (lines 499-556): the usage text and
    an exit code, or the directory and the configuration to go on with. *)
Inductive Invocation : Type :=
| Usage (exitCode : Z)
| Proceed (directory : string) (config : Config) (warnings : list string).

Definition commandLine (numCPU : Z) (osArgs : list string) : Invocation :=
  match osArgs with
  | _ :: first :: args =>
      if String.eqb first "-help" || String.eqb first "--help"
         || String.eqb first "-h"
      then Usage 0
      else
        let '(config, warnings) := parseArgs args (defaultConfig numCPU) [] in
        Proceed first config warnings
  | _ => Usage 1
  end.

(** ** Vocabulary of the statements below *)

(** The walk can traverse the whole tree: no entry fails [os.Lstat] and
    every directory can be listed. *)
Fixpoint traversable (node : FSNode) : bool :=
  match node with
  | NFile _ => true
  | NDir _ entries => forallb traversable entries
  | NUnlistable _ _ => false
  | NBroken _ _ => false
  end.

(** The paths of the entries below [path] that are not directories and
    whose lower-cased extension is [.jsonl] or [.json]. *)
Fixpoint jsonlPaths (path : string) (node : FSNode) : list string :=
  match node with
  | NFile name => if isJSONLName name then [path] else []
  | NDir _ entries =>
      flat_map (fun e => jsonlPaths (filepath_Join path (nodeName e)) e) entries
  | NUnlistable _ _ => []
  | NBroken _ _ => []
  end.

(** The entries of the tree in the order of the walk, each with its
    path: a directory comes before its entries, and the entries of a
    directory in their order. *)
Fixpoint walkOrder (path : string) (node : FSNode) : list (string * FSNode) :=
  (path, node)
  :: match node with
     | NDir _ entries =>
         flat_map (fun e => walkOrder (filepath_Join path (nodeName e)) e) entries
     | _ => []
     end.

(** The error [filepath.Walk] passes to the callback at an entry, if
    any. *)
Definition entryError (node : FSNode) : option string :=
  match node with
  | NUnlistable _ cause | NBroken _ cause => Some cause
  | NFile _ | NDir _ _ => None
  end.

(** The paths, among entries with their paths, of those that are not
    directories and have a label file's name. *)
Definition labelFiles (visited : list (string * FSNode)) : list string :=
  flat_map (fun pn => match snd pn with
                      | NFile name => if isJSONLName name then [fst pn] else []
                      | _ => []
                      end) visited.

(** Entries visited one after the other up to the first error. *)
Fixpoint visitUntilError (order : list (string * FSNode))
  : list string * option string :=
  match order with
  | [] => ([], None)
  | pn :: rest =>
      match entryError (snd pn) with
      | Some cause => ([], Some cause)
      | None =>
          let '(files, err) := visitUntilError rest in
          ((labelFiles [pn] ++ files)%list, err)
      end
  end.

Definition aborted (r : Run) : Prop :=
  exists err, returned r = inl err.

(** The entries of a frequency table, in the order Go happens to range
    over it. *)
Definition entriesOf (counts : gmap string Z) : list LabelCount :=
  map (fun kv => {| Label := fst kv; Count := snd kv |}) (map_to_list counts).

(** The order of the ranked list: a higher count comes first, and among
    equal counts the smaller label in byte order. *)
Definition rankedBefore (a b : LabelCount) : Prop :=
  Count b < Count a
  \/ (Count a = Count b /\ string_lt (Label a) (Label b) = true).

Definition rankedOrder (l : list LabelCount) : Prop :=
  forall i j a b, (i < j)%nat -> l !! i = Some a -> l !! j = Some b ->
                  rankedBefore a b.

(** What the extractor makes of a line that is not blank: nothing when
    the full-parse decoder rejects the line, else the extracted text
    (both variants give the empty text where they find no value). *)
Definition extracted (labelKey : string) (fastParse : bool) (line : string)
  : option string :=
  if fastParse then Some (fastExtractLabel line)
  else
    match json_Unmarshal line with
    | None => None
    | Some data => Some (labelOfData data labelKey)
    end.

(** The value a line is counted under: the line is not blank and the
    extractor yields a non-empty value. *)
Definition countedLabel (labelKey : string) (fastParse : bool) (line : string)
  : option string :=
  if String.eqb line "" then None
  else
    match extracted labelKey fastParse line with
    | Some label => if String.eqb label "" then None else Some label
    | None => None
    end.

Definition countedLabels (labelKey : string) (fastParse : bool)
  (lines : list string) : list string :=
  omap (countedLabel labelKey fastParse) lines.

(** The number of occurrences of [label] in a list of values. *)
Definition occurrences (label : string) (values : list string) : Z :=
  Z.of_nat (length (filter (fun v => v = label) values)).

(** The frequency table of a list of values, in unbounded integers. *)
Definition exactTally (values : list string) : gmap string Z :=
  foldr (fun v m => <[v := default 0 (m !! v) + 1]> m) ∅ values.

(** The same table in [int64]. *)
Definition tally (values : list string) : gmap string Z :=
  Int64.wrap <$> exactTally values.

(** The sum of the counts of a table, in unbounded integers. *)
Definition sumCounts (counts : gmap string Z) : Z :=
  map_fold (fun _ count acc => count + acc) 0 counts.

(** The values counted in the lines the scanner delivered from a file
    (none if it cannot be opened), and the error of the file, if any. *)
Definition scannedLabels (w : World) (config : Config) (path : string)
  : list string :=
  match fileAt w path with
  | CannotOpen _ => []
  | Scanned lines _ =>
      countedLabels (LabelKey config) (UseFastParse config) lines
  end.

Definition fileError (w : World) (path : string) : option string :=
  match fileAt w path with
  | CannotOpen cause => Some (openErrorMessage path cause)
  | Scanned _ (Some cause) => Some (readErrorMessage path cause)
  | Scanned _ None => None
  end.

(** The values of the files read to the end without an error. *)
Definition cleanLabels (w : World) (config : Config) (path : string)
  : list string :=
  match fileError w path with
  | None => scannedLabels w config path
  | Some _ => []
  end.

(** The files the walk finds, the values counted in a run and the errors
    it meets, in the order of the walk. *)
Definition discovered (w : World) (directory : string) : list string :=
  jsonlPaths directory (tree w).

Definition runLabels (w : World) (config : Config) (directory : string)
  : list string :=
  if 0 <? Workers config
  then flat_map (cleanLabels w config) (discovered w directory)
  else [].

Definition runErrors (w : World) (config : Config) (directory : string)
  : list string :=
  if 0 <? Workers config
  then omap (fileError w) (discovered w directory)
  else [].

(** [needle] occurs in [text]. *)
Definition mentions (text needle : string) : Prop :=
  exists before after, text = before ++ needle ++ after.

(** Two states of the aggregator with the same table, the same line
    total and the same errors, the errors in any order. *)
Definition sameTotals (a b : Totals) : Prop :=
  totalCounts a = totalCounts b
  /\ totalLines a = totalLines b
  /\ errors a ≡ₚ errors b.

(** The job sent for a file (line 341). *)
Definition jobFor (config : Config) (file : string) : Job :=
  {| FilePath := file; JobLabelKey := LabelKey config |}.

(** ** A small corpus for examples

    A directory [data] with three label files, one of them in a
    subdirectory, and one file that is not a label file.  [b.JSON] fails
    after two lines (a line longer than the scanner's buffer) and
    [sub/c.json] cannot be opened. *)

Definition demoTree : FSNode :=
  NDir "data"
       [ NFile "a.jsonl"; NFile "b.JSON"; NFile "notes.txt";
         NDir "sub" [ NFile "c.json" ] ].

Definition demoFiles (path : string) : FileState :=
  if String.eqb path "data/a.jsonl" then
    Scanned [ bq "{`label`:`cat`,`x`:1}";
              bq "{`label`: `dog`}";
              "";
              bq "{`x`:1}";
              bq "{`label`:`cat`}" ] None
  else if String.eqb path "data/b.JSON" then
    Scanned [ bq "{`label`:`cat`}"; bq "{`label`:`emu`}" ]
            (Some "bufio.Scanner: token too long")
  else if String.eqb path "data/sub/c.json" then
    CannotOpen "permission denied"
  else CannotOpen "no such file or directory".

Definition demoWorld : World := {| tree := demoTree; fileAt := demoFiles |}.

Definition demoConfig : Config :=
  {| LabelKey := "label";
     Workers := 2;
     BatchSize := 10000;
     UseFastParse := true;
     Output := "out";
     OutputSuffix := "_label_stats.json" |}.

(** The same with the full-parse strategy. *)
Definition demoConfigFull : Config :=
  {| LabelKey := "label";
     Workers := 2;
     BatchSize := 10000;
     UseFastParse := false;
     Output := "out";
     OutputSuffix := "_label_stats.json" |}.

(** The world in which the file at [path] is [file]. *)
Definition withFile (w : World) (path : string) (file : FileState) : World :=
  {| tree := tree w;
     fileAt := fun p => if String.eqb p path then file else fileAt w p |}.

(** [f] with the sign [s]. *)
Definition withSign (s : bool) (f : float64) : float64 :=
  match f with
  | S754_zero _ => S754_zero s
  | S754_infinity _ => S754_infinity s
  | S754_nan => S754_nan
  | S754_finite _ m e => S754_finite s m e
  end.

(** The text of a number holds the exponent marker. *)
Definition hasExponent (text : string) : Prop := mentions text "e".

(** No byte of [text] is the exponent marker. *)
Definition plain (text : string) : Prop :=
  Forall (fun c => c <> "e"%char) (list_ascii_of_string text).

(** The results of the three files of the example corpus, in the order
    of the walk. *)
Definition demoResults : list WorkerResult :=
  map (fun file => runJob demoWorld true (jobFor demoConfig file))
      (discovered demoWorld "data").

(** [a] may stand before [b] in a list sorted with [lt]. *)
Definition notAfter {A : Type} (lt : A -> A -> bool) (a b : A) : Prop :=
  lt b a = false.

(** *** Shapes of a line and of its value *)

(** The bytes the fast extractor skips after the colon. *)
Definition isBlank (c : ascii) : bool :=
  (c =? " ")%char || (c =? TAB)%char || (c =? LF)%char.

Definition blanks (ws : string) : bool :=
  forallb isBlank (list_ascii_of_string ws).

(** A text without the quote [q] and without a backslash. *)
Definition unescaped (q : ascii) (v : string) : bool :=
  forallb (fun c => negb (c =? q)%char && negb (c =? backslash)%char)
          (list_ascii_of_string v).

(** A printable ASCII byte that is no blank and does not end a bare
    value. *)
Definition isTokenByte (c : ascii) : bool :=
  let n := nat_of_ascii c in
  ((33 <=? n) && (n <=? 126))%nat
  && negb (c =? ",")%char && negb (c =? "}")%char.

(** A bare value: token bytes, the first of them no quote. *)
Definition bareValue (t : string) : bool :=
  match t with
  | EmptyString => false
  | String c _ =>
      negb (c =? dq)%char && negb (c =? sq)%char
      && forallb isTokenByte (list_ascii_of_string t)
  end.

(** What may follow a bare value: nothing, or a comma, a closing brace or
    a line feed. *)
Definition endsValue (rest : string) : bool :=
  match rest with
  | EmptyString => true
  | String c _ => (c =? ",")%char || (c =? "}")%char || (c =? LF)%char
  end.

(** An ASCII byte that a JSON string literal holds as it is: no control
    byte, no double quote, no backslash. *)
Definition isLiteralByte (c : ascii) : bool :=
  let n := nat_of_ascii c in
  ((32 <=? n) && (n <=? 127))%nat
  && negb (c =? dq)%char && negb (c =? backslash)%char.

Definition literalText (v : string) : bool :=
  forallb isLiteralByte (list_ascii_of_string v).

(** *** The command line *)

Definition knownOption (arg : string) : bool :=
  String.eqb arg "-label-key" || String.eqb arg "-output"
  || String.eqb arg "-workers" || String.eqb arg "-suffix"
  || String.eqb arg "-full-parse".

(** What a run of the argument loop over [args] may have changed from
    [before] to [after]: each field only through its own option, to a
    value that is among the arguments. *)
Definition changedByOptions (args : list string) (before after : Config) : Prop :=
  BatchSize after = BatchSize before
  /\ (UseFastParse after <> UseFastParse before ->
      UseFastParse after = false /\ "-full-parse"%string ∈ args)
  /\ (LabelKey after <> LabelKey before ->
      "-label-key"%string ∈ args /\ LabelKey after ∈ args)
  /\ (Output after <> Output before ->
      "-output"%string ∈ args /\ Output after ∈ args)
  /\ (OutputSuffix after <> OutputSuffix before ->
      "-suffix"%string ∈ args /\ OutputSuffix after ∈ args)
  /\ (Workers after <> Workers before ->
      "-workers"%string ∈ args /\ 0 < Workers after
      /\ exists v, v ∈ args /\ Sscanf_d v = Some (Workers after)).

(** The options that take a value: the argument after one of them is
    its value, whatever it is. *)
Definition takesValue (arg : string) : bool :=
  String.eqb arg "-label-key" || String.eqb arg "-output"
  || String.eqb arg "-workers" || String.eqb arg "-suffix".

(** The arguments the loop reads as options, in their order: all but
    the values of the options that take one. *)
Fixpoint argumentsMet (args : list string) : list string :=
  match args with
  | [] => []
  | arg :: rest =>
      arg :: (if takesValue arg
              then match rest with
                   | _ :: rest' => argumentsMet rest'
                   | [] => []
                   end
              else argumentsMet rest)
  end.

(** Of the arguments met, those that are no option. *)
Definition unknownArguments (args : list string) : list string :=
  List.filter (fun arg => negb (knownOption arg)) (argumentsMet args).

(** The text does not go on with a decimal digit. *)
Definition endsNumber (junk : string) : bool :=
  match junk with
  | EmptyString => true
  | String c _ => negb (isDigit c)
  end.

(** *** Paths *)

(** The byte [c] does not occur in [s]. *)
Definition freeOf (c : ascii) (s : string) : bool :=
  forallb (fun x => negb (x =? c)%char) (list_ascii_of_string s).

(** The second check of [ensureDir] sees what the first one saw, or the
    directory made in between. *)
Definition coherent (probe : DirProbe) : Prop :=
  match firstStat probe, mkdirAll probe with
  | StatNotExist _, None => secondStat probe = StatDir
  | first, _ => secondStat probe = first
  end.

(** An element [filepath.Clean] keeps in a rooted path. *)
Definition properElem (e : string) : Prop :=
  e <> ""%string /\ e <> "."%string /\ e <> ".."%string /\ freeOf "/" e = true.

(* ===================================================================== *)
(** * Properties *)
(* ===================================================================== *)

(** ** Arithmetic on [int64] *)

Lemma wrap_in_range z : Int64.in_range (Int64.wrap z).
Proof.
  unfold Int64.in_range, Int64.wrap.
  pose proof (Z.mod_pos_bound (z + Int64.half) Int64.modulus eq_refl).
  unfold Int64.modulus, Int64.half in *. lia.
Qed.

Lemma wrap_small z : Int64.in_range z -> Int64.wrap z = z.
Proof.
  unfold Int64.in_range, Int64.wrap, Int64.modulus, Int64.half. intros Hz.
  rewrite Z.mod_small; lia.
Qed.

Lemma wrap_wrap z : Int64.wrap (Int64.wrap z) = Int64.wrap z.
Proof. apply wrap_small, wrap_in_range. Qed.

Lemma wrap_add_l a b : Int64.wrap (Int64.wrap a + b) = Int64.wrap (a + b).
Proof.
  unfold Int64.wrap.
  replace ((a + Int64.half) mod Int64.modulus - Int64.half + b + Int64.half)
    with ((a + Int64.half) mod Int64.modulus + b) by lia.
  replace (a + b + Int64.half) with ((a + Int64.half) + b) by lia.
  now rewrite Zplus_mod_idemp_l.
Qed.

Lemma wrap_add_r a b : Int64.wrap (a + Int64.wrap b) = Int64.wrap (a + b).
Proof. rewrite (Z.add_comm a), wrap_add_l. f_equal. lia. Qed.

Lemma int64_add_comm a b : Int64.add a b = Int64.add b a.
Proof. unfold Int64.add. f_equal. lia. Qed.

Lemma int64_add_assoc a b c :
  Int64.add a (Int64.add b c) = Int64.add (Int64.add a b) c.
Proof. unfold Int64.add. rewrite wrap_add_r, wrap_add_l. f_equal. lia. Qed.

Lemma wrap_0 : Int64.wrap 0 = 0.
Proof. reflexivity. Qed.

(** ** File discovery *)

(** An induction principle for directory trees that reaches the entries
    of a directory. *)
Lemma FSNode_nested_ind (P : FSNode -> Prop) :
  (forall name, P (NFile name)) ->
  (forall name entries, Forall P entries -> P (NDir name entries)) ->
  (forall name cause, P (NUnlistable name cause)) ->
  (forall name cause, P (NBroken name cause)) ->
  forall n, P n.
Proof.
  intros Hfile Hdir Hunl Hbroken.
  fix IH 1. intros [name | name entries | name cause | name cause].
  - apply Hfile.
  - apply Hdir. induction entries as [| e es IHes]; constructor.
    + apply IH.
    + apply IHes.
  - apply Hunl.
  - apply Hbroken.
Qed.

(** A walk over a traversable tree appends the matching paths and ends
    without an error. *)
Lemma walk_traversable node :
  forall path files,
    traversable node = true ->
    walk path node files = ((files ++ jsonlPaths path node)%list, None).
Proof.
  induction node as [name | name entries IH | name cause | name cause]
    using FSNode_nested_ind; intros path files Hok; simpl in *.
  - destruct (isJSONLName name); [reflexivity | now rewrite app_nil_r].
  - revert files Hok.
    induction IH as [| e es He _ IHes]; intros files Hok; simpl in *.
    + now rewrite app_nil_r.
    + apply andb_prop in Hok as [Hok1 Hok2].
      rewrite (He _ _ Hok1), (IHes _ Hok2), app_assoc. reflexivity.
  - discriminate.
  - discriminate.
Qed.

(** A walk over a tree that is not traversable ends with an error. *)
Lemma walk_not_traversable node :
  forall path files,
    traversable node = false ->
    exists files' err, walk path node files = (files', Some err).
Proof.
  induction node as [name | name entries IH | name cause | name cause]
    using FSNode_nested_ind; intros path files Hbad; simpl in *.
  - discriminate.
  - revert files Hbad.
    induction IH as [| e es He _ IHes]; intros files Hbad; simpl in *.
    + discriminate.
    + destruct (traversable e) eqn:Hte; simpl in Hbad.
      * rewrite (walk_traversable e _ _ Hte). apply IHes, Hbad.
      * destruct (He (filepath_Join path (nodeName e)) files eq_refl)
          as (files' & err & ->).
        eauto.
  - eauto.
  - eauto.
Qed.

Lemma collectJSONLFiles_cases (t : FSNode) (directory : string) :
  (traversable t = true /\
   collectJSONLFiles t directory = (jsonlPaths directory t, None))
  \/ (traversable t = false /\
      exists files err, collectJSONLFiles t directory = (files, Some err)).
Proof.
  unfold collectJSONLFiles. destruct (traversable t) eqn:Ht.
  - left. split; [reflexivity |]. now rewrite walk_traversable.
  - right. split; [reflexivity |]. now apply walk_not_traversable.
Qed.

(** ** The walk, entry by entry *)

Lemma visitUntilError_app l1 l2 :
  visitUntilError (l1 ++ l2)
  = match visitUntilError l1 with
    | (files, Some err) => (files, Some err)
    | (files, None) =>
        ((files ++ fst (visitUntilError l2))%list, snd (visitUntilError l2))
    end.
Proof.
  induction l1 as [| pn l1 IH]; cbn [app visitUntilError].
  - now destruct (visitUntilError l2).
  - destruct (entryError (snd pn)); [reflexivity |].
    rewrite IH. destruct (visitUntilError l1) as [files [err |]]; [reflexivity |].
    now rewrite app_assoc.
Qed.

Lemma labelFiles_app l1 l2 :
  labelFiles (l1 ++ l2) = (labelFiles l1 ++ labelFiles l2)%list.
Proof. unfold labelFiles. apply flat_map_app. Qed.

Lemma visitUntilError_all order :
  Forall (fun pn => entryError (snd pn) = None) order ->
  visitUntilError order = (labelFiles order, None).
Proof.
  induction 1 as [| pn rest Hpn _ IH]; [reflexivity |].
  cbn [visitUntilError]. rewrite Hpn, IH.
  now rewrite <- labelFiles_app.
Qed.

Lemma visitUntilError_first before path node cause after :
  Forall (fun pn => entryError (snd pn) = None) before ->
  entryError node = Some cause ->
  visitUntilError (before ++ (path, node) :: after)
  = (labelFiles before, Some cause).
Proof.
  intros Hbefore Hnode.
  rewrite visitUntilError_app, (visitUntilError_all before Hbefore).
  cbn [visitUntilError snd fst]. rewrite Hnode. cbn [fst snd].
  now rewrite app_nil_r.
Qed.

(** The walk visits the entries in their order up to the first error. *)
Lemma walk_visitUntilError node :
  forall path files,
    walk path node files
    = ((files ++ fst (visitUntilError (walkOrder path node)))%list,
       snd (visitUntilError (walkOrder path node))).
Proof.
  induction node as [name | name entries IH | name cause | name cause]
    using FSNode_nested_ind; intros path files.
  - cbn [walk walkOrder visitUntilError entryError snd fst labelFiles flat_map].
    destruct (isJSONLName name); cbn [app fst snd]; [reflexivity |].
    now rewrite app_nil_r.
  - cbn [walk walkOrder visitUntilError entryError snd].
    cbn [labelFiles flat_map snd app].
    match goal with
    | |- ?walkEntries entries files = _ =>
        assert (Hentries : forall es fs,
          Forall (fun node => forall path files,
                    walk path node files
                    = ((files ++ fst (visitUntilError (walkOrder path node)))%list,
                       snd (visitUntilError (walkOrder path node)))) es ->
          walkEntries es fs
          = ((fs ++ fst (visitUntilError
                           (flat_map (fun e => walkOrder (filepath_Join path (nodeName e)) e)
                              es)))%list,
             snd (visitUntilError
                    (flat_map (fun e => walkOrder (filepath_Join path (nodeName e)) e)
                       es))))
    end.
    { intros es fs Hes. revert fs.
      induction Hes as [| e es He _ IHes]; intros fs.
      - cbn [flat_map visitUntilError fst snd]. now rewrite app_nil_r.
      - cbn [flat_map]. rewrite visitUntilError_app, He.
        destruct (visitUntilError (walkOrder (filepath_Join path (nodeName e)) e))
          as [found [err |]]; cbn [fst snd]; [reflexivity |].
        rewrite IHes. now rewrite app_assoc. }
    rewrite (Hentries entries files IH).
    destruct (visitUntilError _) as [found err]. reflexivity.
  - cbn [walk walkOrder visitUntilError entryError snd fst]. now rewrite app_nil_r.
  - cbn [walk walkOrder visitUntilError entryError snd fst]. now rewrite app_nil_r.
Qed.

Lemma walkOrder_traversable node :
  forall path,
    traversable node = true
    <-> Forall (fun pn => entryError (snd pn) = None) (walkOrder path node).
Proof.
  induction node as [name | name entries IH | name cause | name cause]
    using FSNode_nested_ind; intros path; cbn [traversable walkOrder].
  - split; [| reflexivity]. intros _. now repeat constructor.
  - rewrite Forall_cons. cbn [snd entryError].
    assert (Hes : forallb traversable entries = true
                  <-> Forall (fun pn => entryError (snd pn) = None)
                        (flat_map (fun e => walkOrder (filepath_Join path (nodeName e)) e)
                           entries)).
    { induction IH as [| e es He _ IHes]; cbn [forallb flat_map].
      - split; [constructor | reflexivity].
      - rewrite andb_true_iff, Forall_app, (He (filepath_Join path (nodeName e))), IHes.
        reflexivity. }
    rewrite Hes. tauto.
  - split; [discriminate |]. intros H. apply Forall_cons in H as [H _]. discriminate H.
  - split; [discriminate |]. intros H. apply Forall_cons in H as [H _]. discriminate H.
Qed.

Lemma labelFiles_walkOrder node :
  forall path, labelFiles (walkOrder path node) = jsonlPaths path node.
Proof.
  induction node as [name | name entries IH | name cause | name cause]
    using FSNode_nested_ind; intros path; cbn [walkOrder jsonlPaths].
  - cbn [labelFiles flat_map snd fst]. now rewrite app_nil_r.
  - change (labelFiles ((path, NDir name entries) :: ?l)) with (labelFiles l).
    induction IH as [| e es He _ IHes]; cbn [flat_map]; [reflexivity |].
    now rewrite labelFiles_app, He, IHes.
  - reflexivity.
  - reflexivity.
Qed.

(** The walk visits the root, then the entries of every directory in
    their order, each with its path.  If none of them fails, it returns
    the paths of those that are not directories and whose lower-cased
    extension is [.jsonl] or [.json], in that order, and no error.
    Otherwise it stops at the first entry that cannot be examined or
    listed: it returns the error of that entry, with the matching paths
    met before it. *)
Theorem collectJSONLFiles_finds_the_label_files (t : FSNode) (directory : string) :
  let order := walkOrder directory t in
  let examined := Forall (fun pn : string * FSNode => entryError (snd pn) = None) in
  (examined order ->
   collectJSONLFiles t directory = (labelFiles order, None))
  /\ (forall before path node cause after,
        order = (before ++ (path, node) :: after)%list ->
        examined before -> entryError node = Some cause ->
        collectJSONLFiles t directory = (labelFiles before, Some cause))
  /\ (examined order <-> traversable t = true)
  /\ labelFiles order = jsonlPaths directory t
  /\ (exists rest, order = (directory, t) :: rest).
Proof.
  intros order examined. unfold collectJSONLFiles.
  rewrite walk_visitUntilError. fold order. cbn [app].
  split_and!.
  - intros Hall. now rewrite (visitUntilError_all order Hall).
  - intros before path node cause after Horder Hbefore Hnode.
    now rewrite Horder, (visitUntilError_first before path node cause after Hbefore Hnode).
  - symmetry. apply walkOrder_traversable.
  - apply labelFiles_walkOrder.
  - unfold order. destruct t; cbn [walkOrder]; eauto.
Qed.

Lemma collectJSONLFiles_finds_the_label_files_witness :
  collectJSONLFiles
    (NDir "data" [ NFile "a.jsonl";
                   NDir "sub" [ NFile "b.JSON"; NBroken "c" "lstat data/sub/c: permission denied" ];
                   NFile "d.json" ]) "./data"
  = ([ "data/a.jsonl"; "data/sub/b.JSON" ]%string,
     Some "lstat data/sub/c: permission denied"%string).
Proof.
  destruct (collectJSONLFiles_finds_the_label_files
              (NDir "data" [ NFile "a.jsonl";
                   NDir "sub" [ NFile "b.JSON"; NBroken "c" "lstat data/sub/c: permission denied" ];
                   NFile "d.json" ]) "./data") as (_ & Hstop & _).
  exact (Hstop [ ("./data", NDir "data" [ NFile "a.jsonl";
                   NDir "sub" [ NFile "b.JSON"; NBroken "c" "lstat data/sub/c: permission denied" ];
                   NFile "d.json" ]);
                 ("data/a.jsonl", NFile "a.jsonl");
                 ("data/sub", NDir "sub" [ NFile "b.JSON"; NBroken "c" "lstat data/sub/c: permission denied" ]);
                 ("data/sub/b.JSON", NFile "b.JSON") ]%string
               "data/sub/c"%string
               (NBroken "c" "lstat data/sub/c: permission denied")
               "lstat data/sub/c: permission denied"%string
               [ ("data/d.json", NFile "d.json") ]%string
               eq_refl ltac:(repeat constructor) eq_refl).
Defined.

(** C8.  [countLabels] returns an error, and no result, in exactly two
    cases: the directory walk fails (some entry cannot be examined or
    listed), or it succeeds and finds no entry whose lower-cased extension
    is [.jsonl] or [.json].  In both no job has been sent to a worker.
    What opening and scanning the files gives plays no part: with the
    same tree, any other file contents abort the run in the same cases. *)
Theorem countLabels_aborts_only_on_discovery
  (t : FSNode) (files : string -> FileState) (schedule : list nat)
  (config : Config) (directory : string) :
  let run := countLabels {| tree := t; fileAt := files |} schedule config directory in
  (aborted run <-> traversable t = false \/ jsonlPaths directory t = [])
  /\ (aborted run -> jobsSent run = [])
  /\ (traversable t = false ->
      exists found err,
        collectJSONLFiles t directory = (found, Some err)
        /\ returned run = inl ("收集文件失败: " ++ err))
  /\ (traversable t = true -> jsonlPaths directory t = [] ->
      returned run = inl "未找到JSONL或JSON文件")
  /\ (traversable t = true -> jsonlPaths directory t <> [] ->
      exists r, returned run = inr r
                /\ map FilePath (jobsSent run) = jsonlPaths directory t)
  /\ (forall files',
        aborted (countLabels {| tree := t; fileAt := files' |}
                             schedule config directory)
        <-> aborted run).
Proof.
  assert (Hcases : forall fa,
    let run := countLabels {| tree := t; fileAt := fa |} schedule config directory in
    (traversable t = false /\
       exists found err, collectJSONLFiles t directory = (found, Some err)
         /\ run = {| jobsSent := []; returned := inl ("收集文件失败: " ++ err) |})
    \/ (traversable t = true /\ jsonlPaths directory t = [] /\
        run = {| jobsSent := []; returned := inl "未找到JSONL或JSON文件" |})
    \/ (traversable t = true /\ jsonlPaths directory t <> [] /\
        exists r, returned run = inr r
                  /\ map FilePath (jobsSent run) = jsonlPaths directory t)).
  { intros fa. unfold countLabels. cbn [tree fileAt].
    destruct (collectJSONLFiles_cases t directory)
      as [[Ht ->] | [Ht (found & err & ->)]].
    - right. destruct (jsonlPaths directory t) as [| p ps] eqn:Hp.
      + left. auto.
      + right. repeat split; [done | done |]. cbn [length Nat.eqb].
        eexists. split; [reflexivity |]. cbn [jobsSent].
        rewrite map_map. cbn [FilePath]. now rewrite map_id.
    - left. split; [assumption |]. eauto. }
  intros run.
  assert (Habort : forall fa,
    aborted (countLabels {| tree := t; fileAt := fa |} schedule config directory)
    <-> traversable t = false \/ jsonlPaths directory t = []).
  { intros fa. unfold aborted.
    destruct (Hcases fa) as [(Ht & found & err & _ & ->)
                            | [(Ht & Hp & ->) | (Ht & Hp & r & Hr & _)]];
      cbn [returned].
    - split; [auto | eauto].
    - split; [auto | eauto].
    - rewrite Hr. split.
      + intros [err Herr]. discriminate.
      + intros [Hbad | Hnone]; congruence. }
  assert (Hindep : forall fa,
    aborted (countLabels {| tree := t; fileAt := fa |} schedule config directory)
    <-> aborted run).
  { intros fa. unfold run. now rewrite !Habort. }
  subst run.
  split_and!; [exact (Habort files) | | | | | exact Hindep];
    destruct (Hcases files) as [(Ht & found & err & Hwalk & Hrun)
                               | [(Ht & Hp & Hrun) | (Ht & Hp & r & Hr & Hjobs)]];
    cbv zeta in *; try rewrite Hrun; cbn [jobsSent returned];
    try congruence; eauto.
  intros [err Herr]. congruence.
Qed.

(** ** The order on strings and on ranked entries *)

Lemma string_lt_irrefl a : string_lt a a = false.
Proof.
  induction a as [| x a IH]; simpl; [reflexivity |].
  now rewrite Nat.ltb_irrefl.
Qed.

Lemma string_lt_trans a b c :
  string_lt a b = true -> string_lt b c = true -> string_lt a c = true.
Proof.
  revert b c. induction a as [| x a IH]; intros [| y b] [| z c]; simpl;
    try congruence.
  destruct (Nat.ltb_spec (nat_of_ascii x) (nat_of_ascii y)),
           (Nat.ltb_spec (nat_of_ascii y) (nat_of_ascii x)),
           (Nat.ltb_spec (nat_of_ascii y) (nat_of_ascii z)),
           (Nat.ltb_spec (nat_of_ascii z) (nat_of_ascii y)),
           (Nat.ltb_spec (nat_of_ascii x) (nat_of_ascii z)),
           (Nat.ltb_spec (nat_of_ascii z) (nat_of_ascii x));
    try lia; try congruence; eauto.
Qed.

Lemma string_lt_trichotomy a b :
  string_lt a b = true \/ a = b \/ string_lt b a = true.
Proof.
  revert b. induction a as [| x a IH]; intros [| y b]; simpl; auto.
  destruct (Nat.ltb_spec (nat_of_ascii x) (nat_of_ascii y)),
           (Nat.ltb_spec (nat_of_ascii y) (nat_of_ascii x));
    try lia; auto.
  assert (x = y).
  { rewrite <- (ascii_nat_embedding x), <- (ascii_nat_embedding y).
    f_equal. lia. }
  subst y. destruct (IH b) as [? | [-> | ?]]; auto.
Qed.

(** [string_lt] is the lexicographic order on bytes: the first string is
    a proper prefix of the second, or at the first position where they
    differ its byte is the smaller one. *)
Lemma string_lt_lexicographic a b :
  string_lt a b = true <->
  (exists c rest, b = a ++ String c rest)
  \/ (exists p x a' y b',
        a = p ++ String x a' /\ b = p ++ String y b'
        /\ (nat_of_ascii x < nat_of_ascii y)%nat).
Proof.
  revert b. induction a as [| x a IH]; intros [| y b]; simpl.
  - split; [discriminate |].
    intros [(c & r & H) | (p & x & a' & y & b' & H & _)].
    + discriminate.
    + destruct p; discriminate.
  - split; [eauto |]. reflexivity.
  - split; [discriminate |].
    intros [(c & r & H) | (p & x' & a' & y & b' & _ & H & _)].
    + discriminate.
    + destruct p; discriminate.
  - destruct (Nat.ltb_spec (nat_of_ascii x) (nat_of_ascii y)) as [Hxy | Hxy].
    + split; [intros _ | reflexivity].
      right. exists "", x, a, y, b. auto.
    + destruct (Nat.ltb_spec (nat_of_ascii y) (nat_of_ascii x)) as [Hyx | Hyx].
      * split; [discriminate |].
        intros [(c & r & H) | (p & x' & a' & y' & b' & Ha & Hb & Hlt)].
        -- injection H as -> _. lia.
        -- destruct p as [| z p]; simpl in Ha, Hb.
           ++ injection Ha as -> _. injection Hb as -> _. lia.
           ++ injection Ha as -> _. injection Hb as -> _. lia.
      * rewrite IH. split.
        -- intros [(c & r & ->) | (p & x' & a' & y' & b' & -> & -> & Hlt)].
           ++ left. exists c, r.
              assert (x = y) as ->.
              { rewrite <- (ascii_nat_embedding x), <- (ascii_nat_embedding y).
                f_equal. lia. }
              reflexivity.
           ++ right. exists (String x p), x', a', y', b'.
              assert (x = y) as ->.
              { rewrite <- (ascii_nat_embedding x), <- (ascii_nat_embedding y).
                f_equal. lia. }
              auto.
        -- intros [(c & r & H) | (p & x' & a' & y' & b' & Ha & Hb & Hlt)].
           ++ injection H as -> ->. left. eauto.
           ++ destruct p as [| z p]; simpl in Ha, Hb.
              ** injection Ha as -> _. injection Hb as -> _. lia.
              ** injection Ha as -> ->. injection Hb as _ ->.
                 right. exists p, x', a', y', b'. auto.
Qed.

(** ** Sorting with a strict total order *)

Section SortFacts.
Context {A : Type} (lt : A -> A -> bool).
Hypothesis lt_irrefl : forall a, lt a a = false.
Hypothesis lt_trans : forall a b c, lt a b = true -> lt b c = true -> lt a c = true.
Hypothesis lt_total : forall a b, lt a b = true \/ a = b \/ lt b a = true.

Lemma lt_asym a b : lt a b = true -> lt b a = false.
Proof.
  intros Hab. destruct (lt b a) eqn:Hba; [| reflexivity].
  rewrite <- (lt_irrefl a). symmetry. eauto.
Qed.

Lemma notAfter_trans a b c : notAfter lt a b -> notAfter lt b c -> notAfter lt a c.
Proof.
  unfold notAfter. intros Hab Hbc.
  destruct (lt c a) eqn:Hca; [| reflexivity].
  destruct (lt_total a b) as [H | [-> | H]]; try congruence.
  destruct (lt_total b c) as [H' | [-> | H']]; try congruence.
  pose proof (lt_trans _ _ _ (lt_trans _ _ _ H H') Hca) as Haa.
  rewrite lt_irrefl in Haa. discriminate.
Qed.

Lemma notAfter_antisym a b : notAfter lt a b -> notAfter lt b a -> a = b.
Proof.
  unfold notAfter. intros Hab Hba.
  destruct (lt_total a b) as [H | [-> | H]]; congruence.
Qed.

Lemma insertSorted_perm x l : insertSorted lt x l ≡ₚ x :: l.
Proof.
  induction l as [| y l IH]; simpl; [reflexivity |].
  destruct (lt x y); [reflexivity |].
  rewrite IH. apply Permutation_swap.
Qed.

Lemma sort_Slice_perm l : sort_Slice lt l ≡ₚ l.
Proof.
  induction l as [| x l IH]; simpl; [reflexivity |].
  now rewrite insertSorted_perm, IH.
Qed.

Lemma insertSorted_sorted x l :
  StronglySorted (notAfter lt) l -> StronglySorted (notAfter lt) (insertSorted lt x l).
Proof.
  induction 1 as [| y l Hl IH Hy]; simpl.
  - repeat constructor.
  - destruct (lt x y) eqn:Hxy.
    + constructor; [now constructor |].
      constructor; [now apply lt_asym |].
      eapply Forall_impl; [exact Hy |]. intros z Hz.
      eapply notAfter_trans; [| exact Hz]. now apply lt_asym.
    + constructor; [exact IH |].
      rewrite insertSorted_perm. constructor; assumption.
Qed.

Lemma sort_Slice_sorted l : StronglySorted (notAfter lt) (sort_Slice lt l).
Proof.
  induction l as [| x l IH]; simpl; [constructor |].
  now apply insertSorted_sorted.
Qed.

(** A sorted arrangement is unique: whatever sorts a list with [lt], and
    from whatever arrangement it starts, the outcome is the same. *)
Lemma sorted_arrangement_unique l1 l2 :
  StronglySorted (notAfter lt) l1 -> StronglySorted (notAfter lt) l2 ->
  l1 ≡ₚ l2 -> l1 = l2.
Proof.
  intros H1 H2 Hp.
  eapply (StronglySorted_unique_strong (notAfter lt)); eauto.
  intros a b _ _. apply notAfter_antisym.
Qed.

Lemma sort_Slice_permutation_invariant l1 l2 :
  l1 ≡ₚ l2 -> sort_Slice lt l1 = sort_Slice lt l2.
Proof.
  intros Hp. apply sorted_arrangement_unique; try apply sort_Slice_sorted.
  now rewrite !sort_Slice_perm.
Qed.

Lemma StronglySorted_lookup (R : A -> A -> Prop) l i j a b :
  StronglySorted R l -> (i < j)%nat ->
  l !! i = Some a -> l !! j = Some b -> R a b.
Proof.
  intros Hs. revert i j. induction Hs as [| x l Hl IH Hx]; intros i j Hij Hi Hj.
  - discriminate.
  - destruct j as [| j]; [lia |]. destruct i as [| i]; simpl in *.
    + injection Hi as ->. rewrite Forall_forall in Hx.
      apply Hx. eapply list_elem_of_lookup_2, Hj.
    + eapply IH; [| eassumption..]. lia.
Qed.

(** In a sorted list without repetition every element is strictly
    before the later ones. *)
Lemma sorted_nodup_strict l i j a b :
  StronglySorted (notAfter lt) l -> NoDup l -> (i < j)%nat ->
  l !! i = Some a -> l !! j = Some b -> lt a b = true.
Proof.
  intros Hs Hnd Hij Hi Hj.
  pose proof (StronglySorted_lookup (notAfter lt) l i j a b Hs Hij Hi Hj) as Hab.
  destruct (lt_total a b) as [H | [-> | H]]; [assumption | | ].
  - pose proof (NoDup_lookup l i j b Hnd Hi Hj). lia.
  - unfold notAfter in Hab. congruence.
Qed.

End SortFacts.

(** ** Ranking *)

Lemma less_rankedBefore a b : less a b = true <-> rankedBefore a b.
Proof.
  unfold less, rankedBefore.
  destruct (Z.eqb_spec (Count a) (Count b)) as [Heq | Hne].
  - split; [auto |]. intros [Hlt | [_ H]]; [lia | exact H].
  - rewrite Z.ltb_lt. split; [auto |]. intros [Hlt | [Heq _]]; [exact Hlt | lia].
Qed.

Lemma less_irrefl a : less a a = false.
Proof. unfold less. rewrite Z.eqb_refl. apply string_lt_irrefl. Qed.

Lemma less_trans a b c :
  less a b = true -> less b c = true -> less a c = true.
Proof.
  unfold less.
  destruct (Z.eqb_spec (Count a) (Count b)), (Z.eqb_spec (Count b) (Count c)),
           (Z.eqb_spec (Count a) (Count c)); rewrite ?Z.ltb_lt; try lia.
  apply string_lt_trans.
Qed.

Lemma less_total a b : less a b = true \/ a = b \/ less b a = true.
Proof.
  unfold less. destruct a as [la ca], b as [lb cb]; cbn [Label Count].
  destruct (Z.eqb_spec ca cb) as [-> | Hne].
  - rewrite Z.eqb_refl.
    destruct (string_lt_trichotomy la lb) as [H | [-> | H]]; auto.
  - destruct (Z.eqb_spec cb ca); [congruence |]. rewrite !Z.ltb_lt. lia.
Qed.

Lemma entriesOf_NoDup counts : NoDup (entriesOf counts).
Proof.
  unfold entriesOf.
  change (NoDup ((fun kv : string * Z => {| Label := fst kv; Count := snd kv |})
                   <$> map_to_list counts)).
  apply NoDup_fmap_2; [| apply NoDup_map_to_list].
  intros [k1 v1] [k2 v2] H. now injection H as -> ->.
Qed.

Lemma elem_of_entriesOf counts label count :
  {| Label := label; Count := count |} ∈ entriesOf counts
  <-> counts !! label = Some count.
Proof.
  unfold entriesOf.
  change ({| Label := label; Count := count |} ∈
          (fun kv : string * Z => {| Label := fst kv; Count := snd kv |})
            <$> map_to_list counts <-> counts !! label = Some count).
  rewrite list_elem_of_fmap. split.
  - intros ([k v] & Heq & Hin). injection Heq as -> ->.
    now apply elem_of_map_to_list.
  - intros H. exists (label, count). split; [reflexivity |].
    now apply elem_of_map_to_list.
Qed.

Lemma entriesOf_labels_NoDup counts : NoDup (map Label (entriesOf counts)).
Proof.
  unfold entriesOf. rewrite map_map. cbn [Label].
  change (NoDup ((map_to_list counts).*1)).
  apply NoDup_fst_map_to_list.
Qed.

Lemma rank_perm counts : rank counts ≡ₚ entriesOf counts.
Proof. apply sort_Slice_perm. Qed.

Lemma rankedOrder_sorted l :
  rankedOrder l -> StronglySorted (notAfter less) l.
Proof.
  induction l as [| x l IH]; intros Hl; constructor.
  - apply IH. intros i j a b Hij Hi Hj. apply (Hl (S i) (S j)); [lia | done..].
  - rewrite Forall_forall. intros y Hy.
    apply list_elem_of_lookup_1 in Hy as [j Hj].
    assert (Hxy : rankedBefore x y) by (apply (Hl 0%nat (S j)); [lia | done..]).
    apply less_rankedBefore in Hxy.
    unfold notAfter. apply (lt_asym less less_irrefl less_trans), Hxy.
Qed.

(** C4.  The ranked list of a frequency table holds every entry of the
    table once, ordered by count, highest first, and among equal counts by
    label in increasing byte-wise lexicographic order ([string_lt], see
    [string_lt_lexicographic]).  It is a function of the table alone:
    any arrangement of the entries in that order is the ranked list, so
    neither the order in which Go ranges over the map nor the sorting
    algorithm shows in it.  The table with 3 for b and 3 for a ranks a
    before b. *)
Theorem ranking_sorted_and_deterministic (counts : gmap string Z) :
  (forall label count,
      {| Label := label; Count := count |} ∈ rank counts
      <-> counts !! label = Some count)
  /\ NoDup (map Label (rank counts))
  /\ rankedOrder (rank counts)
  /\ (forall l, l ≡ₚ entriesOf counts -> rankedOrder l -> l = rank counts)
  /\ (forall l, l ≡ₚ entriesOf counts -> sort_Slice less l = rank counts)
  /\ rank (<["b" := 3]> (<["a" := 3]> ∅))
     = [ {| Label := "a"; Count := 3 |}; {| Label := "b"; Count := 3 |} ].
Proof.
  split_and!.
  - intros label count. rewrite rank_perm. apply elem_of_entriesOf.
  - rewrite rank_perm. apply entriesOf_labels_NoDup.
  - intros i j a b Hij Hi Hj. apply less_rankedBefore.
    eapply (sorted_nodup_strict less less_total); [| | exact Hij | exact Hi | exact Hj].
    + apply (sort_Slice_sorted less less_irrefl less_trans less_total).
    + unfold rank. fold (entriesOf counts).
      rewrite (sort_Slice_perm less). apply entriesOf_NoDup.
  - intros l Hl Hs.
    apply (sorted_arrangement_unique less less_total).
    + now apply rankedOrder_sorted.
    + apply (sort_Slice_sorted less less_irrefl less_trans less_total).
    + now rewrite rank_perm.
  - intros l Hl.
    apply (sort_Slice_permutation_invariant less less_irrefl less_trans less_total), Hl.
  - vm_compute. reflexivity.
Qed.

(** ** Frequency tables *)

Local Open Scope list_scope.

Lemma occurrences_nil label : occurrences label [] = 0.
Proof. reflexivity. Qed.

Lemma occurrences_cons label v values :
  occurrences label (v :: values)
  = (if decide (v = label) then 1 else 0) + occurrences label values.
Proof.
  unfold occurrences. rewrite filter_cons.
  destruct (decide (v = label)); simpl length; lia.
Qed.

Lemma occurrences_app label xs ys :
  occurrences label (xs ++ ys) = occurrences label xs + occurrences label ys.
Proof.
  unfold occurrences. rewrite filter_app, length_app. lia.
Qed.

Lemma occurrences_nonneg label values : 0 <= occurrences label values.
Proof. unfold occurrences. lia. Qed.

Lemma occurrences_le_length label values :
  occurrences label values <= Z.of_nat (length values).
Proof.
  unfold occurrences. pose proof (length_filter (fun v => v = label) values). lia.
Qed.

Lemma occurrences_pos label values :
  label ∈ values <-> 0 < occurrences label values.
Proof.
  induction values as [| v values IH].
  - rewrite occurrences_nil. split; [intros H; inversion H | lia].
  - rewrite occurrences_cons, elem_of_cons.
    pose proof (occurrences_nonneg label values).
    destruct (decide (v = label)) as [-> | Hne].
    + split; [lia | auto].
    + rewrite IH. split; [intros [-> | H']; [congruence | lia] | intros; right; lia].
Qed.

Lemma occurrences_perm label xs ys :
  xs ≡ₚ ys -> occurrences label xs = occurrences label ys.
Proof. intros Hp. unfold occurrences. now rewrite Hp. Qed.

Lemma exactTally_lookup values label :
  exactTally values !! label
  = if decide (label ∈ values) then Some (occurrences label values) else None.
Proof.
  induction values as [| v values IH]; simpl.
  - rewrite lookup_empty. destruct (decide (label ∈ [])) as [H | _]; [inversion H | done].
  - fold (exactTally values). rewrite occurrences_cons.
    destruct (decide (v = label)) as [-> | Hne].
    + rewrite lookup_insert_eq.
      destruct (decide (label ∈ label :: values)) as [_ | Hn];
        [| exfalso; apply Hn; left].
      rewrite IH. destruct (decide (label ∈ values)) as [Hin | Hnin]; simpl.
      * f_equal. lia.
      * f_equal. rewrite occurrences_pos in Hnin.
        pose proof (occurrences_nonneg label values). lia.
    + rewrite lookup_insert_ne by done. rewrite IH.
      destruct (decide (label ∈ values)) as [Hin | Hnin],
               (decide (label ∈ v :: values)) as [Hin' | Hnin']; try done.
      * exfalso. apply Hnin'. now right.
      * exfalso. apply elem_of_cons in Hin' as [-> | H]; congruence.
Qed.

Lemma tally_lookup values label :
  tally values !! label
  = if decide (label ∈ values)
    then Some (Int64.wrap (occurrences label values)) else None.
Proof.
  unfold tally. rewrite lookup_fmap, exactTally_lookup.
  now destruct (decide (label ∈ values)).
Qed.

Lemma exactTally_perm xs ys : xs ≡ₚ ys -> exactTally xs = exactTally ys.
Proof.
  intros Hp. apply map_eq. intros label. rewrite !exactTally_lookup.
  rewrite (occurrences_perm label xs ys Hp).
  destruct (decide (label ∈ xs)) as [H | H], (decide (label ∈ ys)) as [H' | H'];
    try done; exfalso; [apply H' | apply H]; [now rewrite <- Hp | now rewrite Hp].
Qed.

Lemma tally_perm xs ys : xs ≡ₚ ys -> tally xs = tally ys.
Proof. intros Hp. unfold tally. now rewrite (exactTally_perm xs ys Hp). Qed.


(** ** One file *)

Lemma processLine_countedLabel labelKey fastParse st line :
  processLine labelKey fastParse st line
  = match countedLabel labelKey fastParse line with
    | Some label => countLabel st label
    | None => st
    end.
Proof.
  unfold processLine, countedLabel, extracted.
  destruct (String.eqb line ""); [reflexivity |].
  destruct fastParse.
  - now destruct (String.eqb (fastExtractLabel line) "").
  - destruct (json_Unmarshal line) as [data |]; [| reflexivity].
    now destruct (String.eqb (labelOfData data labelKey) "").
Qed.

Lemma countLabel_tally seen label :
  countLabel (tally seen, Int64.wrap (Z.of_nat (length seen))) label
  = (tally (seen ++ [label]),
     Int64.wrap (Z.of_nat (length (seen ++ [label])))).
Proof.
  unfold countLabel. cbn [fst snd]. f_equal.
  - apply map_eq. intros k.
    rewrite (tally_lookup (seen ++ [label])), occurrences_app, occurrences_cons,
      occurrences_nil.
    destruct (decide (label = k)) as [-> | Hne].
    + rewrite lookup_insert_eq.
      destruct (decide (k ∈ seen ++ [k])) as [_ | Hn];
        [| exfalso; apply Hn, elem_of_app; right; apply list_elem_of_singleton; done].
      f_equal. rewrite tally_lookup.
      destruct (decide (k ∈ seen)) as [Hin | Hnin]; cbn [default from_option id].
      * unfold Int64.add. rewrite wrap_add_l. f_equal; lia.
      * rewrite occurrences_pos in Hnin.
        pose proof (occurrences_nonneg k seen).
        unfold Int64.add. f_equal; lia.
    + rewrite lookup_insert_ne by done. rewrite tally_lookup.
      destruct (decide (k ∈ seen)) as [Hin | Hnin],
               (decide (k ∈ seen ++ [label])) as [Hin' | Hnin']; try done.
      * do 2 f_equal; lia.
      * exfalso. apply Hnin'. apply elem_of_app. now left.
      * exfalso. apply elem_of_app in Hin' as [Hk | Hk]; [done |].
        apply list_elem_of_singleton in Hk. congruence.
  - rewrite length_app. cbn [length]. unfold Int64.add.
    rewrite wrap_add_l. f_equal; lia.
Qed.

Lemma fold_countLabel_tally labels seen :
  fold_left countLabel labels (tally seen, Int64.wrap (Z.of_nat (length seen)))
  = (tally (seen ++ labels),
     Int64.wrap (Z.of_nat (length (seen ++ labels)))).
Proof.
  revert seen. induction labels as [| l labels IH]; intros seen; simpl.
  - now rewrite app_nil_r.
  - rewrite countLabel_tally, IH, <- app_assoc. reflexivity.
Qed.

Lemma fold_processLine labelKey fastParse lines st :
  fold_left (processLine labelKey fastParse) lines st
  = fold_left countLabel (countedLabels labelKey fastParse lines) st.
Proof.
  revert st. induction lines as [| line lines IH]; intros st; simpl.
  - reflexivity.
  - rewrite processLine_countedLabel. unfold countedLabels. simpl.
    destruct (countedLabel labelKey fastParse line); simpl; apply IH.
Qed.

(** The scanning loop leaves the frequency table of the counted values
    and their number. *)
Lemma scanLines_tally labelKey fastParse lines :
  scanLines labelKey fastParse lines
  = (tally (countedLabels labelKey fastParse lines),
     Int64.wrap (Z.of_nat (length (countedLabels labelKey fastParse lines)))).
Proof.
  unfold scanLines. rewrite fold_processLine.
  apply (fold_countLabel_tally _ []).
Qed.

Lemma runJob_tally w config path :
  runJob w (UseFastParse config)
         {| FilePath := path; JobLabelKey := LabelKey config |}
  = {| Counts := tally (scannedLabels w config path);
       Lines := Int64.wrap (Z.of_nat (length (scannedLabels w config path)));
       Error := fileError w path |}.
Proof.
  unfold runJob, processFile, scannedLabels, fileError. cbn [FilePath JobLabelKey].
  destruct (fileAt w path) as [cause | lines [cause |]].
  - reflexivity.
  - now rewrite scanLines_tally.
  - now rewrite scanLines_tally.
Qed.

(** ** Merging *)

(** What the loop [totalCounts[label] += count] leaves, key by key. *)
Lemma mergeCounts_lookup total counts label :
  mergeCounts total counts !! label
  = match counts !! label with
    | Some count => Some (Int64.add (default 0 (total !! label)) count)
    | None => total !! label
    end.
Proof.
  unfold mergeCounts. revert label.
  apply (map_fold_weak_ind
           (fun (r : gmap string Z) (m : gmap string Z) =>
              forall label,
                r !! label
                = match m !! label with
                  | Some count => Some (Int64.add (default 0 (total !! label)) count)
                  | None => total !! label
                  end)).
  - intros label. now rewrite lookup_empty.
  - intros k count m r Hk IH label.
    destruct (decide (k = label)) as [-> | Hne].
    + rewrite !lookup_insert_eq. rewrite IH, Hk. reflexivity.
    + rewrite !lookup_insert_ne by done. apply IH.
Qed.

Lemma mergeCounts_tally xs ys :
  mergeCounts (tally xs) (tally ys) = tally (xs ++ ys).
Proof.
  apply map_eq. intros label.
  rewrite mergeCounts_lookup, !tally_lookup, occurrences_app.
  destruct (decide (label ∈ xs)) as [Hx | Hx],
           (decide (label ∈ ys)) as [Hy | Hy],
           (decide (label ∈ xs ++ ys)) as [Hxy | Hxy];
    rewrite elem_of_app in Hxy; try tauto; cbn [default from_option id].
  - unfold Int64.add. now rewrite wrap_add_l, wrap_add_r.
  - rewrite occurrences_pos in Hy. pose proof (occurrences_nonneg label ys).
    do 2 f_equal; lia.
  - rewrite occurrences_pos in Hx. pose proof (occurrences_nonneg label xs).
    unfold Int64.add. rewrite wrap_add_r. do 2 f_equal; lia.
Qed.

(** Merging is associative, and two merges into a table commute. *)
Lemma mergeCounts_assoc total a b :
  mergeCounts (mergeCounts total a) b = mergeCounts total (mergeCounts a b).
Proof.
  apply map_eq. intros label. rewrite !mergeCounts_lookup.
  destruct (a !! label) as [x |], (b !! label) as [y |];
    cbn [default from_option id]; try reflexivity.
  - f_equal. symmetry. apply int64_add_assoc.
  - f_equal. unfold Int64.add. now rewrite wrap_add_r, Z.add_0_l.
Qed.

Lemma mergeCounts_comm total a b :
  mergeCounts (mergeCounts total a) b = mergeCounts (mergeCounts total b) a.
Proof.
  apply map_eq. intros label. rewrite !mergeCounts_lookup.
  destruct (a !! label) as [x |], (b !! label) as [y |];
    cbn [default from_option id]; try reflexivity.
  f_equal. rewrite <- !int64_add_assoc. f_equal. apply int64_add_comm.
Qed.

(** ** The aggregation loop *)

Lemma sameTotals_refl a : sameTotals a a.
Proof. now repeat split. Qed.

Lemma sameTotals_trans a b c : sameTotals a b -> sameTotals b c -> sameTotals a c.
Proof.
  intros (H1 & H2 & H3) (H1' & H2' & H3'). repeat split; try congruence.
  now rewrite H3.
Qed.

Lemma collect_sameTotals a b r :
  sameTotals a b -> sameTotals (collect a r) (collect b r).
Proof.
  intros (H1 & H2 & H3). unfold collect.
  destruct (Error r) as [msg |]; repeat split; cbn; try congruence.
  now rewrite H3.
Qed.

Lemma collect_swap acc r1 r2 :
  sameTotals (collect (collect acc r1) r2) (collect (collect acc r2) r1).
Proof.
  unfold collect.
  destruct (Error r1) as [m1 |], (Error r2) as [m2 |]; repeat split; cbn;
    try reflexivity.
  - rewrite <- !app_assoc. apply Permutation_app_head, Permutation_swap.
  - apply mergeCounts_comm.
  - rewrite <- !int64_add_assoc. f_equal. apply int64_add_comm.
Qed.

Lemma fold_collect_sameTotals rs a b :
  sameTotals a b -> sameTotals (fold_left collect rs a) (fold_left collect rs b).
Proof.
  revert a b. induction rs as [| r rs IH]; intros a b Hab; simpl; [exact Hab |].
  apply IH, collect_sameTotals, Hab.
Qed.

Lemma fold_collect_perm rs1 rs2 :
  rs1 ≡ₚ rs2 ->
  forall acc, sameTotals (fold_left collect rs1 acc) (fold_left collect rs2 acc).
Proof.
  induction 1 as [| r rs1 rs2 _ IH | r1 r2 rs | rs1 rs2 rs3 _ IH1 _ IH2];
    intros acc; simpl.
  - apply sameTotals_refl.
  - apply IH.
  - apply fold_collect_sameTotals, collect_swap.
  - eapply sameTotals_trans; [apply IH1 | apply IH2].
Qed.

(** C3.  Aggregation does not depend on the order in which the results
    arrive: merging is associative, two merges into a table commute, and
    two arrival orders of the same results give the same frequency table,
    the same line total and the same ranked list (the error list holds the
    same messages, in arrival order). *)
Theorem aggregation_order_independent (rs1 rs2 : list WorkerResult) :
  rs1 ≡ₚ rs2 ->
  totalCounts (collectAll rs1) = totalCounts (collectAll rs2)
  /\ totalLines (collectAll rs1) = totalLines (collectAll rs2)
  /\ rank (totalCounts (collectAll rs1)) = rank (totalCounts (collectAll rs2))
  /\ errors (collectAll rs1) ≡ₚ errors (collectAll rs2)
  /\ (forall total a b,
        mergeCounts (mergeCounts total a) b = mergeCounts (mergeCounts total b) a)
  /\ (forall total a b,
        mergeCounts (mergeCounts total a) b = mergeCounts total (mergeCounts a b))
  /\ (forall acc r1 r2,
        sameTotals (collect (collect acc r1) r2) (collect (collect acc r2) r1)).
Proof.
  intros Hp. unfold collectAll.
  destruct (fold_collect_perm rs1 rs2 Hp
              {| totalCounts := ∅; totalLines := 0; errors := [] |})
    as (Hc & Hl & He).
  split_and!; try assumption.
  - now rewrite Hc.
  - apply mergeCounts_comm.
  - apply mergeCounts_assoc.
  - apply collect_swap.
Qed.

(** The three results of the example corpus, arriving in two orders. *)
Lemma aggregation_order_independent_witness :
  rev demoResults ≡ₚ demoResults
  /\ totalCounts (collectAll (rev demoResults))
     = totalCounts (collectAll demoResults)
  /\ totalLines (collectAll (rev demoResults))
     = totalLines (collectAll demoResults)
  /\ rank (totalCounts (collectAll (rev demoResults)))
     = rank (totalCounts (collectAll demoResults)).
Proof.
  assert (Hp : rev demoResults ≡ₚ demoResults)
    by (symmetry; apply Permutation_rev).
  destruct (aggregation_order_independent _ _ Hp) as (H1 & H2 & H3 & _).
  auto.
Defined.

(** ** Schedules *)

Lemma omap_lookup_seq {A : Type} (pre l : list A) :
  omap (fun i => (pre ++ l) !! i) (seq (length pre) (length l)) = l.
Proof.
  revert pre. induction l as [| x l IH]; intros pre; [reflexivity |].
  cbn [length seq omap list_omap].
  change (list_omap ?f ?l) with (omap f l).
  rewrite list_lookup_middle by reflexivity. f_equal.
  replace (pre ++ x :: l) with ((pre ++ [x]) ++ l) by now rewrite <- app_assoc.
  replace (S (length pre)) with (length (pre ++ [x]))
    by (rewrite length_app; simpl; lia).
  apply IH.
Qed.

(** Under a schedule the results that arrive are the results of the
    jobs, each once. *)
Lemma scheduled_perm {A : Type} (l : list A) (schedule : list nat) :
  schedule_of (length l) schedule ->
  omap (fun i => l !! i) schedule ≡ₚ l.
Proof.
  unfold schedule_of. intros ->.
  pose proof (omap_lookup_seq [] l) as H. cbn [app length] in H.
  now rewrite H.
Qed.

Lemma omap_lookup_map {A B : Type} (f : A -> B) (l : list A) (schedule : list nat) :
  omap (fun i => map f l !! i) schedule
  = map f (omap (fun i => l !! i) schedule).
Proof.
  induction schedule as [| i schedule IH]; [reflexivity |].
  cbn [omap list_omap]. change (list_omap ?f ?l) with (omap f l).
  change (map f l) with (f <$> l) at 1. rewrite list_lookup_fmap.
  destruct (l !! i); cbn; now rewrite IH.
Qed.

(** ** A whole run *)

Lemma fold_collect_tally w config paths seen errs :
  fold_left collect
    (map (fun file => runJob w (UseFastParse config) (jobFor config file)) paths)
    {| totalCounts := tally seen;
       totalLines := Int64.wrap (Z.of_nat (length seen));
       errors := errs |}
  = {| totalCounts := tally (seen ++ flat_map (cleanLabels w config) paths);
       totalLines :=
         Int64.wrap (Z.of_nat (length (seen ++ flat_map (cleanLabels w config) paths)));
       errors := errs ++ omap (fileError w) paths |}.
Proof.
  revert seen errs. induction paths as [| path paths IH]; intros seen errs.
  - cbn. now rewrite !app_nil_r.
  - cbn [map fold_left flat_map omap list_omap].
    change (list_omap ?f ?l) with (omap f l).
    unfold jobFor at 2. rewrite runJob_tally.
    unfold collect at 2. cbn [Error Counts Lines totalCounts totalLines errors].
    unfold cleanLabels at 1 3.
    destruct (fileError w path) as [msg |].
    + rewrite IH. cbn [app]. now rewrite <- app_assoc.
    + rewrite mergeCounts_tally.
      replace (Int64.add (Int64.wrap (Z.of_nat (length seen)))
                 (Int64.wrap (Z.of_nat (length (scannedLabels w config path)))))
        with (Int64.wrap (Z.of_nat (length (seen ++ scannedLabels w config path)))).
      * rewrite IH. now rewrite <- !app_assoc.
      * unfold Int64.add. rewrite wrap_add_l, wrap_add_r, length_app.
        f_equal. lia.
Qed.

Lemma collectAll_arrivals w config directory schedule :
  schedule_of (length (discovered w directory)) schedule ->
  let results :=
    map (runJob w (UseFastParse config))
        (map (fun file => {| FilePath := file; JobLabelKey := LabelKey config |})
             (discovered w directory)) in
  let totals := collectAll (arrivals config schedule results) in
  totalCounts totals = tally (runLabels w config directory)
  /\ totalLines totals
     = Int64.wrap (Z.of_nat (length (runLabels w config directory)))
  /\ errors totals ≡ₚ runErrors w config directory.
Proof.
  intros Hs results totals. subst totals results.
  unfold arrivals, runLabels, runErrors.
  destruct (0 <? Workers config); [| now cbn].
  rewrite map_map.
  change (fun x : string =>
            runJob w (UseFastParse config)
                   {| FilePath := x; JobLabelKey := LabelKey config |})
    with (fun file => runJob w (UseFastParse config) (jobFor config file)).
  rewrite omap_lookup_map.
  pose proof (scheduled_perm (discovered w directory) schedule Hs) as Hp.
  unfold collectAll.
  pose proof (fold_collect_tally w config
                (omap (fun i => discovered w directory !! i) schedule) [] [])
    as Hfold.
  cbn [app length Z.of_nat] in Hfold.
  change (tally []) with (∅ : gmap string Z) in Hfold.
  change (Int64.wrap (Z.of_nat 0)) with 0 in Hfold. rewrite Hfold. cbn [totalCounts totalLines errors].
  split_and!.
  - apply tally_perm. now rewrite Hp.
  - do 2 f_equal. apply Permutation_length. now rewrite Hp.
  - now rewrite Hp.
Qed.

(** What a run returns, under any schedule: the frequency table of the
    values of the files read without an error, their number, one message
    for each file with an error, and the ranking of the table. *)
Lemma countLabels_returns w schedule config directory r :
  returned (countLabels w schedule config directory) = inr r ->
  schedule_of (length (discovered w directory)) schedule ->
  traversable (tree w) = true
  /\ discovered w directory <> []
  /\ Directory r = directory
  /\ FilesProcessed r = Z.of_nat (length (discovered w directory))
  /\ LabelCounts r = tally (runLabels w config directory)
  /\ TotalLines r = Int64.wrap (Z.of_nat (length (runLabels w config directory)))
  /\ UniqueLabels r = Z.of_nat (size (LabelCounts r))
  /\ SortedLabels r = rank (LabelCounts r)
  /\ Errors r ≡ₚ runErrors w config directory.
Proof.
  unfold countLabels, discovered.
  destruct (collectJSONLFiles_cases (tree w) directory)
    as [[Ht ->] | [Ht (found & err & ->)]]; [| discriminate].
  destruct (jsonlPaths directory (tree w)) as [| p ps] eqn:Hp; [discriminate |].
  cbn [length Nat.eqb returned]. intros Hr Hs. injection Hr as <-.
  cbn [Directory FilesProcessed LabelCounts TotalLines UniqueLabels SortedLabels Errors].
  pose proof (collectAll_arrivals w config directory schedule) as Hagg.
  unfold discovered in Hagg. rewrite Hp in Hagg.
  destruct (Hagg Hs) as (Hc & Hl & He).
  split_and!; try done.
Qed.

(** Two runs over the same files differ at most in the order of their
    error lists, whatever the order in which the results arrived. *)
Lemma countLabels_schedule_independent w schedule1 schedule2 config directory r1 r2 :
  returned (countLabels w schedule1 config directory) = inr r1 ->
  returned (countLabels w schedule2 config directory) = inr r2 ->
  schedule_of (length (discovered w directory)) schedule1 ->
  schedule_of (length (discovered w directory)) schedule2 ->
  LabelCounts r1 = LabelCounts r2
  /\ TotalLines r1 = TotalLines r2
  /\ SortedLabels r1 = SortedLabels r2
  /\ UniqueLabels r1 = UniqueLabels r2
  /\ FilesProcessed r1 = FilesProcessed r2
  /\ Errors r1 ≡ₚ Errors r2.
Proof.
  intros Hr1 Hr2 Hs1 Hs2.
  destruct (countLabels_returns w schedule1 config directory r1 Hr1 Hs1)
    as (_ & _ & _ & Hf1 & Hc1 & Hl1 & Hu1 & Hr1' & He1).
  destruct (countLabels_returns w schedule2 config directory r2 Hr2 Hs2)
    as (_ & _ & _ & Hf2 & Hc2 & Hl2 & Hu2 & Hr2' & He2).
  split_and!; try congruence.
  now rewrite He1, He2.
Qed.

(** In the example corpus the two arrival orders 0, 1, 2 and 2, 0, 1
    give the same table, total and ranking. *)
Lemma countLabels_schedule_independent_witness :
  exists r1 r2,
    returned (countLabels demoWorld [0; 1; 2]%nat demoConfig "data") = inr r1
    /\ returned (countLabels demoWorld [2; 0; 1]%nat demoConfig "data") = inr r2
    /\ Errors r1 <> Errors r2
    /\ LabelCounts r1 = LabelCounts r2
    /\ TotalLines r1 = TotalLines r2
    /\ SortedLabels r1 = SortedLabels r2.
Proof.
  eexists _, _. split; [reflexivity |]. split; [reflexivity |].
  split; [vm_compute; discriminate |].
  assert (Hs1 : schedule_of (length (discovered demoWorld "data")) [0; 1; 2]%nat).
  { unfold schedule_of. vm_compute. reflexivity. }
  assert (Hs2 : schedule_of (length (discovered demoWorld "data")) [2; 0; 1]%nat).
  { unfold schedule_of. vm_compute.
    apply (perm_trans (l' := [0; 2; 1]%nat)); [apply perm_swap |].
    apply perm_skip, perm_swap. }
  destruct (countLabels_schedule_independent
              demoWorld [0; 1; 2]%nat [2; 0; 1]%nat demoConfig "data" _ _
              eq_refl eq_refl Hs1 Hs2)
    as (Hc & Hl & Hr & _).
  auto.
Defined.

(** C10.  The result's [FilesProcessed] is the number of files the walk
    found, which is also the number of jobs sent to the workers, whatever
    opening and scanning those files gave and in whatever order the
    results arrived: a file that failed is counted like the others. *)
Theorem files_processed_counts_discovered_files
  (w : World) (schedule : list nat) (config : Config) (directory : string)
  (r : Result) :
  returned (countLabels w schedule config directory) = inr r ->
  FilesProcessed r = Z.of_nat (length (discovered w directory))
  /\ FilesProcessed r
     = Z.of_nat (length (jobsSent (countLabels w schedule config directory)))
  /\ fst (collectJSONLFiles (tree w) directory) = discovered w directory.
Proof.
  unfold countLabels, discovered.
  destruct (collectJSONLFiles_cases (tree w) directory)
    as [[Ht ->] | [Ht (found & err & ->)]]; [| discriminate].
  destruct (jsonlPaths directory (tree w)) as [| p ps] eqn:Hp; [discriminate |].
  cbn [length Nat.eqb returned jobsSent fst]. intros Hr. injection Hr as <-.
  cbn [FilesProcessed]. rewrite length_map. auto.
Qed.

(** In the example corpus three files are found and two of them fail:
    [FilesProcessed] is 3 and there are two errors. *)
Lemma files_processed_counts_discovered_files_witness :
  exists r,
    returned (countLabels demoWorld [0; 1; 2]%nat demoConfig "data") = inr r
    /\ length (Errors r) = 2%nat
    /\ FilesProcessed r = 3
    /\ FilesProcessed r = Z.of_nat (length (discovered demoWorld "data")).
Proof.
  eexists. split; [reflexivity |]. split; [reflexivity |]. split; [reflexivity |].
  apply (files_processed_counts_discovered_files
           demoWorld [0; 1; 2]%nat demoConfig "data").
  reflexivity.
Defined.

(** ** Sums of counts *)

Lemma sumCounts_empty : sumCounts ∅ = 0.
Proof. apply map_fold_empty. Qed.

Lemma sumCounts_insert_fresh (m : gmap string Z) k x :
  m !! k = None -> sumCounts (<[k := x]> m) = x + sumCounts m.
Proof.
  intros Hk. unfold sumCounts. apply map_fold_insert_L; [| exact Hk].
  intros. lia.
Qed.

Lemma sumCounts_insert (m : gmap string Z) k x :
  sumCounts (<[k := x]> m) = x + sumCounts m - default 0 (m !! k).
Proof.
  destruct (m !! k) as [y |] eqn:Hk; cbn [default from_option id].
  - rewrite <- (insert_delete_eq m k x).
    rewrite <- (insert_delete_id m k y Hk) at 2.
    rewrite !sumCounts_insert_fresh by apply lookup_delete_eq. lia.
  - rewrite sumCounts_insert_fresh by exact Hk. lia.
Qed.

Lemma sumCounts_exactTally values :
  sumCounts (exactTally values) = Z.of_nat (length values).
Proof.
  induction values as [| v values IH]; cbn [exactTally foldr length].
  - apply sumCounts_empty.
  - fold (exactTally values). rewrite sumCounts_insert, IH. lia.
Qed.

Lemma sumCounts_wrap (m : gmap string Z) :
  Int64.wrap (sumCounts (Int64.wrap <$> m)) = Int64.wrap (sumCounts m).
Proof.
  induction m as [| k x m Hk IH] using map_ind.
  - now rewrite fmap_empty.
  - rewrite fmap_insert.
    rewrite !sumCounts_insert_fresh by (rewrite ?lookup_fmap, Hk; reflexivity).
    rewrite wrap_add_l, <- wrap_add_r, IH, wrap_add_r. reflexivity.
Qed.

(** While fewer than 2^63 values are counted no count wraps around. *)
Lemma tally_exact values :
  Z.of_nat (length values) < 2 ^ 63 -> tally values = exactTally values.
Proof.
  intros Hlen. apply map_eq. intros label.
  rewrite tally_lookup, exactTally_lookup.
  destruct (decide (label ∈ values)); [| reflexivity].
  f_equal. apply wrap_small. unfold Int64.in_range, Int64.half.
  pose proof (occurrences_nonneg label values).
  pose proof (occurrences_le_length label values). lia.
Qed.

(** C9.  In every result the counts of the frequency table add up to
    [TotalLines]: a file's counts and its line total are merged together
    or dropped together, and a line adds one to both.  The sum is equal
    to [TotalLines] as an [int64], and as an integer as long as fewer
    than 2^63 values are counted. *)
Theorem counts_sum_to_total_lines
  (w : World) (schedule : list nat) (config : Config) (directory : string)
  (r : Result) :
  returned (countLabels w schedule config directory) = inr r ->
  schedule_of (length (discovered w directory)) schedule ->
  Int64.wrap (sumCounts (LabelCounts r)) = TotalLines r
  /\ (Z.of_nat (length (runLabels w config directory)) < 2 ^ 63 ->
      sumCounts (LabelCounts r) = TotalLines r).
Proof.
  intros Hr Hs.
  destruct (countLabels_returns w schedule config directory r Hr Hs)
    as (_ & _ & _ & _ & Hc & Hl & _).
  rewrite Hc, Hl. split.
  - unfold tally. now rewrite sumCounts_wrap, sumCounts_exactTally.
  - intros Hlen. rewrite (tally_exact _ Hlen), sumCounts_exactTally.
    symmetry. apply wrap_small. unfold Int64.in_range, Int64.half. lia.
Qed.

(** In the example corpus, with two failing files: 2 + 1 = 3. *)
Lemma counts_sum_to_total_lines_witness :
  exists r,
    returned (countLabels demoWorld [2; 0; 1]%nat demoConfig "data") = inr r
    /\ length (Errors r) = 2%nat
    /\ TotalLines r = 3
    /\ Int64.wrap (sumCounts (LabelCounts r)) = TotalLines r
    /\ sumCounts (LabelCounts r) = TotalLines r.
Proof.
  eexists. split; [reflexivity |]. split; [reflexivity |]. split; [reflexivity |].
  assert (Hs : schedule_of (length (discovered demoWorld "data")) [2; 0; 1]%nat).
  { unfold schedule_of. vm_compute.
    apply (perm_trans (l' := [0; 2; 1]%nat)); [apply perm_swap |].
    apply perm_skip, perm_swap. }
  destruct (counts_sum_to_total_lines
              demoWorld [2; 0; 1]%nat demoConfig "data" _ eq_refl Hs)
    as [Hwrap Hexact].
  split; [exact Hwrap |]. apply Hexact. vm_compute. reflexivity.
Defined.

(** ** Which lines are counted *)


Lemma countedLabel_Some labelKey fastParse line label :
  countedLabel labelKey fastParse line = Some label
  <-> line <> "" /\ extracted labelKey fastParse line = Some label /\ label <> "".
Proof.
  unfold countedLabel.
  destruct (String.eqb_spec line "") as [-> | Hline].
  - split; [discriminate | tauto].
  - destruct (extracted labelKey fastParse line) as [l |].
    + destruct (String.eqb_spec l "") as [-> | Hl].
      * split; [discriminate |]. intros (_ & Heq & Hne). congruence.
      * split.
        -- intros Heq. injection Heq as <-. auto.
        -- intros (_ & Heq & _). congruence.
    + split; [discriminate |]. intros (_ & Heq & _). discriminate.
Qed.


Lemma tally_dom values label :
  is_Some (tally values !! label) <-> label ∈ values.
Proof.
  rewrite tally_lookup.
  destruct (decide (label ∈ values)) as [Hin | Hnin]; split.
  - auto.
  - eauto.
  - intros [? ?]. discriminate.
  - intros Hin. contradiction.
Qed.



(** ** Files that fail *)

Lemma readErrorMessage_mentions path cause :
  mentions (readErrorMessage path cause) path.
Proof.
  unfold mentions, readErrorMessage.
  exists "读取文件失败["%string, ("]: " ++ cause)%string. reflexivity.
Qed.

Lemma openErrorMessage_mentions path cause :
  mentions (openErrorMessage path cause) path.
Proof.
  unfold mentions, openErrorMessage.
  exists "打开文件失败: open "%string, (": " ++ cause)%string. reflexivity.
Qed.

Lemma elem_of_flat_map {A B : Type} (f : A -> list B) (l : list A) (y : B) :
  y ∈ flat_map f l <-> exists x, x ∈ l /\ y ∈ f x.
Proof.
  rewrite list_elem_of_In, in_flat_map. split.
  - intros (x & Hx & Hy). exists x. now rewrite !list_elem_of_In.
  - intros (x & Hx & Hy). exists x. now rewrite <- !list_elem_of_In.
Qed.

(** C1, as the program has it.  A file whose scan fails after some
    lines is reported by one error entry, which names the file; its
    counts and its line total are not merged: the frequency table and
    [TotalLines] are those of the files read to the end without an error,
    and every value of the table comes from such a file. *)
Theorem failed_file_is_reported_and_its_counts_dropped
  (w : World) (schedule : list nat) (config : Config) (directory : string)
  (r : Result) (path : string) (lines : list string) (cause : string) :
  returned (countLabels w schedule config directory) = inr r ->
  schedule_of (length (discovered w directory)) schedule ->
  0 < Workers config ->
  path ∈ discovered w directory ->
  fileAt w path = Scanned lines (Some cause) ->
  readErrorMessage path cause ∈ Errors r
  /\ mentions (readErrorMessage path cause) path
  /\ Errors r ≡ₚ omap (fileError w) (discovered w directory)
  /\ LabelCounts r
     = tally (flat_map (cleanLabels w config) (discovered w directory))
  /\ TotalLines r
     = Int64.wrap
         (Z.of_nat (length (flat_map (cleanLabels w config)
                                     (discovered w directory))))
  /\ cleanLabels w config path = []
  /\ (forall label,
        is_Some (LabelCounts r !! label) ->
        exists p, p ∈ discovered w directory
                  /\ fileError w p = None
                  /\ label ∈ scannedLabels w config p).
Proof.
  intros Hr Hs Hw Hpath Hfile.
  destruct (countLabels_returns w schedule config directory r Hr Hs)
    as (_ & _ & _ & _ & Hc & Hl & _ & _ & He).
  unfold runLabels in Hc, Hl. unfold runErrors in He.
  apply Z.ltb_lt in Hw. rewrite Hw in Hc, Hl, He.
  assert (Herr : fileError w path = Some (readErrorMessage path cause)).
  { unfold fileError. now rewrite Hfile. }
  split_and!; try assumption.
  - rewrite He. apply list_elem_of_omap. eauto.
  - apply readErrorMessage_mentions.
  - unfold cleanLabels. now rewrite Herr.
  - intros label Hsome. rewrite Hc in Hsome. apply tally_dom in Hsome.
    apply elem_of_flat_map in Hsome as (p & Hp & Hlabel).
    exists p. unfold cleanLabels in Hlabel.
    destruct (fileError w p) eqn:Hfe; [inversion Hlabel | auto].
Qed.

(** In the example corpus [b.JSON] fails after the values cat and emu:
    emu is not in the table and cat counts 2, from [a.jsonl] alone. *)
Lemma failed_file_is_reported_and_its_counts_dropped_witness :
  exists r,
    returned (countLabels demoWorld [0; 1; 2]%nat demoConfig "data") = inr r
    /\ readErrorMessage "data/b.JSON" "bufio.Scanner: token too long" ∈ Errors r
    /\ LabelCounts r
       = tally (flat_map (cleanLabels demoWorld demoConfig)
                         (discovered demoWorld "data"))
    /\ LabelCounts r !! "emu"%string = None
    /\ LabelCounts r !! "cat"%string = Some 2.
Proof.
  eexists. split; [reflexivity |].
  assert (Hs : schedule_of (length (discovered demoWorld "data")) [0; 1; 2]%nat).
  { unfold schedule_of. vm_compute. reflexivity. }
  assert (Hin : "data/b.JSON"%string ∈ discovered demoWorld "data").
  { vm_compute. right. left. }
  destruct (failed_file_is_reported_and_its_counts_dropped
              demoWorld [0; 1; 2]%nat demoConfig "data" _
              "data/b.JSON" _ "bufio.Scanner: token too long"
              eq_refl Hs eq_refl Hin eq_refl)
    as (Hmsg & _ & _ & Hc & _).
  split; [exact Hmsg |]. split; [exact Hc |]. split; reflexivity.
Defined.

(** C1 as the specification words it does not hold: in the example
    corpus [b.JSON] becomes unreadable after two lines that yield the
    values cat and emu, and the result has no entry for emu, counts cat
    twice (the two lines of [a.jsonl]) and has 3 lines in total, the
    values of [a.jsonl]; the two values of [b.JSON] are lost with the
    rest of the file. *)
Lemma partial_counts_are_not_merged :
  demoFiles "data/b.JSON"
  = Scanned [ bq "{`label`:`cat`}"; bq "{`label`:`emu`}" ]
            (Some "bufio.Scanner: token too long"%string)
  /\ processFile (demoFiles "data/b.JSON") "data/b.JSON" "label" true
     = (<["cat"%string := 1]> (<["emu"%string := 1]> ∅), 2,
        Some (readErrorMessage "data/b.JSON" "bufio.Scanner: token too long"))
  /\ exists r,
       returned (countLabels demoWorld [0; 1; 2]%nat demoConfig "data") = inr r
       /\ LabelCounts r !! "emu"%string = None
       /\ LabelCounts r = <["cat"%string := 2]> (<["dog"%string := 1]> ∅)
       /\ TotalLines r = 3
       /\ Errors r
          = [ readErrorMessage "data/b.JSON" "bufio.Scanner: token too long";
              openErrorMessage "data/sub/c.json" "permission denied" ].
Proof.
  split; [reflexivity |]. split; [vm_compute; reflexivity |].
  eexists. split; [reflexivity |].
  split_and!; vm_compute; reflexivity.
Qed.

(** ** The two extraction strategies *)

(** C2, on the program.  The fast variant does not take the configured
    key: it searches the fixed pattern for the key label, so its result
    is the same for every configured key.  With the key category, on a
    line that has both fields, it yields the value of label (dog) where
    the full-parse variant yields the value of category (cat); on a line
    that has only category it yields nothing. *)
Theorem fast_variant_ignores_the_configured_key :
  (forall key1 key2 line, extracted key1 true line = extracted key2 true line)
  /\ (forall key1 key2 st line,
        processLine key1 true st line = processLine key2 true st line)
  /\ extracted "category" true (bq "{`category`:`cat`,`label`:`dog`}") = Some "dog"%string
  /\ extracted "category" false (bq "{`category`:`cat`,`label`:`dog`}") = Some "cat"%string
  /\ extracted "category" true (bq "{`category`:`cat`}") = Some ""%string
  /\ extracted "category" false (bq "{`category`:`cat`}") = Some "cat"%string
  /\ scanLines "category" true [ bq "{`category`:`cat`,`label`:`dog`}" ]
     = (<["dog"%string := 1]> ∅, 1)
  /\ scanLines "category" false [ bq "{`category`:`cat`,`label`:`dog`}" ]
     = (<["cat"%string := 1]> ∅, 1).
Proof.
  split_and!.
  - reflexivity.
  - reflexivity.
  - vm_compute. reflexivity.
  - vm_compute. reflexivity.
  - vm_compute. reflexivity.
  - vm_compute. reflexivity.
  - vm_compute. reflexivity.
  - vm_compute. reflexivity.
Qed.

(** The fast variant on a few lines: the text between the quotes, an
    escaped quote skipped with its backslash left in place, a bare value
    up to the next comma or brace, and an unterminated text read as a
    bare value. *)
Example fastExtractLabel_examples :
  fastExtractLabel (bq "{`label`:`cat`,`x`:1}") = "cat"%string
  /\ fastExtractLabel (bq "{`x`:1, `label`:  1000000 }") = "1000000"%string
  /\ fastExtractLabel (bq "{`x`:1}") = ""%string
  /\ fastExtractLabel (bq "{`label`:``}") = ""%string
  /\ fastExtractLabel (bq "{`label`:`a\`b`}")
     = String "a" (String backslash (String dq "b"))
  /\ fastExtractLabel (bq "{`label`: `x") = String dq "x"
  /\ fastExtractLabel (bq "{`label`: 'y' }") = "y"%string
  /\ fastExtractLabel (bq "{`a`:{`label`:`in`},`label`:`out`}") = "in"%string.
Proof. split_and!; vm_compute; reflexivity. Qed.

(** On the record of the specification both strategies agree, the key
    being label. *)
Example strategies_agree_on_label :
  extracted "label" true (bq "{`label`:`cat`,`x`:1}") = Some "cat"%string
  /\ extracted "label" false (bq "{`label`:`cat`,`x`:1}") = Some "cat"%string.
Proof. split; vm_compute; reflexivity. Qed.

(** ** The decoder's fuel *)

Lemma skipWS_len s : (len (skipWS s) <= len s)%nat.
Proof.
  induction s as [| c s IH]; simpl; [lia |].
  destruct (isJSONSpace c); simpl in *; lia.
Qed.

Lemma takeDigits_len acc n s :
  (len (snd (takeDigits acc n s)) <= len s)%nat.
Proof.
  revert acc n. induction s as [| c s IH]; intros acc n; simpl; [lia |].
  destruct (isDigit c); simpl; [| lia].
  specialize (IH (10 * acc + (code c - 48)) (n + 1)). lia.
Qed.

Lemma substring_len n m s : (String.length (String.substring n m s) <= m)%nat.
Proof.
  revert n m. induction s as [| c s IH]; intros [| n] [| m]; simpl; try lia.
  - specialize (IH 0%nat m). lia.
  - apply (IH n 0%nat).
  - apply (IH n (S m)).
Qed.

Lemma dropBytes_len n c r :
  (0 < n)%nat -> (len (dropBytes n (String c r)) < len (String c r))%nat.
Proof.
  intros Hn. unfold dropBytes, len.
  pose proof (substring_len n (String.length (String c r) - n) (String c r)).
  simpl in *. lia.
Qed.

Lemma takeSign_len s : (len (snd (takeSign s)) <= len s)%nat.
Proof. destruct s as [| c r]; simpl; [lia |]. destruct (c =? "-")%char; simpl; lia. Qed.

Lemma parseInt_len s v r : parseInt s = Some (v, r) -> (len r < len s)%nat.
Proof.
  destruct s as [| c s]; simpl; [discriminate |].
  destruct (c =? "0")%char.
  - intros H. injection H as _ <-. lia.
  - destruct (isDigit c) eqn:Hd; [| discriminate].
    pose proof (takeDigits_len (10 * 0 + (code c - 48)) (0 + 1) s) as Hl.
    destruct (takeDigits _ _ s) as [[v' n'] r'].
    intros H. injection H as _ <-. simpl in Hl. lia.
Qed.

Lemma parseFrac_len iv s v n r :
  parseFrac iv s = Some (v, n, r) -> (len r <= len s)%nat.
Proof.
  destruct s as [| c s]; simpl.
  - intros H. injection H as _ _ <-. simpl. lia.
  - destruct (c =? ".")%char.
    + pose proof (takeDigits_len iv 0 s) as Hl.
      destruct (takeDigits iv 0 s) as [[v' n'] r'].
      destruct (n' =? 0); [discriminate |].
      intros H. injection H as _ _ <-. simpl in Hl. lia.
    + intros H. injection H as _ _ <-. simpl. lia.
Qed.

Lemma parseExp_len s v r : parseExp s = Some (v, r) -> (len r <= len s)%nat.
Proof.
  destruct s as [| c s]; simpl.
  - intros H. injection H as _ <-. simpl. lia.
  - destruct ((c =? "e")%char || (c =? "E")%char).
    + assert (Hr1 : forall p : bool * string,
                p = match s with
                    | String c' r' =>
                        if (c' =? "-")%char then (true, r')
                        else if (c' =? "+")%char then (false, r')
                        else (false, s)
                    | EmptyString => (false, s)
                    end -> (len (snd p) <= len s)%nat).
      { intros p ->. destruct s as [| c' r']; simpl; [lia |].
        destruct (c' =? "-")%char; [simpl; lia |].
        destruct (c' =? "+")%char; simpl; lia. }
      specialize (Hr1 _ eq_refl).
      destruct (match s with String _ _ => _ | EmptyString => _ end) as [eneg r1].
      pose proof (takeDigits_len 0 0 r1) as Hl.
      destruct (takeDigits 0 0 r1) as [[v' n'] r2].
      destruct (n' =? 0); [discriminate |].
      intros H. injection H as _ <-. simpl in *. lia.
    + intros H. injection H as _ <-. simpl. lia.
Qed.

Lemma parseNumber_len s f rest :
  parseNumber s = Some (f, rest) -> (len rest < len s)%nat.
Proof.
  unfold parseNumber. pose proof (takeSign_len s) as Hs.
  destruct (takeSign s) as [neg s1].
  destruct (parseInt s1) as [[iv s2] |] eqn:Hi; [| discriminate].
  destruct (parseFrac iv s2) as [[[digits nfrac] s3] |] eqn:Hf; [| discriminate].
  destruct (parseExp s3) as [[ex s4] |] eqn:He; [| discriminate].
  destruct (parseDecimal neg digits (ex - nfrac)); [| discriminate].
  intros H. injection H as _ <-.
  apply parseInt_len in Hi. apply parseFrac_len in Hf. apply parseExp_len in He.
  simpl in Hs. lia.
Qed.

Lemma scanString_len s items rest :
  scanString s = Some (items, rest) -> (len rest < len s)%nat.
Proof.
  remember (len s) as n eqn:Hn. revert s Hn items rest.
  induction n as [n IH] using lt_wf_ind. intros s Hn items rest.
  destruct s as [| c r]; [discriminate |]. cbn [scanString].
  destruct (c =? dq)%char.
  { intros H. injection H as _ <-. subst n. simpl. lia. }
  destruct (c =? backslash)%char.
  { destruct r as [| e r1]; [discriminate |].
    destruct (e =? "u")%char.
    - destruct r1 as [| h1 [| h2 [| h3 [| h4 r2]]]]; try discriminate.
      destruct (hex4 h1 h2 h3 h4); [| discriminate].
      destruct (scanString r2) as [[items' rest'] |] eqn:Hrec; [| discriminate].
      intros H. injection H as _ <-.
      pose proof (IH (len r2) ltac:(subst n; simpl; lia) r2 eq_refl _ _ Hrec).
      subst n. simpl in *. lia.
    - destruct (escapeByte e); [| discriminate].
      destruct (scanString r1) as [[items' rest'] |] eqn:Hrec; [| discriminate].
      intros H. injection H as _ <-.
      pose proof (IH (len r1) ltac:(subst n; simpl; lia) r1 eq_refl _ _ Hrec).
      subst n. simpl in *. lia. }
  destruct (code c <? 32); [discriminate |].
  destruct (scanString r) as [[items' rest'] |] eqn:Hrec; [| discriminate].
  intros H. injection H as _ <-.
  pose proof (IH (len r) ltac:(subst n; simpl; lia) r eq_refl _ _ Hrec).
  subst n. simpl in *. lia.
Qed.

Lemma parseString_len s str rest :
  parseString s = Some (str, rest) -> (len rest < len s)%nat.
Proof.
  unfold parseString.
  destruct (scanString s) as [[items r] |] eqn:Hs; [| discriminate].
  intros H. injection H as _ <-. now apply scanString_len in Hs.
Qed.

Lemma parse_len fuel :
  (forall depth s v rest,
      parseValue fuel depth s = Some (v, rest) -> (len rest < len s)%nat)
  /\ (forall depth s acc v rest,
        parseMembers fuel depth s acc = Some (v, rest) -> (len rest < len s)%nat)
  /\ (forall depth s acc v rest,
        parseElements fuel depth s acc = Some (v, rest) -> (len rest < len s)%nat).
Proof.
  induction fuel as [| fuel (IHv & IHm & IHe)]; [repeat split; discriminate |].
  split_and!.
  - intros depth s v rest. cbn [parseValue].
    pose proof (skipWS_len s) as Hws.
    destruct (skipWS s) as [| c r] eqn:Hs; [discriminate |].
    destruct (c =? "{")%char.
    { destruct (maxNestingDepth <=? depth); [discriminate |].
      pose proof (skipWS_len r) as Hws'.
      destruct (skipWS r) as [| c' r'] eqn:Hr; [discriminate |].
      destruct (c' =? "}")%char.
      - intros H. injection H as _ <-. simpl in *. lia.
      - intros H. apply IHm in H. simpl in *. lia. }
    destruct (c =? "[")%char.
    { destruct (maxNestingDepth <=? depth); [discriminate |].
      pose proof (skipWS_len r) as Hws'.
      destruct (skipWS r) as [| c' r'] eqn:Hr; [discriminate |].
      destruct (c' =? "]")%char.
      - intros H. injection H as _ <-. simpl in *. lia.
      - intros H. apply IHe in H. simpl in *. lia. }
    destruct (c =? dq)%char.
    { destruct (parseString r) as [[str rest'] |] eqn:Hp; [| discriminate].
      intros H. injection H as _ <-. apply parseString_len in Hp. simpl in *. lia. }
    destruct (String.prefix "true" (String c r)).
    { intros H. injection H as _ <-.
      pose proof (dropBytes_len 4 c r ltac:(lia)). simpl in *. lia. }
    destruct (String.prefix "false" (String c r)).
    { intros H. injection H as _ <-.
      pose proof (dropBytes_len 5 c r ltac:(lia)). simpl in *. lia. }
    destruct (String.prefix "null" (String c r)).
    { intros H. injection H as _ <-.
      pose proof (dropBytes_len 4 c r ltac:(lia)). simpl in *. lia. }
    destruct (parseNumber (String c r)) as [[f rest'] |] eqn:Hn; [| discriminate].
    intros H. injection H as _ <-. apply parseNumber_len in Hn. simpl in *. lia.
  - intros depth s acc v rest. cbn [parseMembers].
    pose proof (skipWS_len s) as Hws.
    destruct (skipWS s) as [| c r] eqn:Hs; [discriminate |].
    destruct (c =? dq)%char; [| discriminate].
    destruct (parseString r) as [[k r1] |] eqn:Hp; [| discriminate].
    apply parseString_len in Hp.
    pose proof (skipWS_len r1) as Hws1.
    destruct (skipWS r1) as [| c1 r2] eqn:Hr1; [discriminate |].
    destruct (c1 =? ":")%char; [| discriminate].
    destruct (parseValue fuel depth r2) as [[x r3] |] eqn:Hv; [| discriminate].
    apply IHv in Hv.
    pose proof (skipWS_len r3) as Hws3.
    destruct (skipWS r3) as [| c2 r4] eqn:Hr3; [discriminate |].
    destruct (c2 =? ",")%char.
    { intros H. apply IHm in H. simpl in *. lia. }
    destruct (c2 =? "}")%char; [| discriminate].
    intros H. injection H as _ <-. simpl in *. lia.
  - intros depth s acc v rest. cbn [parseElements].
    destruct (parseValue fuel depth s) as [[x r1] |] eqn:Hv; [| discriminate].
    apply IHv in Hv.
    pose proof (skipWS_len r1) as Hws1.
    destruct (skipWS r1) as [| c r2] eqn:Hr1; [discriminate |].
    destruct (c =? ",")%char.
    { intros H. apply IHe in H. simpl in *. lia. }
    destruct (c =? "]")%char; [| discriminate].
    intros H. injection H as _ <-. simpl in *. lia.
Qed.

(** A value that is read with some fuel is read with any fuel that is
    at least the number of bytes it takes up. *)
Lemma parse_enough fuel :
  (forall depth s v rest,
      parseValue fuel depth s = Some (v, rest) ->
      forall fuel0, (len s - len rest <= fuel0)%nat ->
                    parseValue fuel0 depth s = Some (v, rest))
  /\ (forall depth s acc v rest,
        parseMembers fuel depth s acc = Some (v, rest) ->
        forall fuel0, (len s - len rest <= fuel0)%nat ->
                      parseMembers fuel0 depth s acc = Some (v, rest))
  /\ (forall depth s acc v rest,
        parseElements fuel depth s acc = Some (v, rest) ->
        forall fuel0, (len s - len rest <= fuel0)%nat ->
                      parseElements fuel0 depth s acc = Some (v, rest)).
Proof.
  induction fuel as [| fuel (IHv & IHm & IHe)]; [repeat split; discriminate |].
  destruct (parse_len fuel) as (Lv & Lm & Le).
  split_and!.
  - intros depth s v rest Hrun fuel0 Hf0.
    pose proof (proj1 (parse_len (S fuel)) _ _ _ _ Hrun) as Hlen.
    destruct fuel0 as [| fuel0]; [lia |].
    revert Hrun. cbn [parseValue].
    pose proof (skipWS_len s) as Hws.
    destruct (skipWS s) as [| c r] eqn:Hs; [discriminate |].
    destruct (c =? "{")%char.
    { destruct (maxNestingDepth <=? depth); [discriminate |].
      destruct (skipWS r) as [| c' r'] eqn:Hr; [discriminate |].
      destruct (c' =? "}")%char; [auto |].
      intros H. apply (IHm _ _ _ _ _ H). apply Lm in H. simpl in *. lia. }
    destruct (c =? "[")%char.
    { destruct (maxNestingDepth <=? depth); [discriminate |].
      destruct (skipWS r) as [| c' r'] eqn:Hr; [discriminate |].
      destruct (c' =? "]")%char; [auto |].
      intros H. apply (IHe _ _ _ _ _ H). apply Le in H. simpl in *. lia. }
    auto.
  - intros depth s acc v rest Hrun fuel0 Hf0.
    pose proof (proj1 (proj2 (parse_len (S fuel))) _ _ _ _ _ Hrun) as Hlen.
    destruct fuel0 as [| fuel0]; [lia |].
    revert Hrun. cbn [parseMembers].
    pose proof (skipWS_len s) as Hws.
    destruct (skipWS s) as [| c r] eqn:Hs; [discriminate |].
    destruct (c =? dq)%char; [| discriminate].
    destruct (parseString r) as [[k r1] |] eqn:Hp; [| discriminate].
    apply parseString_len in Hp.
    pose proof (skipWS_len r1) as Hws1.
    destruct (skipWS r1) as [| c1 r2] eqn:Hr1; [discriminate |].
    destruct (c1 =? ":")%char; [| discriminate].
    destruct (parseValue fuel depth r2) as [[x r3] |] eqn:Hv; [| discriminate].
    pose proof (Lv _ _ _ _ Hv) as Hlv.
    pose proof (skipWS_len r3) as Hws3.
    destruct (skipWS r3) as [| c2 r4] eqn:Hr3; [discriminate |].
    destruct (c2 =? ",")%char eqn:Hc.
    { intros H. pose proof (Lm _ _ _ _ _ H) as Hlm.
      rewrite (IHv _ _ _ _ Hv fuel0) by (simpl in *; lia).
      rewrite Hr3, Hc. apply (IHm _ _ _ _ _ H). simpl in *. lia. }
    destruct (c2 =? "}")%char eqn:Hc2; [| discriminate].
    intros H. injection H as <- <-.
    rewrite (IHv _ _ _ _ Hv fuel0) by (simpl in *; lia).
    now rewrite Hr3, Hc, Hc2.
  - intros depth s acc v rest Hrun fuel0 Hf0.
    pose proof (proj2 (proj2 (parse_len (S fuel))) _ _ _ _ _ Hrun) as Hlen.
    destruct fuel0 as [| fuel0]; [lia |].
    revert Hrun. cbn [parseElements].
    destruct (parseValue fuel depth s) as [[x r1] |] eqn:Hv; [| discriminate].
    pose proof (Lv _ _ _ _ Hv) as Hlv.
    pose proof (skipWS_len r1) as Hws1.
    destruct (skipWS r1) as [| c r2] eqn:Hr1; [discriminate |].
    destruct (c =? ",")%char eqn:Hc.
    { intros H. pose proof (Le _ _ _ _ _ H) as Hle.
      rewrite (IHv _ _ _ _ Hv fuel0) by (simpl in *; lia).
      rewrite Hr1, Hc. apply (IHe _ _ _ _ _ H). simpl in *. lia. }
    destruct (c =? "]")%char eqn:Hc'; [| discriminate].
    intros H. injection H as <- <-.
    rewrite (IHv _ _ _ _ Hv fuel0) by (simpl in *; lia).
    now rewrite Hr1, Hc, Hc'.
Qed.

(** The fuel [json_Unmarshal] gives is enough: with any larger amount
    the answer is the same. *)
Lemma parseValue_fuel line fuel :
  (len line < fuel)%nat ->
  parseValue fuel 0 line = parseValue (S (len line)) 0 line.
Proof.
  intros Hf.
  destruct (parseValue fuel 0 line) as [[v rest] |] eqn:Hbig.
  - symmetry. apply (proj1 (parse_enough fuel) _ _ _ _ Hbig). lia.
  - destruct (parseValue (S (len line)) 0 line) as [[v rest] |] eqn:Hsmall;
      [| reflexivity].
    rewrite (proj1 (parse_enough _) _ _ _ _ Hsmall fuel) in Hbig by lia.
    discriminate.
Qed.

(** ** Lines the decoder rejects *)

Lemma scanLines_skips labelKey fastParse lines1 line lines2 :
  countedLabel labelKey fastParse line = None ->
  scanLines labelKey fastParse (lines1 ++ line :: lines2)
  = scanLines labelKey fastParse (lines1 ++ lines2).
Proof.
  intros Hskip. unfold scanLines.
  rewrite !fold_left_app. cbn [fold_left].
  now rewrite processLine_countedLabel, Hskip.
Qed.

Lemma countLabels_ext w w' schedule config directory :
  tree w = tree w' ->
  (forall path,
      processFile (fileAt w path) path (LabelKey config) (UseFastParse config)
      = processFile (fileAt w' path) path (LabelKey config) (UseFastParse config)) ->
  countLabels w schedule config directory
  = countLabels w' schedule config directory.
Proof.
  intros Ht Hf. unfold countLabels. rewrite Ht.
  destruct (collectJSONLFiles (tree w') directory) as [files [err |]];
    [reflexivity |].
  destruct (length files =? 0)%nat; [reflexivity |].
  assert (Hjobs :
    map (runJob w (UseFastParse config))
        (map (fun file => {| FilePath := file; JobLabelKey := LabelKey config |}) files)
    = map (runJob w' (UseFastParse config))
        (map (fun file => {| FilePath := file; JobLabelKey := LabelKey config |}) files)).
  { rewrite !map_map. apply map_ext. intros path. unfold runJob.
    cbn [FilePath JobLabelKey]. now rewrite Hf. }
  now rewrite Hjobs.
Qed.

(** C6.  Under the full-parse strategy a line the decoder rejects is
    skipped: the counts and the line counter are as they were, the file
    gives the same counts, line total and error as without the line, and
    so does the whole run, whose error list has no entry for the line.
    A rejection is never for want of fuel in the model of the decoder.
    The unterminated record of the specification is such a line. *)
Theorem malformed_lines_are_skipped_silently (labelKey : string) :
  (forall st line,
      json_Unmarshal line = None -> processLine labelKey false st line = st)
  /\ (forall line, json_Unmarshal line = None ->
                   extracted labelKey false line = None)
  /\ (forall lines1 line lines2 readErr path,
        json_Unmarshal line = None ->
        processFile (Scanned (lines1 ++ line :: lines2) readErr) path labelKey false
        = processFile (Scanned (lines1 ++ lines2) readErr) path labelKey false)
  /\ (forall w schedule config directory path lines1 line lines2 readErr,
        UseFastParse config = false ->
        json_Unmarshal line = None ->
        fileAt w path = Scanned (lines1 ++ line :: lines2) readErr ->
        countLabels w schedule config directory
        = countLabels (withFile w path (Scanned (lines1 ++ lines2) readErr))
                      schedule config directory)
  /\ (forall line fuel,
        (len line < fuel)%nat ->
        parseValue fuel 0 line = parseValue (S (len line)) 0 line)
  /\ json_Unmarshal (bq "{`label`: `x`") = None
  /\ processFile (Scanned [ bq "{`label`: `x`" ] None) "f.jsonl" "label" false
     = (∅, 0, None).
Proof.
  assert (Hskip : forall key line,
             json_Unmarshal line = None -> countedLabel key false line = None).
  { intros key line Hbad. unfold countedLabel, extracted. rewrite Hbad.
    now destruct (String.eqb line ""). }
  assert (Hfile : forall key lines1 line lines2 readErr path,
    json_Unmarshal line = None ->
    processFile (Scanned (lines1 ++ line :: lines2) readErr) path key false
    = processFile (Scanned (lines1 ++ lines2) readErr) path key false).
  { intros key lines1 line lines2 readErr path Hbad. unfold processFile.
    now rewrite (scanLines_skips key false lines1 line lines2 (Hskip key line Hbad)). }
  split_and!.
  - intros st line Hbad. rewrite processLine_countedLabel.
    now rewrite (Hskip labelKey line Hbad).
  - intros line Hbad. unfold extracted. now rewrite Hbad.
  - apply Hfile.
  - intros w schedule config directory path lines1 line lines2 readErr
           Hfull Hbad Hat.
    apply countLabels_ext; [reflexivity |].
    intros p. unfold withFile. cbn [fileAt]. rewrite Hfull.
    destruct (String.eqb_spec p path) as [-> | Hne]; [| reflexivity].
    rewrite Hat. now apply Hfile.
  - apply parseValue_fuel.
  - vm_compute. reflexivity.
  - vm_compute. reflexivity.
Qed.

(** ** Numbers as text *)

Lemma sameFloat_eq a b : sameFloat a b = true -> a = b.
Proof.
  destruct a as [s | s | | s m e], b as [s' | s' | | s' m' e']; simpl;
    try discriminate.
  - intros H. apply Bool.eqb_prop in H. now subst.
  - intros H. apply Bool.eqb_prop in H. now subst.
  - intros H. apply andb_prop in H as [H He]. apply andb_prop in H as [Hs Hm].
    apply Bool.eqb_prop in Hs. apply Pos.eqb_eq in Hm. apply Z.eqb_eq in He.
    now subst.
Qed.

Lemma readsBack_parse m e c q :
  readsBack m e (c, q) = true ->
  parseDecimal false c q = Some (S754_finite false m e).
Proof.
  unfold readsBack. cbn [fst snd].
  destruct (parseDecimal false c q) as [f |]; [| discriminate].
  intros H. now rewrite (sameFloat_eq _ _ H).
Qed.

Lemma candidate_readsBack m e X n d :
  candidate m e X n = Some d -> readsBack m e d = true.
Proof.
  unfold candidate.
  set (lo := normalDecimal _ _). set (hi := normalDecimal _ _).
  destruct (readsBack m e lo) eqn:Hlo, (readsBack m e hi) eqn:Hhi;
    try discriminate.
  - destruct (_ ?= _); [destruct (Z.even _) | |]; intros H; injection H as <-;
      assumption.
  - intros H. now injection H as <-.
  - intros H. now injection H as <-.
Qed.

(** The search stops at the first digit count that has a candidate. *)
Lemma searchFrom_first m e X n fuel d :
  searchFrom m e X n fuel = Some d ->
  exists k, 0 <= k < Z.of_nat fuel
            /\ candidate m e X (n + k) = Some d
            /\ forall j, 0 <= j < k -> candidate m e X (n + j) = None.
Proof.
  revert n. induction fuel as [| fuel IH]; intros n; [discriminate |].
  cbn [searchFrom]. destruct (candidate m e X n) as [d' |] eqn:Hc.
  - intros H. injection H as <-. exists 0. rewrite Z.add_0_r.
    split; [lia |]. split; [exact Hc |]. intros j Hj. lia.
  - intros H. destruct (IH (n + 1) H) as (k & Hk & Hfound & Hnone).
    exists (k + 1). split; [lia |]. split.
    + now replace (n + (k + 1)) with (n + 1 + k) by lia.
    + intros j Hj. destruct (Z.eq_dec j 0) as [-> | Hj0].
      * now rewrite Z.add_0_r.
      * replace (n + j) with (n + 1 + (j - 1)) by lia. apply Hnone. lia.
Qed.

Lemma parseDecimal_sign s c q :
  parseDecimal s c q = option_map (withSign s) (parseDecimal false c q).
Proof.
  unfold parseDecimal. destruct (c <=? 0); [reflexivity |].
  assert (H : forall n d,
             round_ratio s n d = option_map (withSign s) (round_ratio false n d)).
  { intros n d. unfold round_ratio.
    destruct (if _ =? 2 ^ 53 then _ else _) as [mm ee].
    destruct (2045 <? ee); [reflexivity |]. now destruct mm. }
  apply H.
Qed.

(** The digits [%g] prints read back as the number printed. *)
Lemma shortestDecimal_reads_back s m e c q :
  shortestDecimal m e = Some (c, q) ->
  parseDecimal s c q = Some (S754_finite s m e)
  /\ shortest m e = (itoa c, ndigits c + q).
Proof.
  intros Hfound. split.
  - unfold shortestDecimal in Hfound.
    destruct (searchFrom_first m e _ 1 17 (c, q) Hfound) as (k & _ & Hc & _).
    apply candidate_readsBack, readsBack_parse in Hc.
    now rewrite parseDecimal_sign, Hc.
  - unfold shortest. now rewrite Hfound.
Qed.

(** *** Every float64 has a shortest decimal

    [round_ratio] returns the [float64] whose rounding interval holds
    the fraction; with 17 digits one of the two decimals next to a
    [float64] is inside its rounding interval, because 2^53 < 10^16. *)

Lemma p10_pos k : 0 < p10 k.
Proof. unfold p10. apply Z.pow_pos_nonneg; lia. Qed.

Lemma roundHalfEven_strict N D M :
  0 < D -> (2 * M - 1) * D < 2 * N < (2 * M + 1) * D ->
  roundHalfEven N D = M.
Proof.
  intros HD [Hlo Hhi]. unfold roundHalfEven.
  pose proof (Z.div_mod N D ltac:(lia)) as Hdm.
  pose proof (Z.mod_pos_bound N D HD) as Hr.
  set (q := N / D) in *. set (r := N mod D) in *.
  assert (Hq : q = M \/ q = M - 1) by nia.
  destruct (Z.ltb_spec (2 * r) D) as [H1 | H1].
  - destruct Hq as [-> | ->]; [reflexivity | nia].
  - destruct (Z.ltb_spec D (2 * r)) as [H2 | H2].
    + destruct Hq as [-> | ->]; [nia | lia].
    + assert (2 * r = D) by lia. destruct Hq as [-> | ->]; nia.
Qed.

Lemma log2_between W k : 0 <= k -> 2 ^ k <= W < 2 ^ (k + 1) -> Z.log2 W = k.
Proof. intros Hk HW. apply Z.log2_unique; assumption. Qed.

Lemma round_ratio_nearest neg m e n d :
  0 < n -> 0 < d -> canonical m e -> nearerThanNeighbours m e n d ->
  round_ratio neg n d = Some (S754_finite neg m e).
Proof.
  intros Hn Hd (He & Hm & Hnorm) [[Hlo Hhi] Hquarter].
  unfold round_ratio.
  set (A := n * 2 ^ 1074) in *.
  set (tm := e + 1074). fold tm in Hlo, Hhi, Hquarter.
  assert (Htm : 0 <= tm <= 2045) by (unfold tm; lia).
  set (T := 2 ^ tm) in *.
  assert (HT : 0 < T) by (apply Z.pow_pos_nonneg; lia).
  set (W := A / d).
  assert (HA : 0 < A) by (unfold A; apply Z.mul_pos_pos; [lia | now apply Z.pow_pos_nonneg]).
  assert (Hfinal : forall t,
            t = tm ->
            roundHalfEven A (d * 2 ^ t) = Z.pos m ->
            (let '(mm, t') := if roundHalfEven A (d * 2 ^ t) =? 2 ^ 53
                              then (2 ^ 52, t + 1)
                              else (roundHalfEven A (d * 2 ^ t), t) in
             if 2045 <? t' then None
             else match mm with
                  | Z.pos p => Some (S754_finite neg p (t' - 1074))
                  | _ => Some (S754_zero neg)
                  end) = Some (S754_finite neg m e)).
  { intros t -> ->. destruct (Z.eqb_spec (Z.pos m) (2 ^ 53)) as [Heq | _]; [lia |].
    destruct (Z.ltb_spec 2045 tm); [lia |].
    do 2 f_equal. unfold tm. lia. }
  destruct (Z.eq_dec tm 0) as [Htm0 | Htm0].
  - (* the smallest exponent *)
    assert (HT1 : T = 1) by (unfold T; now rewrite Htm0).
    rewrite HT1 in *.
    assert (HW : W < 2 ^ 53).
    { apply Z.div_lt_upper_bound; [lia |]. nia. }
    assert (Ht : Z.max 0 (Z.log2 W - 52) = 0).
    { assert (0 <= W) by (apply Z.div_pos; lia).
      destruct (Z.eq_dec W 0) as [-> | HW0]; [reflexivity |].
      assert (Z.log2 W < 53) by (apply Z.log2_lt_pow2; lia). lia. }
    rewrite Ht. apply Hfinal; [lia |].
    apply roundHalfEven_strict; [simpl; lia |]. simpl (2 ^ 0). lia.
  - destruct Hnorm as [Hnorm | ?]; [| lia].
    assert (HTeven : T = 2 * 2 ^ (tm - 1)).
    { unfold T. rewrite <- Z.pow_succ_r by lia. f_equal. lia. }
    assert (HT' : 0 < 2 ^ (tm - 1)) by (apply Z.pow_pos_nonneg; lia).
    destruct (Z.lt_ge_cases A (2 ^ 52 * T * d)) as [Hbelow | Habove].
    + (* just below a power of two *)
      assert (Hm52 : Z.pos m = 2 ^ 52) by nia.
      specialize (Hquarter Hm52 ltac:(unfold tm in *; lia)).
      rewrite Hm52 in *.
      assert (HWlo : 2 ^ (51 + tm) <= W).
      { apply Z.div_le_lower_bound; [lia |].
        replace (51 + tm) with (52 + (tm - 1)) by lia.
        rewrite Z.pow_add_r by lia. nia. }
      assert (HWhi : W < 2 ^ (52 + tm)).
      { apply Z.div_lt_upper_bound; [lia |].
        rewrite Z.pow_add_r by lia. fold T. nia. }
      assert (Hlog : Z.log2 W = 51 + tm).
      { apply log2_between; [lia |]. now replace (51 + tm + 1) with (52 + tm) by lia. }
      rewrite Hlog. replace (Z.max 0 (51 + tm - 52)) with (tm - 1) by lia.
      assert (Hq : roundHalfEven A (d * 2 ^ (tm - 1)) = 2 ^ 53).
      { apply roundHalfEven_strict; [nia |]. nia. }
      rewrite Hq. rewrite Z.eqb_refl.
      destruct (Z.ltb_spec 2045 (tm - 1 + 1)); [lia |].
      change (2 ^ 52) with (Z.pos (2 ^ 52)%positive) in *.
      injection Hm52 as ->. do 2 f_equal. unfold tm. lia.
    + assert (HWlo : 2 ^ (52 + tm) <= W).
      { apply Z.div_le_lower_bound; [lia |].
        rewrite Z.pow_add_r by lia. fold T. nia. }
      assert (HWhi : W < 2 ^ (53 + tm)).
      { apply Z.div_lt_upper_bound; [lia |].
        rewrite Z.pow_add_r by lia. fold T. nia. }
      assert (Hlog : Z.log2 W = 52 + tm).
      { apply log2_between; [lia |]. now replace (52 + tm + 1) with (53 + tm) by lia. }
      rewrite Hlog. replace (Z.max 0 (52 + tm - 52)) with tm by lia.
      apply Hfinal; [reflexivity |].
      apply roundHalfEven_strict; [fold T; nia |]. fold T. nia.
Qed.

Lemma p10_shift q j :
  0 <= j -> p10 (q + j) * p10 (- q) = 10 ^ j * p10 q * p10 (- (q + j)).
Proof.
  intros Hj. unfold p10.
  destruct (Z.le_gt_cases 0 q) as [Hq | Hq].
  - replace (Z.max (q + j) 0) with (q + j) by lia.
    replace (Z.max (- q) 0) with 0 by lia.
    replace (Z.max q 0) with q by lia.
    replace (Z.max (- (q + j)) 0) with 0 by lia.
    rewrite Z.pow_add_r by lia. simpl (10 ^ 0). lia.
  - replace (Z.max q 0) with 0 by lia.
    replace (Z.max (- q) 0) with (- q) by lia.
    destruct (Z.le_gt_cases 0 (q + j)) as [Hqj | Hqj].
    + replace (Z.max (q + j) 0) with (q + j) by lia.
      replace (Z.max (- (q + j)) 0) with 0 by lia.
      rewrite <- Z.pow_add_r by lia. simpl (10 ^ 0).
      replace (q + j + - q) with j by lia. lia.
    + replace (Z.max (q + j) 0) with 0 by lia.
      replace (Z.max (- (q + j)) 0) with (- (q + j)) by lia.
      simpl (10 ^ 0).
      replace (- q) with (j + - (q + j)) at 1 by lia.
      rewrite Z.pow_add_r by lia. lia.
Qed.

Lemma nearerThanNeighbours_ratio m e n d n' d' :
  0 < d -> 0 < d' -> sameRatio n d n' d' ->
  nearerThanNeighbours m e n d -> nearerThanNeighbours m e n' d'.
Proof.
  unfold sameRatio, nearerThanNeighbours. cbv zeta.
  intros Hd Hd' Hsame [[Hlo Hhi] Hq].
  set (T := 2 ^ (e + 1074)) in *. set (U := 2 ^ 1074) in *.
  assert (HU : 0 < U) by (now apply Z.pow_pos_nonneg).
  assert (Hmono : forall x y, x * d < y * n -> x * d' < y * n').
  { intros x y Hxy.
    apply (Z.mul_lt_mono_pos_r d); [assumption |].
    replace (y * n' * d) with (y * n * d') by (rewrite <- !Z.mul_assoc; now f_equal).
    nia. }
  assert (Hmono' : forall x y, y * n < x * d -> y * n' < x * d').
  { intros x y Hxy.
    apply (Z.mul_lt_mono_pos_r d); [assumption |].
    replace (y * n' * d) with (y * n * d') by (rewrite <- !Z.mul_assoc; now f_equal).
    nia. }
  split; [split |].
  - replace (2 * (n' * U)) with (2 * U * n') by lia.
    apply Hmono. lia.
  - replace (2 * (n' * U)) with (2 * U * n') by lia.
    apply Hmono'. lia.
  - intros H1 H2. specialize (Hq H1 H2).
    replace (4 * (n' * U)) with (4 * U * n') by lia.
    apply Hmono. lia.
Qed.

Lemma stripZeros_value fuel c q c' q' :
  0 < c -> stripZeros fuel c q = (c', q') ->
  0 < c' /\ sameRatio (c * p10 q) (p10 (- q)) (c' * p10 q') (p10 (- q')).
Proof.
  revert c q. induction fuel as [| fuel IH]; intros c q Hc Hs; simpl in Hs.
  - injection Hs as <- <-. split; [assumption | reflexivity].
  - destruct (Z.eqb_spec (c mod 10) 0) as [Hmod | _]; simpl in Hs.
    + destruct (Z.ltb_spec 0 c); [| lia].
      pose proof (Z.div_mod c 10 ltac:(lia)) as Hdm. rewrite Hmod in Hdm.
      destruct (IH (c / 10) (q + 1) ltac:(lia) Hs) as [Hpos Hsame].
      split; [assumption |]. unfold sameRatio in *.
      pose proof (p10_shift q 1 ltac:(lia)) as Hshift. change (10 ^ 1) with 10 in Hshift.
      pose proof (p10_pos (- (q + 1))) as Hp.
      apply (Z.mul_reg_r _ _ (p10 (- (q + 1)))); [lia |].
      transitivity (c / 10 * (10 * p10 q * p10 (- (q + 1))) * p10 (- q')); [lia |].
      rewrite <- Hshift.
      transitivity (c / 10 * p10 (q + 1) * p10 (- q') * p10 (- q)); [lia |].
      rewrite Hsame. lia.
    + injection Hs as <- <-. split; [assumption | reflexivity].
Qed.

Lemma widthFrom_spec fuel k n :
  1 <= k -> 10 ^ (k - 1) <= n -> n < 10 ^ (k + Z.of_nat fuel) ->
  let w := widthFrom fuel k (10 ^ k) n in
  10 ^ (w - 1) <= n < 10 ^ w.
Proof.
  revert k. induction fuel as [| fuel IH]; intros k Hk Hlo Hhi; simpl.
  - split; [assumption |]. now rewrite Z.add_0_r in Hhi.
  - destruct (Z.ltb_spec n (10 ^ k)) as [Hlt | Hge].
    + now split.
    + replace (10 * 10 ^ k) with (10 ^ (k + 1)) by (rewrite Z.pow_add_r by lia; lia).
      apply IH; [lia | now replace (k + 1 - 1) with k by lia |].
      now replace (k + 1 + Z.of_nat fuel) with (k + Z.of_nat (S fuel)) by lia.
Qed.

Lemma width_spec n : 0 < n -> 10 ^ (width n - 1) <= n < 10 ^ width n.
Proof.
  intros Hn. unfold width.
  apply (widthFrom_spec (Z.to_nat (Z.log2 n)) 1 n); [lia | simpl; lia |].
  pose proof (Z.log2_nonneg n) as Hl.
  rewrite Z2Nat.id by assumption.
  destruct (Z.log2_spec n Hn) as [_ Hhi].
  eapply Z.lt_le_trans; [exact Hhi |].
  replace (Z.succ (Z.log2 n)) with (1 + Z.log2 n) by lia.
  apply Z.pow_le_mono_l. lia.
Qed.

Lemma width_pos n : 0 < n -> 1 <= width n.
Proof.
  intros Hn. destruct (width_spec n Hn) as [_ Hhi].
  destruct (Z.le_gt_cases 1 (width n)); [assumption |].
  assert (10 ^ width n <= 1).
  { destruct (Z.lt_trichotomy (width n) 0) as [H0 | [H0 | H0]];
      [rewrite Z.pow_neg_r by assumption; lia | rewrite H0; simpl; lia | lia]. }
  lia.
Qed.

(** [10^X <= a / b] for [X = floorLog10 a b]. *)
Lemma floorLog10_le a b :
  0 < a -> 0 < b -> ratio_ge_pow10 a b (floorLog10 a b) = true.
Proof.
  intros Ha Hb. unfold floorLog10.
  destruct (ratio_ge_pow10 a b (width a - width b)) eqn:Hge; [assumption |].
  unfold ratio_ge_pow10. apply Z.leb_le.
  destruct (width_spec a Ha) as [Halo _]. destruct (width_spec b Hb) as [_ Hbhi].
  pose proof (width_pos a Ha). pose proof (width_pos b Hb).
  set (wa := width a) in *. set (wb := width b) in *.
  unfold p10.
  destruct (Z.le_gt_cases 0 (wa - wb - 1)) as [Hp | Hp].
  - replace (Z.max (wa - wb - 1) 0) with (wa - wb - 1) by lia.
    replace (Z.max (- (wa - wb - 1)) 0) with 0 by lia. simpl (10 ^ 0).
    assert (10 ^ (wa - 1) = 10 ^ wb * 10 ^ (wa - wb - 1)).
    { rewrite <- Z.pow_add_r by lia. f_equal. lia. }
    assert (0 < 10 ^ (wa - wb - 1)) by (apply Z.pow_pos_nonneg; lia).
    nia.
  - replace (Z.max (wa - wb - 1) 0) with 0 by lia.
    replace (Z.max (- (wa - wb - 1)) 0) with (wb - wa + 1) by lia. simpl (10 ^ 0).
    assert (10 ^ wb = 10 ^ (wa - 1) * 10 ^ (wb - wa + 1)).
    { rewrite <- Z.pow_add_r by lia. f_equal. lia. }
    assert (0 < 10 ^ (wb - wa + 1)) by (apply Z.pow_pos_nonneg; lia).
    nia.
Qed.

Lemma sameFloat_refl s m e :
  sameFloat (S754_finite s m e) (S754_finite s m e) = true.
Proof.
  simpl. rewrite Pos.eqb_refl, Z.eqb_refl. now destruct s.
Qed.

Lemma readsBack_nearest m e c q :
  canonical m e -> 0 < c ->
  nearerThanNeighbours m e (c * p10 q) (p10 (- q)) ->
  readsBack m e (normalDecimal c q) = true.
Proof.
  intros Hcan Hc Hnear. unfold readsBack, normalDecimal.
  destruct (stripZeros 20 c q) as [c' q'] eqn:Hs.
  destruct (stripZeros_value _ _ _ _ _ Hc Hs) as [Hc' Hsame].
  simpl fst. simpl snd. unfold parseDecimal.
  destruct (Z.leb_spec c' 0); [lia |].
  pose proof (p10_pos q'). pose proof (p10_pos (- q')). pose proof (p10_pos (- q)).
  rewrite (round_ratio_nearest false m e); [apply sameFloat_refl | nia | lia | assumption |].
  eapply nearerThanNeighbours_ratio; [| | exact Hsame | exact Hnear]; lia.
Qed.

(** Seventeen digits always suffice. *)
Lemma candidate_17 m e :
  canonical m e -> candidate m e (decimalExponent m e) 17 <> None.
Proof.
  intros Hcan. pose proof Hcan as (He & Hm & Hnorm).
  unfold candidate. cbv zeta.
  set (X := decimalExponent m e).
  replace (X - 17 + 1) with (X - 16) by lia.
  set (q := X - 16).
  set (V := scaledValue m e). set (U := unitDenominator).
  set (a := V * p10 (- q)). set (b := U * p10 q).
  set (T := 2 ^ (e + 1074)).
  assert (HT : 0 < T) by (apply Z.pow_pos_nonneg; lia).
  assert (HU : 0 < U) by (now apply Z.pow_pos_nonneg).
  assert (HV : V = Z.pos m * T) by reflexivity.
  pose proof (p10_pos q) as Hpq. pose proof (p10_pos (- q)) as Hpnq.
  pose proof (p10_pos X) as HpX. pose proof (p10_pos (- X)) as HpnX.
  assert (Hb : 0 < b) by (unfold b; nia).
  assert (HX : U * p10 X <= V * p10 (- X)).
  { apply Z.leb_le. apply (floorLog10_le V U); [rewrite HV; nia | assumption]. }
  assert (Hscale : 10 ^ 16 * b <= a).
  { pose proof (p10_shift q 16 ltac:(lia)) as Hshift.
    replace (q + 16) with X in Hshift by (unfold q; lia).
    unfold a, b.
    apply (Z.mul_le_mono_pos_r _ _ (p10 (- X))); [assumption |].
    transitivity (U * (10 ^ 16 * p10 q * p10 (- X))); [lia |].
    rewrite <- Hshift.
    transitivity (U * p10 X * p10 (- q)); [lia |].
    transitivity (V * p10 (- X) * p10 (- q)); [| lia].
    apply Z.mul_le_mono_nonneg_r; [lia | assumption]. }
  set (d := p10 (- q)) in *.
  assert (Ha : a = Z.pos m * (T * d)) by (unfold a; rewrite HV; lia).
  assert (HTd : 0 < T * d) by nia.
  pose proof (Z.div_mod a b ltac:(lia)) as Hdm.
  pose proof (Z.mod_pos_bound a b Hb) as Hr.
  set (k := a / b) in *. set (r := a mod b) in *.
  assert (Hk : 10 ^ 16 <= k).
  { apply Z.div_le_lower_bound; [assumption | lia]. }
  assert (H16 : 2 ^ 53 < 10 ^ 16) by reflexivity.
  assert (Hgap : b < T * d).
  { assert (10 ^ 16 * b < 10 ^ 16 * (T * d)); [nia | lia]. }
  assert (Hgap' : Z.pos m = 2 ^ 52 -> 2 * b < T * d).
  { intros Hm52. rewrite Hm52 in Ha.
    assert (10 ^ 16 * (2 * b) < 10 ^ 16 * (T * d)); [| lia].
    change (2 ^ 53) with (2 * 2 ^ 52) in H16. nia. }
  assert (Hone : readsBack m e (normalDecimal k q) = true
                 \/ readsBack m e (normalDecimal (k + 1) q) = true).
  { destruct (Z.le_gt_cases (2 * r) b) as [Hhalf | Hhalf].
    - left. apply readsBack_nearest; [assumption | lia |].
      unfold nearerThanNeighbours. cbv zeta. fold T. fold d.
      change (2 ^ 1074) with U.
      replace (k * p10 q * U) with (k * b) by (unfold b; lia).
      split; [split |].
      + replace ((2 * Z.pos m - 1) * T * d) with (2 * a - T * d) by (rewrite Ha; lia).
        lia.
      + replace ((2 * Z.pos m + 1) * T * d) with (2 * a + T * d) by (rewrite Ha; lia).
        lia.
      + intros Hm52 _. specialize (Hgap' Hm52).
        replace ((4 * Z.pos m - 1) * T * d) with (4 * a - T * d) by (rewrite Ha; lia).
        lia.
    - right. apply readsBack_nearest; [assumption | lia |].
      unfold nearerThanNeighbours. cbv zeta. fold T. fold d.
      change (2 ^ 1074) with U.
      replace ((k + 1) * p10 q * U) with (k * b + b) by (unfold b; lia).
      split; [split |].
      + replace ((2 * Z.pos m - 1) * T * d) with (2 * a - T * d) by (rewrite Ha; lia).
        lia.
      + replace ((2 * Z.pos m + 1) * T * d) with (2 * a + T * d) by (rewrite Ha; lia).
        lia.
      + intros _ _.
        replace ((4 * Z.pos m - 1) * T * d) with (4 * a - T * d) by (rewrite Ha; lia).
        lia. }
  destruct (readsBack m e (normalDecimal k q)),
           (readsBack m e (normalDecimal (k + 1) q)); try discriminate.
  destruct Hone; discriminate.
Qed.

Lemma searchFrom_reaches m e X n fuel k :
  (k < fuel)%nat -> candidate m e X (n + Z.of_nat k) <> None ->
  searchFrom m e X n fuel <> None.
Proof.
  revert n k. induction fuel as [| fuel IH]; intros n k Hk Hc; [lia |].
  simpl. destruct (candidate m e X n) eqn:Hn; [discriminate |].
  destruct k as [| k].
  - rewrite Z.add_0_r in Hc. contradiction.
  - apply (IH (n + 1) k); [lia |].
    now replace (n + 1 + Z.of_nat k) with (n + Z.of_nat (S k)) by lia.
Qed.

(** The search for the shortest decimal always succeeds. *)
Lemma shortestDecimal_total m e :
  canonical m e -> exists c q, shortestDecimal m e = Some (c, q).
Proof.
  intros Hcan. unfold shortestDecimal.
  pose proof (searchFrom_reaches m e (decimalExponent m e) 1 17 16 ltac:(lia)
                (candidate_17 m e Hcan)) as Hs.
  destruct (searchFrom _ _ _ _ _) as [[c q] |]; [eauto | contradiction].
Qed.

Lemma roundHalfEven_bounds N D :
  N / D <= roundHalfEven N D <= N / D + 1.
Proof.
  unfold roundHalfEven.
  destruct (_ <? _); [lia |]. destruct (_ <? _); [lia |].
  destruct (Z.even _); lia.
Qed.

(** Every finite value the decoder produces is canonical. *)
Lemma round_ratio_canonical neg n d s m e :
  0 < n -> 0 < d ->
  round_ratio neg n d = Some (S754_finite s m e) -> canonical m e.
Proof.
  intros Hn Hd. unfold round_ratio.
  set (A := n * 2 ^ 1074).
  assert (HA : 0 < A) by (unfold A; apply Z.mul_pos_pos; [lia | now apply Z.pow_pos_nonneg]).
  set (W := A / d).
  assert (HW : 0 <= W) by (apply Z.div_pos; lia).
  set (t := Z.max 0 (Z.log2 W - 52)).
  assert (Ht : 0 <= t) by lia.
  assert (H2t : 0 < 2 ^ t) by (now apply Z.pow_pos_nonneg).
  pose proof (roundHalfEven_bounds A (d * 2 ^ t)) as Hq.
  rewrite <- Z.div_div in Hq by lia. fold W in Hq.
  set (q := roundHalfEven A (d * 2 ^ t)) in *.
  assert (Hrange : W / 2 ^ t < 2 ^ 53 /\ (2 ^ 52 <= W / 2 ^ t \/ t = 0)).
  { destruct (Z.eq_dec W 0) as [HW0 | HW0].
    - rewrite HW0. rewrite Z.div_0_l by lia. split; [reflexivity |].
      right. unfold t. rewrite HW0. reflexivity.
    - destruct (Z.log2_spec W ltac:(lia)) as [Hlo Hhi].
      destruct (Z.le_gt_cases 52 (Z.log2 W)) as [Hbig | Hsmall].
      + assert (Htl : Z.log2 W = 52 + t) by lia.
        rewrite Htl in Hlo.
        replace (Z.succ (Z.log2 W)) with (53 + t) in Hhi by lia.
        rewrite Z.pow_add_r in Hlo, Hhi by lia.
        split; [apply Z.div_lt_upper_bound; lia |].
        left. apply Z.div_le_lower_bound; lia.
      + assert (Ht0 : t = 0) by lia. rewrite Ht0. simpl (2 ^ 0). rewrite Z.div_1_r.
        split; [| now right].
        eapply Z.lt_le_trans; [exact Hhi |].
        apply Z.pow_le_mono_r; lia. }
  destruct Hrange as [Hhi Hlo].
  destruct (Z.eqb_spec q (2 ^ 53)) as [Hq53 | Hq53].
  - destruct (Z.ltb_spec 2045 (t + 1)); [discriminate |].
    intros Hsome. injection Hsome as _ <- <-.
    split; [lia |]. split; [reflexivity |]. left. reflexivity.
  - destruct (Z.ltb_spec 2045 t); [discriminate |].
    destruct q as [| p | p]; try discriminate.
    intros Hsome. injection Hsome as _ <- <-.
    split; [lia |]. split; [lia |]. lia.
Qed.

Lemma parseDecimal_canonical neg digits exp10 s m e :
  parseDecimal neg digits exp10 = Some (S754_finite s m e) -> canonical m e.
Proof.
  unfold parseDecimal. destruct (Z.leb_spec digits 0); [discriminate |].
  pose proof (p10_pos exp10). pose proof (p10_pos (- exp10)).
  apply round_ratio_canonical; nia.
Qed.

Lemma fmtE_hasExponent digs dp : hasExponent (fmtE digs dp).
Proof.
  unfold hasExponent, mentions, fmtE.
  eexists _, _. reflexivity.
Qed.

Lemma plain_app a b : plain a -> plain b -> plain (a ++ b)%string.
Proof.
  unfold plain. induction a as [| c a IH]; simpl; [auto |].
  intros Ha Hb. apply Forall_cons in Ha as [Hc Ha]. constructor; auto.
Qed.

Lemma plain_not_hasExponent text : plain text -> ~ hasExponent text.
Proof.
  unfold plain, hasExponent, mentions. intros Hp (before & after & ->).
  induction before as [| c before IH]; simpl in Hp.
  - apply Forall_cons in Hp as [Hc _]. now apply Hc.
  - apply Forall_cons in Hp as [_ Hp]. auto.
Qed.

Lemma plain_zeros n : plain (zeros n).
Proof.
  unfold plain. induction n as [| n IH]; simpl; constructor; [discriminate | exact IH].
Qed.

Lemma plain_substring n m s : plain s -> plain (String.substring n m s).
Proof.
  unfold plain. revert n m. induction s as [| c s IH]; intros n m Hs.
  - destruct n, m; simpl; constructor.
  - apply Forall_cons in Hs as [Hc Hs].
    destruct n as [| n]; [destruct m as [| m] |]; simpl.
    + constructor.
    + constructor; [exact Hc | now apply IH].
    + now apply IH.
Qed.

Lemma plain_string_of_uint d : plain (NilZero.string_of_uint d).
Proof.
  unfold plain, NilZero.string_of_uint.
  destruct d as [| d | d | d | d | d | d | d | d | d | d];
    [repeat constructor; discriminate | ..];
    cbn [Decimal.uint_rect];
    (constructor; [discriminate |]);
    induction d as [| d IH | d IH | d IH | d IH | d IH | d IH | d IH | d IH | d IH | d IH];
    simpl; try constructor; try discriminate; try exact IH.
Qed.

Lemma plain_itoa n : plain (itoa n).
Proof. apply plain_string_of_uint. Qed.

Lemma plain_fmtF digs dp : plain digs -> plain (fmtF digs dp).
Proof.
  intros Hd. unfold fmtF.
  destruct (0 <? dp).
  - destruct (_ <=? dp).
    + apply plain_app; [exact Hd | apply plain_zeros].
    + apply plain_app; [now apply plain_substring |].
      apply plain_app; [repeat constructor; discriminate |].
      now apply plain_substring.
  - destruct (_ =? 0); [repeat constructor; discriminate |].
    apply plain_app; [repeat constructor; discriminate |].
    apply plain_app; [apply plain_zeros | exact Hd].
Qed.

Lemma ndigits_pos n : 0 < ndigits n.
Proof.
  unfold ndigits, itoa, NilZero.string_of_uint.
  destruct (N.to_uint (Z.to_N n)); simpl; lia.
Qed.

Lemma fmt_g_hasExponent (s : bool) digs dp :
  plain digs ->
  hasExponent ((if s then "-" else "")
                 ++ (if usesExponent dp then fmtE digs dp else fmtF digs dp))%string
  <-> usesExponent dp = true.
Proof.
  intros Hd. destruct (usesExponent dp); split; try done.
  - intros _. destruct (fmtE_hasExponent digs dp) as (before & after & ->).
    exists ((if s then "-" else "") ++ before)%string, after.
    destruct s; reflexivity.
  - intros Hex. exfalso. revert Hex. apply plain_not_hasExponent.
    apply plain_app; [destruct s; repeat constructor; discriminate |].
    now apply plain_fmtF.
Qed.

Lemma parseNumber_canonical text s m e rest :
  parseNumber text = Some (S754_finite s m e, rest) -> canonical m e.
Proof.
  unfold parseNumber.
  destruct (takeSign text) as [neg s1].
  destruct (parseInt s1) as [[iv s2] |]; [| discriminate].
  destruct (parseFrac iv s2) as [[[digits nfrac] s3] |]; [| discriminate].
  destruct (parseExp s3) as [[ex s4] |]; [| discriminate].
  destruct (parseDecimal neg digits (ex - nfrac)) as [f |] eqn:Hp; [| discriminate].
  intros H. injection H as -> _.
  exact (parseDecimal_canonical _ _ _ _ _ _ Hp).
Qed.

(** *** No shorter decimal reads back *)

Lemma roundHalfEven_scale N D c :
  0 < D -> 0 < c -> roundHalfEven (N * c) (D * c) = roundHalfEven N D.
Proof.
  intros HD Hc. unfold roundHalfEven.
  rewrite Z.div_mul_cancel_r by lia.
  rewrite Zmult_mod_distr_r.
  pose proof (Z.mod_pos_bound N D HD) as Hr.
  set (r := N mod D) in *. set (q := N / D).
  destruct (Z.ltb_spec (2 * r) D), (Z.ltb_spec (2 * (r * c)) (D * c));
    try reflexivity; try nia.
  destruct (Z.ltb_spec D (2 * r)), (Z.ltb_spec (D * c) (2 * (r * c)));
    try reflexivity; nia.
Qed.

Lemma div_sameRatio a d a' d' :
  0 < d -> 0 < d' -> a * d' = a' * d -> a / d = a' / d'.
Proof.
  intros Hd Hd' Hsame.
  rewrite <- (Z.div_mul_cancel_r a d d') by lia.
  rewrite Hsame, (Z.mul_comm d d').
  apply Z.div_mul_cancel_r; lia.
Qed.

Lemma roundHalfEven_sameRatio a d a' d' :
  0 < d -> 0 < d' -> a * d' = a' * d ->
  roundHalfEven a d = roundHalfEven a' d'.
Proof.
  intros Hd Hd' Hsame.
  rewrite <- (roundHalfEven_scale a d d') by assumption.
  rewrite <- (roundHalfEven_scale a' d' d) by assumption.
  rewrite Hsame. f_equal. lia.
Qed.

(** Two fractions of the same value round to the same [float64]. *)
Lemma round_ratio_sameRatio neg n d n' d' :
  0 < d -> 0 < d' -> sameRatio n d n' d' ->
  round_ratio neg n d = round_ratio neg n' d'.
Proof.
  unfold sameRatio. intros Hd Hd' Hsame. unfold round_ratio.
  assert (HW : n * 2 ^ 1074 / d = n' * 2 ^ 1074 / d').
  { apply div_sameRatio; [assumption | assumption |]. nia. }
  rewrite HW.
  set (t := Z.max 0 (Z.log2 (n' * 2 ^ 1074 / d') - 52)).
  assert (Ht : 0 < 2 ^ t) by (apply Z.pow_pos_nonneg; lia).
  assert (Hq : roundHalfEven (n * 2 ^ 1074) (d * 2 ^ t)
               = roundHalfEven (n' * 2 ^ 1074) (d' * 2 ^ t)).
  { apply roundHalfEven_sameRatio; [nia | nia |]. nia. }
  now rewrite Hq.
Qed.

Lemma roundHalfEven_within N D :
  0 < D ->
  (2 * roundHalfEven N D - 1) * D <= 2 * N <= (2 * roundHalfEven N D + 1) * D.
Proof.
  intros HD. unfold roundHalfEven.
  pose proof (Z.div_mod N D ltac:(lia)) as Hdm.
  pose proof (Z.mod_pos_bound N D HD) as Hr.
  set (q := N / D) in *. set (r := N mod D) in *.
  destruct (Z.ltb_spec (2 * r) D); [nia |].
  destruct (Z.ltb_spec D (2 * r)); [nia |].
  destruct (Z.even q); nia.
Qed.

(** What [round_ratio] rounds to a [float64] lies between the midpoints
    from it to its two neighbours, the midpoints included. *)
Lemma round_ratio_within neg n d s m e :
  0 < n -> 0 < d ->
  round_ratio neg n d = Some (S754_finite s m e) ->
  let A := n * 2 ^ 1074 in
  let T := 2 ^ (e + 1074) in
  (2 * Z.pos m - 1) * T * d <= 2 * A <= (2 * Z.pos m + 1) * T * d
  /\ (Z.pos m = 2 ^ 52 -> -1074 < e -> (4 * Z.pos m - 1) * T * d <= 4 * A).
Proof.
  intros Hn Hd. unfold round_ratio.
  set (A := n * 2 ^ 1074).
  assert (HA : 0 < A) by (unfold A; apply Z.mul_pos_pos; [lia | now apply Z.pow_pos_nonneg]).
  set (W := A / d).
  assert (HW : 0 <= W) by (apply Z.div_pos; lia).
  set (t := Z.max 0 (Z.log2 W - 52)).
  assert (Ht : 0 <= t) by lia.
  assert (H2t : 0 < 2 ^ t) by (now apply Z.pow_pos_nonneg).
  pose proof (roundHalfEven_within A (d * 2 ^ t) ltac:(nia)) as Hq.
  set (q := roundHalfEven A (d * 2 ^ t)) in *.
  destruct (Z.eqb_spec q (2 ^ 53)) as [Hq53 | Hq53].
  - destruct (Z.ltb_spec 2045 (t + 1)); [discriminate |].
    intros Hsome. injection Hsome as _ <- <-. cbv zeta.
    replace (t + 1 - 1074 + 1074) with (t + 1) by lia.
    rewrite Z.pow_add_r by lia. change (2 ^ 1) with 2.
    rewrite Hq53 in Hq. change (Z.pos (2 ^ 52)) with (2 ^ 52).
    change (2 ^ 53) with (2 * 2 ^ 52) in Hq.
    split; [nia |]. intros _ _. nia.
  - destruct (Z.ltb_spec 2045 t); [discriminate |].
    destruct q as [| p | p] eqn:Hqp; try discriminate.
    intros Hsome. injection Hsome as _ <- <-. cbv zeta.
    replace (t - 1074 + 1074) with t by lia.
    split; [nia |]. intros Hm Ht0.
    assert (Htpos : 0 < t) by lia.
    assert (Hlog : Z.log2 W = t + 52) by lia.
    assert (HWpos : 0 < W).
    { destruct (Z.eq_dec W 0) as [HW0 | ?]; [| lia].
      rewrite HW0 in Hlog. simpl in Hlog. lia. }
    destruct (Z.log2_spec W HWpos) as [Hlo _]. rewrite Hlog in Hlo.
    rewrite Z.pow_add_r in Hlo by lia.
    pose proof (Z.mul_div_le A d Hd) as Hdiv. fold W in Hdiv.
    rewrite Hm. nia.
Qed.

(** [a / b < 10^(X+1)] for [X = floorLog10 a b]. *)
Lemma floorLog10_lt a b :
  0 < a -> 0 < b -> ratio_ge_pow10 a b (floorLog10 a b + 1) = false.
Proof.
  intros Ha Hb. unfold floorLog10.
  destruct (ratio_ge_pow10 a b (width a - width b)) eqn:Hge.
  - unfold ratio_ge_pow10. apply Z.leb_gt.
    destruct (width_spec a Ha) as [_ Hahi]. destruct (width_spec b Hb) as [Hblo _].
    pose proof (width_pos a Ha). pose proof (width_pos b Hb).
    set (wa := width a) in *. set (wb := width b) in *.
    unfold p10.
    destruct (Z.le_gt_cases 0 (wa - wb + 1)) as [Hp | Hp].
    + replace (Z.max (wa - wb + 1) 0) with (wa - wb + 1) by lia.
      replace (Z.max (- (wa - wb + 1)) 0) with 0 by lia. simpl (10 ^ 0).
      assert (10 ^ wa = 10 ^ (wb - 1) * 10 ^ (wa - wb + 1)).
      { rewrite <- Z.pow_add_r by lia. f_equal. lia. }
      assert (0 < 10 ^ (wa - wb + 1)) by (apply Z.pow_pos_nonneg; lia).
      nia.
    + replace (Z.max (wa - wb + 1) 0) with 0 by lia.
      replace (Z.max (- (wa - wb + 1)) 0) with (wb - wa - 1) by lia. simpl (10 ^ 0).
      assert (10 ^ (wb - 1) = 10 ^ wa * 10 ^ (wb - wa - 1)).
      { rewrite <- Z.pow_add_r by lia. f_equal. lia. }
      assert (0 < 10 ^ (wb - wa - 1)) by (apply Z.pow_pos_nonneg; lia).
      nia.
  - now replace (width a - width b - 1 + 1) with (width a - width b) by lia.
Qed.

(** *** The number of digits of a decimal *)

Lemma of_lu_bound d :
  (DecimalPos.Unsigned.of_lu d < 10 ^ DecimalPos.Unsigned.usize d)%N.
Proof.
  induction d; cbn [DecimalPos.Unsigned.of_lu DecimalPos.Unsigned.usize];
    rewrite ?N.pow_succ_r'; simpl (10 ^ 0)%N; lia.
Qed.

Lemma usize_nb_digits d :
  DecimalPos.Unsigned.usize d = N.of_nat (Decimal.nb_digits d).
Proof.
  induction d; cbn [DecimalPos.Unsigned.usize Decimal.nb_digits];
    rewrite ?IHd; lia.
Qed.

Lemma length_string_of_uint d :
  String.length (NilEmpty.string_of_uint d) = Decimal.nb_digits d.
Proof. induction d; simpl; congruence. Qed.

Lemma to_uint_leading p :
  match Pos.to_uint p with
  | Decimal.Nil | Decimal.D0 _ => False
  | _ => True
  end.
Proof.
  pose proof (DecimalPos.Unsigned.to_of (Pos.to_uint p)) as Hnorm.
  rewrite DecimalPos.Unsigned.of_to in Hnorm. cbn [N.to_uint] in Hnorm.
  pose proof (DecimalPos.Unsigned.to_uint_nonzero p) as Hnz.
  pose proof (DecimalPos.Unsigned.to_uint_nonnil p) as Hnn.
  destruct (Pos.to_uint p) as [| d' | | | | | | | | |] eqn:Hd; try exact I.
  - now apply Hnn.
  - rewrite DecimalFacts.unorm_D0 in Hnorm.
    destruct (Decimal.uint_eq_dec d' Decimal.Nil) as [-> | Hd'].
    + now apply Hnz.
    + pose proof (DecimalFacts.nb_digits_unorm d' Hd') as Hle.
      rewrite <- Hnorm in Hle. simpl in Hle. lia.
Qed.

Lemma ndigits_spec c : 0 < c -> 10 ^ (ndigits c - 1) <= c < 10 ^ ndigits c.
Proof.
  intros Hc. unfold ndigits, itoa.
  destruct c as [| p | p]; try lia. cbn [Z.to_N N.to_uint].
  pose proof (DecimalPos.Unsigned.of_to p) as Hval.
  rewrite DecimalPos.Unsigned.of_uint_alt in Hval.
  pose proof (to_uint_leading p) as Hlead.
  pose proof (of_lu_bound (Decimal.rev (Pos.to_uint p))) as Hhi.
  rewrite usize_nb_digits, DecimalFacts.nb_digits_rev, Hval in Hhi.
  assert (Hlen : String.length (NilZero.string_of_uint (Pos.to_uint p))
                 = Decimal.nb_digits (Pos.to_uint p)).
  { unfold NilZero.string_of_uint.
    destruct (Pos.to_uint p); [contradiction | ..]; apply length_string_of_uint. }
  rewrite Hlen.
  assert (Hlo : (10 ^ N.of_nat (Decimal.nb_digits (Pos.to_uint p) - 1) <= N.pos p)%N).
  { rewrite <- Hval.
    destruct (Pos.to_uint p) as [| d | d | d | d | d | d | d | d | d | d];
      try contradiction;
      unfold Decimal.rev; cbn [Decimal.revapp Decimal.nb_digits];
      rewrite DecimalPos.Unsigned.of_lu_revapp, usize_nb_digits;
      cbn [DecimalPos.Unsigned.of_lu];
      replace (S (Decimal.nb_digits d) - 1)%nat with (Decimal.nb_digits d) by lia;
      lia. }
  split.
  - destruct (Decimal.nb_digits (Pos.to_uint p)) as [| k] eqn:Hk.
    + simpl. lia.
    + replace (Z.of_nat (S k) - 1) with (Z.of_nat k) by lia.
      replace (S k - 1)%nat with k in Hlo by lia.
      apply N2Z.inj_le in Hlo. rewrite N2Z.inj_pow, nat_N_Z in Hlo.
      exact Hlo.
  - apply N2Z.inj_lt in Hhi. rewrite N2Z.inj_pow, nat_N_Z in Hhi. exact Hhi.
Qed.

Lemma ndigits_le c n : 0 < c -> c < 10 ^ n -> ndigits c <= n.
Proof.
  intros Hc Hlt. destruct (ndigits_spec c Hc) as [Hlo _].
  destruct (Z.le_gt_cases (ndigits c) n) as [? | Hgt]; [assumption |].
  assert (0 <= n).
  { destruct (Z.le_gt_cases 0 n); [assumption |].
    rewrite Z.pow_neg_r in Hlt by lia. lia. }
  assert (10 ^ n <= 10 ^ (ndigits c - 1)) by (apply Z.pow_le_mono_r; lia).
  lia.
Qed.

Lemma stripZeros_le fuel c q c' q' :
  0 < c -> stripZeros fuel c q = (c', q') -> 0 < c' <= c.
Proof.
  revert c q. induction fuel as [| fuel IH]; intros c q Hc Hs; simpl in Hs.
  - injection Hs as <- <-. lia.
  - destruct (Z.eqb_spec (c mod 10) 0) as [Hmod | _]; simpl in Hs.
    + destruct (Z.ltb_spec 0 c); [| lia].
      pose proof (Z.div_mod c 10 ltac:(lia)) as Hdm. rewrite Hmod in Hdm.
      destruct (IH (c / 10) (q + 1) ltac:(lia) Hs). lia.
    + injection Hs as <- <-. lia.
Qed.

Lemma stripZeros_pow10 (n fuel : nat) q :
  (n <= fuel)%nat -> fst (stripZeros fuel (10 ^ Z.of_nat n) q) = 1.
Proof.
  revert fuel q. induction n as [| n IH]; intros fuel q Hn.
  - destruct fuel; reflexivity.
  - destruct fuel as [| fuel]; [lia |].
    assert (Hpow : 10 ^ Z.of_nat (S n) = 10 ^ Z.of_nat n * 10).
    { rewrite Nat2Z.inj_succ, Z.pow_succ_r by lia. lia. }
    assert (Hpos : 0 < 10 ^ Z.of_nat n) by (apply Z.pow_pos_nonneg; lia).
    cbn [stripZeros]. rewrite Hpow, Z.mod_mul by lia. rewrite Z.div_mul by lia.
    destruct (Z.ltb_spec 0 (10 ^ Z.of_nat n * 10)); [| lia].
    cbn [Z.eqb andb]. apply IH. lia.
Qed.

(** A decimal of the same value as a fraction that rounds to
    [m * 2^e] reads back as [m * 2^e]. *)
Lemma readsBack_sameRatio m e n d c q :
  0 < d -> 0 < c ->
  sameRatio n d (c * p10 q) (p10 (- q)) ->
  round_ratio false n d = Some (S754_finite false m e) ->
  readsBack m e (normalDecimal c q) = true.
Proof.
  intros Hd Hc Hsame Hround. unfold readsBack, normalDecimal.
  destruct (stripZeros 20 c q) as [c' q'] eqn:Hs.
  destruct (stripZeros_value _ _ _ _ _ Hc Hs) as [Hc' Hsame'].
  simpl fst. simpl snd. unfold parseDecimal.
  destruct (Z.leb_spec c' 0); [lia |].
  pose proof (p10_pos q'). pose proof (p10_pos (- q')). pose proof (p10_pos (- q)).
  pose proof (p10_pos q).
  rewrite <- (round_ratio_sameRatio false n d); [now rewrite Hround, sameFloat_refl | lia | lia |].
  unfold sameRatio in *.
  apply (Z.mul_reg_r _ _ (p10 (- q))); [lia |].
  transitivity (n * p10 (- q) * p10 (- q')); [lia |].
  rewrite Hsame.
  transitivity (c * p10 q * p10 (- q') * d); [lia |].
  rewrite Hsame'. lia.
Qed.

(** [10^(n-1) <= x / 10^q] for the exponent [q] of the last of [n]
    digits. *)
Lemma scaled_at_least m e n :
  -1074 <= e -> 1 <= n ->
  let X := decimalExponent m e in
  let q := X - n + 1 in
  10 ^ (n - 1) * (unitDenominator * p10 q) <= scaledValue m e * p10 (- q).
Proof.
  intros He Hn X q.
  set (V := scaledValue m e). set (U := unitDenominator).
  assert (HU : 0 < U) by (now apply Z.pow_pos_nonneg).
  assert (HV : 0 < V).
  { unfold V, scaledValue. apply Z.mul_pos_pos; [lia |].
    apply Z.pow_pos_nonneg; lia. }
  pose proof (p10_pos q) as Hpq. pose proof (p10_pos (- q)) as Hpnq.
  pose proof (p10_pos X) as HpX. pose proof (p10_pos (- X)) as HpnX.
  assert (HX : U * p10 X <= V * p10 (- X)).
  { apply Z.leb_le. apply (floorLog10_le V U); assumption. }
  pose proof (p10_shift q (n - 1) ltac:(lia)) as Hshift.
  replace (q + (n - 1)) with X in Hshift by (unfold q; lia).
  apply (Z.mul_le_mono_pos_r _ _ (p10 (- X))); [assumption |].
  transitivity (U * (10 ^ (n - 1) * p10 q * p10 (- X))); [lia |].
  rewrite <- Hshift.
  transitivity (U * p10 X * p10 (- q)); [lia |].
  transitivity (V * p10 (- X) * p10 (- q)); [| lia].
  apply Z.mul_le_mono_nonneg_r; [lia | assumption].
Qed.

(** A decimal of at most [n] digits that reads back as [m * 2^e] is not
    above the decimal of [n] digits next below [m * 2^e], which reads
    back then, or not below the one next above [m * 2^e], which reads
    back then. *)
Lemma neighbour_reads_back m e n c' q' :
  canonical m e -> 1 <= n -> 0 < c' < 10 ^ n ->
  parseDecimal false c' q' = Some (S754_finite false m e) ->
  let q := decimalExponent m e - n + 1 in
  let k := scaledValue m e * p10 (- q) / (unitDenominator * p10 q) in
  (c' * p10 q' * p10 (- q) <= k * p10 q * p10 (- q')
   /\ readsBack m e (normalDecimal k q) = true)
  \/ ((k + 1) * p10 q * p10 (- q') <= c' * p10 q' * p10 (- q)
      /\ readsBack m e (normalDecimal (k + 1) q) = true).
Proof.
  intros Hcan Hn Hc' Hparse. pose proof Hcan as (He & Hm & Hnorm).
  pose proof (scaled_at_least m e n ltac:(lia) Hn) as Hscale. cbv zeta in Hscale.
  cbv zeta.
  set (X := decimalExponent m e) in *.
  set (q := X - n + 1) in *.
  set (V := scaledValue m e) in *. set (U := unitDenominator) in *.
  set (a := V * p10 (- q)) in *. set (b := U * p10 q) in *.
  set (T := 2 ^ (e + 1074)).
  assert (HT : 0 < T) by (apply Z.pow_pos_nonneg; lia).
  assert (HU : 0 < U) by (now apply Z.pow_pos_nonneg).
  assert (HV : V = Z.pos m * T) by reflexivity.
  pose proof (p10_pos q) as Hpq. pose proof (p10_pos (- q)) as Hpnq.
  pose proof (p10_pos q') as Hpq'. pose proof (p10_pos (- q')) as Hpnq'.
  assert (Hb : 0 < b) by (unfold b; nia).
  set (dq := p10 (- q)) in *.
  assert (Ha : a = Z.pos m * (T * dq)) by (unfold a; rewrite HV; lia).
  assert (HTd : 0 < T * dq) by nia.
  pose proof (Z.div_mod a b ltac:(lia)) as Hdm.
  pose proof (Z.mod_pos_bound a b Hb) as Hr.
  set (k := a / b) in *. set (r := a mod b) in *.
  assert (H10 : 0 < 10 ^ (n - 1)) by (apply Z.pow_pos_nonneg; lia).
  assert (Hk : 10 ^ (n - 1) <= k).
  { apply Z.div_le_lower_bound; [assumption | lia]. }
  (* the decimal that reads back, as a fraction *)
  unfold parseDecimal in Hparse.
  destruct (Z.leb_spec c' 0); [lia |].
  set (N' := c' * p10 q') in *. set (D' := p10 (- q')) in *.
  assert (HN' : 0 < N') by (unfold N'; nia).
  destruct (round_ratio_within false N' D' false m e HN' Hpnq' Hparse)
    as [[Hlow Hhigh] Hquarter].
  fold T in Hlow, Hhigh, Hquarter. change (2 ^ 1074) with U in Hlow, Hhigh, Hquarter.
  (* its place among the decimals of [n] digits *)
  assert (Hgrid : N' * dq < k * p10 q * D'
                  \/ exists j, N' * dq = j * p10 q * D').
  { destruct (Z.le_gt_cases q q') as [Hqq | Hqq].
    - right. exists (c' * 10 ^ (q' - q)).
      pose proof (p10_shift q (q' - q) ltac:(lia)) as Hshift.
      replace (q + (q' - q)) with q' in Hshift by lia.
      unfold N', D', dq. nia.
    - left.
      pose proof (p10_shift q' (q - q') ltac:(lia)) as Hshift.
      replace (q' + (q - q')) with q in Hshift by lia.
      assert (Hj : 10 <= 10 ^ (q - q')).
      { change 10 with (10 ^ 1) at 1. apply Z.pow_le_mono_r; lia. }
      assert (Hn10 : 10 ^ n = 10 ^ (n - 1) * 10).
      { replace n with (n - 1 + 1) at 1 by lia.
        rewrite Z.pow_add_r by lia. reflexivity. }
      assert (Hck : c' < k * 10 ^ (q - q')).
      { assert (10 ^ (n - 1) * 10 <= k * 10 ^ (q - q'))
          by (apply Z.mul_le_mono_nonneg; lia).
        lia. }
      unfold N', D', dq.
      replace (k * p10 q * p10 (- q')) with (k * (p10 q * p10 (- q'))) by lia.
      rewrite Hshift.
      assert (Hpp : 0 < p10 q' * p10 (- q)) by (now apply Z.mul_pos_pos).
      replace (c' * p10 q' * p10 (- q)) with (c' * (p10 q' * p10 (- q))) by lia.
      replace (k * (10 ^ (q - q') * p10 q' * p10 (- q)))
        with (k * 10 ^ (q - q') * (p10 q' * p10 (- q))) by lia.
      now apply Z.mul_lt_mono_pos_r. }
  assert (Hlo : forall n0 d0,
             0 < d0 ->
             N' * d0 < n0 * D' ->
             forall L c0, 0 < c0 -> L * D' <= c0 * (N' * U) -> L * d0 < c0 * (n0 * U)).
  { intros n0 d0 Hd0 Hlt L c0 Hc0 HL.
    apply (Z.mul_lt_mono_pos_r D'); [assumption |].
    assert (L * D' * d0 <= c0 * (N' * U) * d0) by (apply Z.mul_le_mono_nonneg_r; lia).
    assert (c0 * U * (N' * d0) < c0 * U * (n0 * D')).
    { apply Z.mul_lt_mono_pos_l; [nia | assumption]. }
    lia. }
  assert (Hhi : forall n0 d0,
             0 < d0 ->
             n0 * D' < N' * d0 ->
             forall L c0, 0 < c0 -> c0 * (N' * U) <= L * D' -> c0 * (n0 * U) < L * d0).
  { intros n0 d0 Hd0 Hlt L c0 Hc0 HL.
    apply (Z.mul_lt_mono_pos_r D'); [assumption |].
    assert (c0 * (N' * U) * d0 <= L * D' * d0) by (apply Z.mul_le_mono_nonneg_r; lia).
    assert (c0 * U * (n0 * D') < c0 * U * (N' * d0)).
    { apply Z.mul_lt_mono_pos_l; [nia | assumption]. }
    lia. }
  assert (Hbelow : N' * dq < k * p10 q * D' ->
                   readsBack m e (normalDecimal k q) = true).
  { intros Hlt. apply readsBack_nearest; [assumption | lia |].
    unfold nearerThanNeighbours. cbv zeta. fold T. fold dq.
    change (2 ^ 1074) with U.
    split; [split |].
    - apply (Hlo (k * p10 q) dq Hpnq Hlt ((2 * Z.pos m - 1) * T) 2); lia.
    - replace (k * p10 q * U) with (k * b) by (unfold b; lia).
      replace ((2 * Z.pos m + 1) * T * dq) with (2 * a + T * dq) by (rewrite Ha; lia).
      lia.
    - intros Hm52 Hegt. specialize (Hquarter Hm52 Hegt).
      apply (Hlo (k * p10 q) dq Hpnq Hlt ((4 * Z.pos m - 1) * T) 4); lia. }
  assert (Habove : (k + 1) * p10 q * D' < N' * dq ->
                   readsBack m e (normalDecimal (k + 1) q) = true).
  { intros Hlt. apply readsBack_nearest; [assumption | lia |].
    unfold nearerThanNeighbours. cbv zeta. fold T. fold dq.
    change (2 ^ 1074) with U.
    split; [split |].
    - replace ((k + 1) * p10 q * U) with (k * b + b) by (unfold b; lia).
      replace ((2 * Z.pos m - 1) * T * dq) with (2 * a - T * dq) by (rewrite Ha; lia).
      lia.
    - apply (Hhi ((k + 1) * p10 q) dq Hpnq Hlt ((2 * Z.pos m + 1) * T) 2); lia.
    - intros _ _.
      replace ((k + 1) * p10 q * U) with (k * b + b) by (unfold b; lia).
      replace ((4 * Z.pos m - 1) * T * dq) with (4 * a - T * dq) by (rewrite Ha; lia).
      lia. }
  assert (Hsame : forall j, 0 < j -> N' * dq = j * p10 q * D' ->
                            readsBack m e (normalDecimal j q) = true).
  { intros j Hj Heq.
    apply (readsBack_sameRatio m e N' D'); [assumption | assumption | | assumption].
    unfold sameRatio. fold dq. lia. }
  fold N'. fold D'.
  destruct Hgrid as [Hlt | (j & Hj)]; [left; split; [lia | now apply Hbelow] |].
  assert (Hpp : 0 < p10 q * D') by (now apply Z.mul_pos_pos).
  assert (Hmono : forall x y, x < y -> x * p10 q * D' < y * p10 q * D').
  { intros x y Hxy. rewrite <- !Z.mul_assoc. now apply Z.mul_lt_mono_pos_r. }
  destruct (Z.lt_trichotomy j k) as [Hjk | [Hjk | Hjk]].
  - left. assert (Hlt : N' * dq < k * p10 q * D') by (rewrite Hj; now apply Hmono).
    split; [lia | now apply Hbelow].
  - left. subst j. split; [lia | apply Hsame; [lia | assumption]].
  - destruct (Z.eq_dec j (k + 1)) as [-> | Hne].
    + right. split; [lia | apply Hsame; [lia | assumption]].
    + right.
      assert (Hlt : (k + 1) * p10 q * D' < N' * dq) by (rewrite Hj; apply Hmono; lia).
      split; [lia | now apply Habove].
Qed.

(** If a decimal of at most [n] digits reads back as [m * 2^e], so does
    one of the two decimals of [n] digits next to [m * 2^e]. *)
Lemma candidate_of_shorter m e n c' q' :
  canonical m e -> 1 <= n -> 0 < c' < 10 ^ n ->
  parseDecimal false c' q' = Some (S754_finite false m e) ->
  candidate m e (decimalExponent m e) n <> None.
Proof.
  intros Hcan Hn Hc' Hparse.
  pose proof (neighbour_reads_back m e n c' q' Hcan Hn Hc' Hparse) as Hone.
  cbv zeta in Hone. unfold candidate. cbv zeta.
  destruct (readsBack m e (normalDecimal _ _)),
           (readsBack m e (normalDecimal (_ + 1) _)); try discriminate.
  destruct Hone as [[_ H] | [_ H]]; discriminate H.
Qed.


(** [x / 10^q < 10^n] for the exponent [q] of the last of [n] digits. *)
Lemma scaled_less m e n :
  -1074 <= e -> 1 <= n ->
  let X := decimalExponent m e in
  let q := X - n + 1 in
  scaledValue m e * p10 (- q) < 10 ^ n * (unitDenominator * p10 q).
Proof.
  intros He Hn X q.
  set (V := scaledValue m e). set (U := unitDenominator).
  assert (HU : 0 < U) by (now apply Z.pow_pos_nonneg).
  assert (HV : 0 < V).
  { unfold V, scaledValue. apply Z.mul_pos_pos; [lia |].
    apply Z.pow_pos_nonneg; lia. }
  pose proof (p10_pos q) as Hpq. pose proof (p10_pos (- q)) as Hpnq.
  pose proof (p10_pos (X + 1)) as HpX. pose proof (p10_pos (- (X + 1))) as HpnX.
  assert (HX : V * p10 (- (X + 1)) < U * p10 (X + 1)).
  { apply Z.leb_gt. apply (floorLog10_lt V U); assumption. }
  pose proof (p10_shift q n ltac:(lia)) as Hshift.
  replace (q + n) with (X + 1) in Hshift by (unfold q; lia).
  apply (Z.mul_lt_mono_pos_r (p10 (- (X + 1)))); [assumption |].
  replace (10 ^ n * (U * p10 q) * p10 (- (X + 1)))
    with (U * (10 ^ n * p10 q * p10 (- (X + 1)))) by lia.
  rewrite <- Hshift.
  replace (V * p10 (- q) * p10 (- (X + 1)))
    with (V * p10 (- (X + 1)) * p10 (- q)) by lia.
  replace (U * (p10 (X + 1) * p10 (- q)))
    with (U * p10 (X + 1) * p10 (- q)) by lia.
  now apply Z.mul_lt_mono_pos_r.
Qed.

(** A candidate of [n] digits has at most [n] digits. *)
Lemma candidate_digits m e n c q0 :
  canonical m e -> 1 <= n <= 17 ->
  candidate m e (decimalExponent m e) n = Some (c, q0) ->
  0 < c /\ ndigits c <= n.
Proof.
  intros Hcan Hn. pose proof Hcan as (He & Hm & Hnorm).
  pose proof (scaled_at_least m e n ltac:(lia) ltac:(lia)) as Hlow.
  pose proof (scaled_less m e n ltac:(lia) ltac:(lia)) as Hhigh.
  cbv zeta in Hlow, Hhigh.
  unfold candidate. cbv zeta.
  set (X := decimalExponent m e) in *.
  set (q := X - n + 1) in *.
  set (a := scaledValue m e * p10 (- q)) in *.
  set (b := unitDenominator * p10 q) in *.
  assert (Hb : 0 < b).
  { unfold b. apply Z.mul_pos_pos; [now apply Z.pow_pos_nonneg | apply p10_pos]. }
  assert (H10 : 0 < 10 ^ (n - 1)) by (apply Z.pow_pos_nonneg; lia).
  assert (Hk : 10 ^ (n - 1) <= a / b).
  { apply Z.div_le_lower_bound; [assumption | lia]. }
  assert (Hk' : a / b < 10 ^ n).
  { apply Z.div_lt_upper_bound; [assumption | lia]. }
  set (k := a / b) in *.
  assert (Hlo : forall c1 q1, normalDecimal k q = (c1, q1) -> 0 < c1 /\ ndigits c1 <= n).
  { intros c1 q1 Hs. destruct (stripZeros_le 20 k q c1 q1 ltac:(lia) Hs).
    split; [lia |]. apply ndigits_le; lia. }
  assert (Hhi : forall c1 q1, normalDecimal (k + 1) q = (c1, q1) ->
                              0 < c1 /\ ndigits c1 <= n).
  { intros c1 q1 Hs. destruct (stripZeros_le 20 (k + 1) q c1 q1 ltac:(lia) Hs).
    split; [lia |].
    destruct (Z.eq_dec (k + 1) (10 ^ n)) as [Heq | Hne].
    - assert (Hc1 : c1 = 1).
      { unfold normalDecimal in Hs. rewrite Heq in Hs.
        pose proof (stripZeros_pow10 (Z.to_nat n) 20 q ltac:(lia)) as Hone.
        rewrite Z2Nat.id in Hone by lia. now rewrite Hs in Hone. }
      rewrite Hc1. change (ndigits 1) with 1. lia.
    - apply ndigits_le; lia. }
  destruct (normalDecimal k q) as [c1 q1] eqn:Hn1.
  destruct (normalDecimal (k + 1) q) as [c2 q2] eqn:Hn2.
  specialize (Hlo c1 q1 eq_refl). specialize (Hhi c2 q2 eq_refl).
  destruct (readsBack m e (c1, q1)), (readsBack m e (c2, q2)); try discriminate.
  - destruct (_ ?= _); [destruct (Z.even _) | |]; intros H; injection H as <- <-;
      assumption.
  - intros H. now injection H as <- <-.
  - intros H. now injection H as <- <-.
Qed.

Lemma parseDecimal_unsigned s c q m e :
  parseDecimal s c q = Some (S754_finite s m e) ->
  parseDecimal false c q = Some (S754_finite false m e).
Proof.
  rewrite parseDecimal_sign.
  destruct (parseDecimal false c q) as [f |] eqn:Hf; [| discriminate].
  cbn [option_map]. intros H. injection H as H.
  unfold parseDecimal in Hf. destruct (c <=? 0).
  - injection Hf as <-. discriminate H.
  - unfold round_ratio in Hf.
    destruct (if _ =? 2 ^ 53 then _ else _) as [mm ee].
    destruct (2045 <? ee); [discriminate |].
    destruct mm; injection Hf as <-; try discriminate H.
    cbn [withSign] in H. now injection H as -> ->.
Qed.

(** No decimal of fewer digits reads back as the number. *)
Lemma shortestDecimal_shortest s m e c q c' q' :
  canonical m e -> shortestDecimal m e = Some (c, q) ->
  ndigits c' < ndigits c ->
  parseDecimal s c' q' <> Some (S754_finite s m e).
Proof.
  intros Hcan Hfound Hshorter Hparse.
  apply parseDecimal_unsigned in Hparse.
  assert (Hc' : 0 < c').
  { destruct (Z.lt_ge_cases 0 c') as [? | Hle]; [assumption |].
    unfold parseDecimal in Hparse.
    destruct (Z.leb_spec c' 0); [discriminate | lia]. }
  unfold shortestDecimal in Hfound.
  destruct (searchFrom_first m e _ 1 17 (c, q) Hfound) as (k & Hk & Hc & Hnone).
  destruct (candidate_digits m e (1 + k) c q Hcan ltac:(lia) Hc) as [_ Hdigits].
  pose proof (ndigits_pos c') as Hpos.
  destruct (ndigits_spec c' Hc') as [_ Hupper].
  apply (candidate_of_shorter m e (ndigits c') c' q' Hcan ltac:(lia) ltac:(lia) Hparse).
  replace (ndigits c') with (1 + (ndigits c' - 1)) by lia.
  apply Hnone. lia.
Qed.

(** Of the decimals of at most [n] digits that read back as [m * 2^e],
    none is nearer to it than the candidate of [n] digits. *)
Lemma candidate_nearest m e n c q0 c' q' :
  canonical m e -> 1 <= n ->
  candidate m e (decimalExponent m e) n = Some (c, q0) ->
  0 < c' < 10 ^ n ->
  parseDecimal false c' q' = Some (S754_finite false m e) ->
  asNear m e c q0 c' q'.
Proof.
  intros Hcan Hn Hcand Hc' Hparse. pose proof Hcan as (He & Hm & Hnorm).
  pose proof (neighbour_reads_back m e n c' q' Hcan Hn Hc' Hparse) as Hside.
  pose proof (scaled_at_least m e n ltac:(lia) Hn) as Hscale.
  cbv zeta in Hside, Hscale.
  unfold candidate in Hcand. cbv zeta in Hcand. unfold asNear.
  set (q := decimalExponent m e - n + 1) in *.
  set (V := scaledValue m e) in *. set (U := unitDenominator) in *.
  set (a := V * p10 (- q)) in *. set (b := U * p10 q) in *.
  assert (HU : 0 < U) by (now apply Z.pow_pos_nonneg).
  pose proof (p10_pos q) as Hpq. pose proof (p10_pos (- q)) as Hpnq.
  pose proof (p10_pos q') as Hpq'. pose proof (p10_pos (- q')) as Hpnq'.
  pose proof (p10_pos (- q0)) as Hpnq0.
  assert (Hb : 0 < b) by (unfold b; now apply Z.mul_pos_pos).
  pose proof (Z.div_mod a b ltac:(lia)) as Hdm.
  pose proof (Z.mod_pos_bound a b Hb) as Hr.
  set (k := a / b) in *. set (r := a mod b) in *.
  assert (H10 : 0 < 10 ^ (n - 1)) by (apply Z.pow_pos_nonneg; lia).
  assert (Hk : 10 ^ (n - 1) <= k).
  { apply Z.div_le_lower_bound; [assumption | lia]. }
  set (dq := p10 (- q)) in *.
  set (N' := c' * p10 q') in *. set (D' := p10 (- q')) in *.
  set (E' := Z.abs (N' * U - V * D')).
  (* the distance of the decimal that reads back, on either side *)
  assert (Hleft : N' * dq <= k * p10 q * D' -> r * D' <= E' * dq).
  { intros Hle.
    assert (Hge : (V * D' - N' * U) * dq <= E' * dq).
    { apply Z.mul_le_mono_nonneg_r; [lia |]. unfold E'. lia. }
    assert (Hd : (V * D' - N' * U) * dq = a * D' - N' * dq * U) by (unfold a, dq; lia).
    assert (Hkb : N' * dq * U <= k * p10 q * D' * U)
      by (apply Z.mul_le_mono_nonneg_r; lia).
    assert (Hrd : r * D' = a * D' - k * p10 q * D' * U).
    { replace (k * p10 q * D' * U) with (k * b * D') by (unfold b; lia).
      replace (r * D') with ((a - b * k) * D') by (f_equal; lia). lia. }
    lia. }
  assert (Hright : (k + 1) * p10 q * D' <= N' * dq -> (b - r) * D' <= E' * dq).
  { intros Hle.
    assert (Hge : (N' * U - V * D') * dq <= E' * dq).
    { apply Z.mul_le_mono_nonneg_r; [lia |]. unfold E'. lia. }
    assert (Hd : (N' * U - V * D') * dq = N' * dq * U - a * D') by (unfold a, dq; lia).
    assert (Hkb : (k + 1) * p10 q * D' * U <= N' * dq * U)
      by (apply Z.mul_le_mono_nonneg_r; lia).
    assert (Hrd : (b - r) * D' = (k + 1) * p10 q * D' * U - a * D').
    { replace ((k + 1) * p10 q * D' * U) with ((k + 1) * b * D') by (unfold b; lia).
      replace ((b - r) * D') with (((k + 1) * b - a) * D') by (f_equal; lia). lia. }
    lia. }
  (* the distance of a candidate *)
  assert (Hdist : forall j c1 q1 delta,
             0 < j -> normalDecimal j q = (c1, q1) ->
             Z.abs (j * b - a) = delta ->
             delta * D' <= E' * dq ->
             Z.abs (c1 * p10 q1 * U - V * p10 (- q1)) * D' <= E' * p10 (- q1)).
  { intros j c1 q1 delta Hj Hnorm1 Hdelta Hle.
    destruct (stripZeros_value _ _ _ _ _ Hj Hnorm1) as [Hc1 Hsame].
    unfold sameRatio in Hsame. fold dq in Hsame.
    pose proof (p10_pos (- q1)) as Hpnq1.
    assert (Heq : (c1 * p10 q1 * U - V * p10 (- q1)) * dq
                  = (j * b - a) * p10 (- q1)).
    { unfold a, b.
      replace (c1 * p10 q1 * U * dq) with (c1 * p10 q1 * dq * U) by lia.
      rewrite Z.mul_sub_distr_r.
      replace (c1 * p10 q1 * U * dq) with (c1 * p10 q1 * dq * U) by lia.
      rewrite <- Hsame. fold dq. lia. }
    apply (Z.mul_le_mono_pos_r _ _ dq); [assumption |].
    replace (Z.abs (c1 * p10 q1 * U - V * p10 (- q1)) * D' * dq)
      with (Z.abs ((c1 * p10 q1 * U - V * p10 (- q1)) * dq) * D')
      by (rewrite Z.abs_mul, (Z.abs_eq dq) by lia; lia).
    rewrite Heq, Z.abs_mul, (Z.abs_eq (p10 (- q1))), Hdelta by lia.
    replace (delta * p10 (- q1) * D') with (delta * D' * p10 (- q1)) by lia.
    replace (E' * p10 (- q1) * dq) with (E' * dq * p10 (- q1)) by lia.
    apply Z.mul_le_mono_nonneg_r; lia. }
  assert (Hmono : forall x y, x <= y -> y * D' <= E' * dq -> x * D' <= E' * dq).
  { intros x y Hxy Hy. transitivity (y * D'); [| assumption].
    apply Z.mul_le_mono_nonneg_r; lia. }
  assert (Hdlo : Z.abs (k * b - a) = r) by lia.
  assert (Hdhi : Z.abs ((k + 1) * b - a) = b - r) by lia.
  destruct (normalDecimal k q) as [c1 q1] eqn:Hn1.
  destruct (normalDecimal (k + 1) q) as [c2 q2] eqn:Hn2.
  pose proof (fun H => Hdist k c1 q1 r ltac:(lia) Hn1 Hdlo H) as Huse1.
  pose proof (fun H => Hdist (k + 1) c2 q2 (b - r) ltac:(lia) Hn2 Hdhi H) as Huse2.
  fold V U. fold N' D'. fold E'.
  destruct (readsBack m e (c1, q1)) eqn:Hrb1, (readsBack m e (c2, q2)) eqn:Hrb2;
    try discriminate.
  - destruct (Z.compare_spec (2 * r) b) as [Hcmp | Hcmp | Hcmp].
    + destruct (Z.even k); injection Hcand as <- <-.
      * apply Huse1. destruct Hside as [[Hle _] | [Hle _]];
          [now apply Hleft | apply (Hmono r (b - r)); [lia | now apply Hright]].
      * apply Huse2. destruct Hside as [[Hle _] | [Hle _]];
          [apply (Hmono (b - r) r); [lia | now apply Hleft] | now apply Hright].
    + injection Hcand as <- <-.
      apply Huse1. destruct Hside as [[Hle _] | [Hle _]];
        [now apply Hleft | apply (Hmono r (b - r)); [lia | now apply Hright]].
    + injection Hcand as <- <-.
      apply Huse2. destruct Hside as [[Hle _] | [Hle _]];
        [apply (Hmono (b - r) r); [lia | now apply Hleft] | now apply Hright].
  - injection Hcand as <- <-. apply Huse1.
    destruct Hside as [[Hle _] | [_ H]]; [now apply Hleft | discriminate H].
  - injection Hcand as <- <-. apply Huse2.
    destruct Hside as [[_ H] | [Hle _]]; [discriminate H | now apply Hright].
Qed.

(** Of the decimals of as few digits that read back as the number, none
    is nearer to it. *)
Lemma shortestDecimal_nearest s m e c q c' q' :
  canonical m e -> shortestDecimal m e = Some (c, q) ->
  ndigits c' <= ndigits c ->
  parseDecimal s c' q' = Some (S754_finite s m e) ->
  asNear m e c q c' q'.
Proof.
  intros Hcan Hfound Hdigits Hparse.
  apply parseDecimal_unsigned in Hparse.
  assert (Hc' : 0 < c').
  { destruct (Z.lt_ge_cases 0 c') as [? | Hle]; [assumption |].
    unfold parseDecimal in Hparse.
    destruct (Z.leb_spec c' 0); [discriminate | lia]. }
  unfold shortestDecimal in Hfound.
  destruct (searchFrom_first m e _ 1 17 (c, q) Hfound) as (k & Hk & Hc & _).
  destruct (candidate_digits m e (1 + k) c q Hcan ltac:(lia) Hc) as [_ Hle].
  destruct (ndigits_spec c' Hc') as [_ Hupper].
  apply (candidate_nearest m e (1 + k) c q c' q' Hcan ltac:(lia) Hc); [| assumption].
  split; [assumption |].
  eapply Z.lt_le_trans; [exact Hupper |].
  apply Z.pow_le_mono_r; lia.
Qed.

(** C7, as the program has it.  Under the full-parse strategy a string
    is taken as it is, a boolean becomes true or false, and a number is
    printed as the verb [%g] prints it.  Every number the decoder reads
    is a [float64]; every [float64] has a shortest decimal [c * 10^q]
    that reads back as it: no decimal of fewer digits reads back as it,
    and of those of as few digits that do, none is nearer to it.  The
    text is made from the digits of [c]:
    without an exponent when the decimal exponent X of that decimal
    satisfies -4 <= X < 6, an integral value then being its digits with
    no point and no fraction; and in the form d.ddde+XX (or e-XX)
    otherwise.  So 1 gives 1, 1.5 gives 1.5, true gives true and 100000
    gives 100000, but 1000000 gives 1e+06. *)
Theorem label_text_of_decoded_values :
  (forall data key v,
      obj_lookup key data = Some (JString v) -> labelOfData data key = v)
  /\ (forall data key (v : bool),
        obj_lookup key data = Some (JBool v) ->
        labelOfData data key = if v then "true"%string else "false"%string)
  /\ (forall data key v,
        obj_lookup key data = Some (JNumber v) -> labelOfData data key = fmt_g v)
  /\ (forall text s m e rest,
        parseNumber text = Some (S754_finite s m e, rest) -> canonical m e)
  /\ (forall (s : bool) m e,
        canonical m e ->
        exists c q,
          shortestDecimal m e = Some (c, q)
          /\ parseDecimal s c q = Some (S754_finite s m e)
          /\ (forall c' q',
                ndigits c' < ndigits c ->
                parseDecimal s c' q' <> Some (S754_finite s m e))
          /\ (forall c' q',
                ndigits c' = ndigits c ->
                parseDecimal s c' q' = Some (S754_finite s m e) ->
                asNear m e c q c' q')
          /\ let X := ndigits c + q - 1 in
             (hasExponent (fmt_g (S754_finite s m e)) <-> X < -4 \/ 6 <= X)
             /\ (-4 <= X < 6 ->
                 fmt_g (S754_finite s m e)
                 = ((if s then "-" else "") ++ fmtF (itoa c) (ndigits c + q))%string)
             /\ (-4 <= X < 6 -> 0 <= q ->
                 fmt_g (S754_finite s m e)
                 = ((if s then "-" else "") ++ itoa c ++ zeros (Z.to_nat q))%string)
             /\ (X < -4 \/ 6 <= X ->
                 fmt_g (S754_finite s m e)
                 = ((if s then "-" else "") ++ fmtE (itoa c) (ndigits c + q))%string))
  /\ extracted "label" false (bq "{`label`: 1}") = Some "1"%string
  /\ extracted "label" false (bq "{`label`: 1.5}") = Some "1.5"%string
  /\ extracted "label" false (bq "{`label`: true}") = Some "true"%string
  /\ extracted "label" false (bq "{`label`: 1.0}") = Some "1"%string
  /\ extracted "label" false (bq "{`label`: 100000}") = Some "100000"%string
  /\ extracted "label" false (bq "{`label`: 1000000}") = Some "1e+06"%string
  /\ extracted "label" false (bq "{`label`: 0.0001}") = Some "0.0001"%string
  /\ extracted "label" false (bq "{`label`: 0.00001}") = Some "1e-05"%string.
Proof.
  split_and!.
  - intros data key v Hv. unfold labelOfData. now rewrite Hv.
  - intros data key v Hv. unfold labelOfData. now rewrite Hv.
  - intros data key v Hv. unfold labelOfData. now rewrite Hv.
  - apply parseNumber_canonical.
  - intros s m e Hcan.
    destruct (shortestDecimal_total m e Hcan) as (c & q & Hfound).
    exists c, q. split; [exact Hfound |].
    destruct (shortestDecimal_reads_back s m e c q Hfound) as [Hparse Hshort].
    split; [exact Hparse |].
    split; [intros c' q'; now apply (shortestDecimal_shortest s m e c q) |].
    split.
    { intros c' q' Hsame Hback.
      apply (shortestDecimal_nearest s m e c q c' q'); [assumption .. | lia | assumption]. }
    intros X.
    assert (Hfmt : fmt_g (S754_finite s m e)
                   = ((if s then "-" else "")
                        ++ (if usesExponent (ndigits c + q)
                            then fmtE (itoa c) (ndigits c + q)
                            else fmtF (itoa c) (ndigits c + q)))%string).
    { unfold fmt_g. now rewrite Hshort. }
    assert (Huses : usesExponent (ndigits c + q) = true <-> X < -4 \/ 6 <= X).
    { unfold usesExponent, eprec. fold X.
      rewrite orb_true_iff, Z.ltb_lt, Z.leb_le. reflexivity. }
    split_and!.
    + rewrite Hfmt, fmt_g_hasExponent by apply plain_itoa. exact Huses.
    + intros HX. rewrite Hfmt.
      destruct (usesExponent (ndigits c + q)); [| reflexivity].
      destruct Huses as [Huses _]. specialize (Huses eq_refl). lia.
    + intros HX Hq. rewrite Hfmt.
      destruct (usesExponent (ndigits c + q)).
      { destruct Huses as [Huses _]. specialize (Huses eq_refl). lia. }
      unfold fmtF. fold (ndigits c).
      pose proof (ndigits_pos c) as Hpos.
      destruct (Z.ltb_spec 0 (ndigits c + q)); [| lia].
      destruct (Z.leb_spec (ndigits c) (ndigits c + q)); [| lia].
      do 3 f_equal. lia.
    + intros HX. rewrite Hfmt.
      destruct (usesExponent (ndigits c + q)); [reflexivity |].
      destruct Huses as [_ Huses]. specialize (Huses HX). discriminate.
  - vm_compute. reflexivity.
  - vm_compute. reflexivity.
  - vm_compute. reflexivity.
  - vm_compute. reflexivity.
  - vm_compute. reflexivity.
  - vm_compute. reflexivity.
  - vm_compute. reflexivity.
  - vm_compute. reflexivity.
Qed.

(** C7 as the specification words it does not hold.  The numbers
    1000000 and 123456789 are printed with an exponent, although the same
    digits without an exponent read back as the same number: the
    exponent is not required, and for 123456789 the text printed is the
    longer one.  (The fast strategy gives the digits of the line.) *)
Lemma large_numbers_are_printed_with_an_exponent :
  extracted "label" false (bq "{`label`: 1000000}") = Some "1e+06"%string
  /\ extracted "label" false (bq "{`label`: 123456789}")
     = Some "1.23456789e+08"%string
  /\ parseNumber "123456789" = parseNumber "1.23456789e+08"
  /\ parseNumber "1000000" = parseNumber "1e+06"
  /\ (String.length "123456789" < String.length "1.23456789e+08")%nat
  /\ extracted "label" true (bq "{`label`: 123456789}") = Some "123456789"%string.
Proof.
  split_and!; try (vm_compute; reflexivity).
  simpl. lia.
Qed.

(** The number 1.5 is the float 6755399441055744 * 2^-52; its shortest
    decimal is 15 * 10^-1, printed without an exponent, and no decimal
    of one digit reads back as it.  The smallest positive [float64],
    2^-1074, is printed from the decimal 5 * 10^-324; the decimal
    4 * 10^-324 reads back as it too and is not nearer. *)
Lemma label_text_of_decoded_values_witness :
  canonical 6755399441055744 (-52)
  /\ shortestDecimal 6755399441055744 (-52) = Some (15, -1)
  /\ parseDecimal false 15 (-1) = Some (S754_finite false 6755399441055744 (-52))
  /\ (forall c' q',
        ndigits c' < 2 ->
        parseDecimal false c' q' <> Some (S754_finite false 6755399441055744 (-52)))
  /\ ~ hasExponent (fmt_g (S754_finite false 6755399441055744 (-52)))
  /\ fmt_g (S754_finite false 6755399441055744 (-52)) = "1.5"%string
  /\ shortestDecimal 1 (-1074) = Some (5, -324)
  /\ parseDecimal false 4 (-324) = Some (S754_finite false 1 (-1074))
  /\ asNear 1 (-1074) 5 (-324) 4 (-324).
Proof.
  assert (Hcan : canonical 6755399441055744 (-52)).
  { unfold canonical. split; [lia |]. split; [reflexivity |].
    left. intros H. discriminate H. }
  assert (Hfound : shortestDecimal 6755399441055744 (-52) = Some (15, -1))
    by (vm_compute; reflexivity).
  assert (Hcan' : canonical 1 (-1074)).
  { unfold canonical. split; [lia |]. split; [reflexivity |]. now right. }
  assert (Hfound' : shortestDecimal 1 (-1074) = Some (5, -324))
    by (vm_compute; reflexivity).
  assert (Hother : parseDecimal false 4 (-324) = Some (S754_finite false 1 (-1074)))
    by (vm_compute; reflexivity).
  destruct label_text_of_decoded_values as (_ & _ & _ & _ & Hnum & _).
  destruct (Hnum false _ _ Hcan) as (c & q & Hcq & Hparse & Hmin & _ & [Hexp _] & _).
  rewrite Hfound in Hcq. injection Hcq as <- <-.
  destruct (Hnum false _ _ Hcan') as (c2 & q2 & Hcq2 & _ & _ & Hnear & _).
  rewrite Hfound' in Hcq2. injection Hcq2 as <- <-.
  split; [exact Hcan |]. split; [exact Hfound |]. split; [exact Hparse |].
  split; [exact Hmin |]. split; [| split; [vm_compute; reflexivity |]].
  - intros Hex. specialize (Hexp Hex). vm_compute in Hexp.
    destruct Hexp as [H | H]; [discriminate H | apply H; reflexivity].
  - split; [exact Hfound' |]. split; [exact Hother |].
    exact (Hnear 4 (-324) eq_refl Hother).
Defined.



(** ** Pieces of a byte string *)

Lemma str_app_cons (c : ascii) (a b : string) :
  (String c a ++ b = String c (a ++ b))%string.
Proof. reflexivity. Qed.

Lemma str_app_nil_l (a : string) : ("" ++ a = a)%string.
Proof. reflexivity. Qed.

Lemma str_app_assoc (a b c : string) : ((a ++ b) ++ c = a ++ (b ++ c))%string.
Proof.
  induction a as [| x a IH]; [reflexivity |].
  now rewrite !str_app_cons, IH.
Qed.

Lemma str_app_nil_r (a : string) : (a ++ "" = a)%string.
Proof.
  induction a as [| x a IH]; [reflexivity |]. now rewrite str_app_cons, IH.
Qed.

Lemma len_app (a b : string) : len (a ++ b)%string = (len a + len b)%nat.
Proof.
  unfold len. induction a as [| x a IH]; [reflexivity |].
  rewrite str_app_cons. simpl. now rewrite IH.
Qed.

Lemma substring_all (s : string) : String.substring 0 (String.length s) s = s.
Proof. induction s as [| c s IH]; simpl; [reflexivity | now rewrite IH]. Qed.

Lemma substring_skip_app (a b : string) (m : nat) :
  String.substring (String.length a) m (a ++ b) = String.substring 0 m b.
Proof.
  induction a as [| x a IH]; [reflexivity |]. rewrite str_app_cons. exact IH.
Qed.

Lemma substring_0_length_app (a b : string) :
  String.substring 0 (String.length a) (a ++ b) = a.
Proof.
  induction a as [| x a IH]; [destruct b; reflexivity |].
  rewrite str_app_cons. simpl. now rewrite IH.
Qed.

(** What [substring] takes from the start is the start of the string. *)
Lemma substring_0_prefix (s : string) (m : nat) :
  exists after, s = (String.substring 0 m s ++ after)%string.
Proof.
  revert m. induction s as [| c s IH]; intros m.
  - exists "". destruct m; reflexivity.
  - destruct m as [| m]; [exists (String c s); reflexivity |].
    destruct (IH m) as (after & Hs). exists after.
    simpl. rewrite str_app_cons. now rewrite <- Hs.
Qed.

(** A string splits at every position into what [substring] takes and what
    is around it. *)
Lemma substring_split (s : string) (n m : nat) :
  exists before after, s = (before ++ String.substring n m s ++ after)%string.
Proof.
  revert n. induction s as [| c s IH]; intros n.
  - exists "", "". destruct n, m; reflexivity.
  - destruct n as [| n].
    + destruct (substring_0_prefix (String c s) m) as (after & Hs).
      exists "", after. exact Hs.
    + destruct (IH n) as (before & after & Hs).
      exists (String c before), after.
      simpl. rewrite str_app_cons. now rewrite <- Hs.
Qed.

(** ** What the fast extractor returns *)

Lemma mentions_refl s : mentions s s.
Proof. exists "", "". now rewrite str_app_nil_l, str_app_nil_r. Qed.

Lemma mentions_empty s : mentions s "".
Proof. exists "", s. reflexivity. Qed.

Lemma mentions_trans a b c : mentions a b -> mentions b c -> mentions a c.
Proof.
  intros (x & y & ->) (u & v & ->).
  exists (x ++ u)%string, (v ++ y)%string.
  now rewrite !str_app_assoc.
Qed.

Lemma mentions_slice s i j : mentions s (slice s i j).
Proof. unfold slice. apply substring_split. Qed.

Lemma strrev_app a b : strrev (a ++ b) = (strrev b ++ strrev a)%string.
Proof.
  unfold strrev.
  assert (Hl : forall x y, list_ascii_of_string (x ++ y)%string
                           = list_ascii_of_string x ++ list_ascii_of_string y).
  { clear. induction x as [| c x IH]; intros y; [reflexivity |].
    rewrite str_app_cons. simpl. now rewrite IH. }
  assert (Hs : forall x y, string_of_list_ascii (x ++ y)
                           = (string_of_list_ascii x ++ string_of_list_ascii y)%string).
  { clear. induction x as [| c x IH]; intros y; [reflexivity |].
    simpl. rewrite str_app_cons. now rewrite IH. }
  now rewrite Hl, rev_app_distr, Hs.
Qed.

Lemma strrev_involutive s : strrev (strrev s) = s.
Proof.
  unfold strrev.
  now rewrite list_ascii_of_string_of_list_ascii, rev_involutive,
    string_of_list_ascii_of_string.
Qed.

(** What [trimLeftBy] leaves is the end of the string. *)
Lemma trimLeftBy_suffix p1 p2 p3 s :
  exists removed, s = (removed ++ trimLeftBy p1 p2 p3 s)%string.
Proof.
  assert (H : forall n s, (String.length s <= n)%nat ->
               exists removed, s = (removed ++ trimLeftBy p1 p2 p3 s)%string).
  { clear s. induction n as [| n IH]; intros s Hn.
    - destruct s; [| simpl in Hn; lia]. exists "". reflexivity.
    - destruct s as [| c1 r1]; [exists ""; reflexivity |].
      simpl in Hn. cbn [trimLeftBy].
      destruct (p1 c1).
      { destruct (IH r1 ltac:(lia)) as (rm & Hr).
        exists (String c1 rm). rewrite str_app_cons. now rewrite <- Hr. }
      destruct r1 as [| c2 r2]; [exists ""; reflexivity |].
      simpl in Hn.
      destruct (p2 c1 c2).
      { destruct (IH r2 ltac:(lia)) as (rm & Hr).
        exists (String c1 (String c2 rm)). rewrite !str_app_cons. now rewrite <- Hr. }
      destruct r2 as [| c3 r3]; [exists ""; reflexivity |].
      simpl in Hn.
      destruct (p3 c1 c2 c3); [| exists ""; reflexivity].
      destruct (IH r3 ltac:(lia)) as (rm & Hr).
      exists (String c1 (String c2 (String c3 rm))). rewrite !str_app_cons. now rewrite <- Hr. }
  apply (H (String.length s)). lia.
Qed.

Lemma mentions_TrimSpace s : mentions s (strings_TrimSpace s).
Proof.
  unfold strings_TrimSpace, TrimRightSpace, TrimLeftSpace.
  destruct (trimLeftBy_suffix isSpace1 isSpace2 isSpace3 s) as (lead & Hl).
  set (t := trimLeftBy isSpace1 isSpace2 isSpace3 s) in *.
  destruct (trimLeftBy_suffix isSpace1 (fun a b => isSpace2 b a)
              (fun a b c => isSpace3 c b a) (strrev t)) as (trail & Ht).
  set (u := trimLeftBy _ _ _ (strrev t)) in *.
  exists lead, (strrev trail).
  rewrite <- strrev_app, <- Ht, strrev_involutive. exact Hl.
Qed.

Lemma mentions_stripQuotes s : mentions s (stripQuotes s).
Proof.
  unfold stripQuotes. destruct (_ && _); [apply mentions_slice | apply mentions_refl].
Qed.

(** The fast extractor returns a piece of the line as it is written:
    it copies bytes and changes none. *)
Theorem fastExtractLabel_returns_a_piece_of_the_line (line : string) :
  mentions line (fastExtractLabel line).
Proof.
  unfold fastExtractLabel.
  destruct (strings_Index line labelKeyPattern) as [pos |]; [| apply mentions_empty].
  cbv zeta.
  destruct (len line <=? _)%nat; [apply mentions_empty |].
  destruct (byte_at line _ =? dq)%char.
  - destruct (_ <? len line)%nat; [apply mentions_slice |].
    destruct (byte_at line _ =? sq)%char.
    + destruct (_ <? len line)%nat; [apply mentions_slice |].
      eapply mentions_trans; [apply mentions_slice |].
      eapply mentions_trans; [apply mentions_TrimSpace | apply mentions_stripQuotes].
    + eapply mentions_trans; [apply mentions_slice |].
      eapply mentions_trans; [apply mentions_TrimSpace | apply mentions_stripQuotes].
  - destruct (byte_at line _ =? sq)%char.
    + destruct (_ <? len line)%nat; [apply mentions_slice |].
      eapply mentions_trans; [apply mentions_slice |].
      eapply mentions_trans; [apply mentions_TrimSpace | apply mentions_stripQuotes].
    + eapply mentions_trans; [apply mentions_slice |].
      eapply mentions_trans; [apply mentions_TrimSpace | apply mentions_stripQuotes].
Qed.

Lemma slice_from_app a b : slice_from (a ++ b) (len a) = b.
Proof.
  unfold slice_from, slice. rewrite len_app.
  replace (len a + len b - len a)%nat with (len b) by lia.
  unfold len. rewrite substring_skip_app. apply substring_all.
Qed.

Lemma slice_app a v b : slice (a ++ v ++ b) (len a) (len a + len v) = v.
Proof.
  unfold slice. replace (len a + len v - len a)%nat with (len v) by lia.
  unfold len. rewrite substring_skip_app. apply substring_0_length_app.
Qed.

Lemma byte_at_app a c b : byte_at (a ++ String c b) (len a) = c.
Proof.
  unfold byte_at, len.
  pose proof (append_correct2 a (String c b) 0) as H. simpl in H.
  now rewrite <- H.
Qed.

Lemma skipBlank_app ws rest n :
  blanks ws = true ->
  (match rest with String c _ => isBlank c = false | EmptyString => True end) ->
  skipBlank (ws ++ rest) n = (n + len ws)%nat.
Proof.
  unfold blanks, len. revert n.
  induction ws as [| c ws IH]; intros n Hws Hrest.
  - rewrite str_app_nil_l. simpl. rewrite Nat.add_0_r.
    destruct rest as [| c r]; [reflexivity |].
    simpl. unfold isBlank in Hrest. now rewrite Hrest.
  - simpl in Hws. apply andb_prop in Hws as [Hc Hws].
    rewrite str_app_cons. simpl. unfold isBlank in Hc. rewrite Hc.
    rewrite IH by assumption. lia.
Qed.

Lemma scanQuoted_app q v rest n :
  unescaped q v = true ->
  scanQuoted q (v ++ String q rest) n = (n + len v)%nat.
Proof.
  unfold unescaped, len. revert n.
  induction v as [| c v IH]; intros n Hv.
  - rewrite str_app_nil_l. simpl. rewrite Ascii.eqb_refl. lia.
  - simpl in Hv. apply andb_prop in Hv as [Hc Hv].
    apply andb_prop in Hc as [Hq Hb].
    apply negb_true_iff in Hq, Hb.
    rewrite str_app_cons. cbn [scanQuoted]. rewrite Hq, Hb.
    assert (Hnext : scanQuoted q (v ++ String q rest) (n + 1)
                    = (n + String.length (String c v))%nat).
    { rewrite IH by assumption. simpl. lia. }
    destruct (v ++ String q rest)%string; exact Hnext.
Qed.

(** The pattern is found where it first stands: after a text without a
    double quote, at the end of that text. *)
Lemma strings_Index_after_unquoted before tail :
  forallb (fun c => negb (c =? dq)%char) (list_ascii_of_string before) = true ->
  strings_Index (before ++ labelKeyPattern ++ tail) labelKeyPattern
  = Some (len before).
Proof.
  unfold strings_Index.
  assert (H : forall i,
             forallb (fun c => negb (c =? dq)%char) (list_ascii_of_string before) = true ->
             Index_from (before ++ labelKeyPattern ++ tail) labelKeyPattern i
             = Some (i + len before)%nat).
  { induction before as [| c before IH]; intros i Hb.
    - rewrite str_app_nil_l. unfold len. simpl String.length. rewrite Nat.add_0_r.
      destruct tail; reflexivity.
    - simpl in Hb. apply andb_prop in Hb as [Hc Hb]. apply negb_true_iff in Hc.
      rewrite str_app_cons. cbn [Index_from].
      assert (Hp : String.prefix labelKeyPattern
                     (String c (before ++ labelKeyPattern ++ tail)) = false).
      { unfold labelKeyPattern. cbn [String.prefix].
        destruct (ascii_dec dq c) as [<- | _]; [| reflexivity].
        now rewrite Ascii.eqb_refl in Hc. }
      rewrite Hp, IH by assumption. unfold len. simpl. f_equal. lia. }
  intros Hb. now rewrite (H 0%nat Hb).
Qed.

(** A quoted value without escapes is returned as it stands between its
    quotes, for the double and for the single quote, whatever follows. *)
Lemma fastExtractLabel_quoted (q : ascii) (before ws v rest : string) :
  let line := (before ++ labelKeyPattern ++ ws ++ String q (v ++ String q rest))%string in
  strings_Index line labelKeyPattern = Some (len before) ->
  q = dq \/ q = sq ->
  blanks ws = true ->
  unescaped q v = true ->
  fastExtractLabel line = v.
Proof.
  intros line Hidx Hq Hws Hv.
  assert (HqBlank : isBlank q = false) by (destruct Hq as [-> | ->]; reflexivity).
  set (tail := (ws ++ String q (v ++ String q rest))%string).
  assert (H1 : line = ((before ++ labelKeyPattern) ++ tail)%string).
  { unfold line, tail. now rewrite !str_app_assoc. }
  assert (H2 : line = ((before ++ labelKeyPattern ++ ws) ++ String q (v ++ String q rest))%string).
  { unfold line. now rewrite !str_app_assoc. }
  assert (H3 : line = ((before ++ labelKeyPattern ++ ws ++ String q "")
                         ++ v ++ String q rest)%string).
  { unfold line. rewrite !str_app_assoc. reflexivity. }
  set (start := (len before + len labelKeyPattern + len ws)%nat).
  assert (Hstart : skipBlank (slice_from line (len before + len labelKeyPattern))
                             (len before + len labelKeyPattern) = start).
  { rewrite H1 at 1. rewrite <- len_app, slice_from_app.
    unfold tail. rewrite skipBlank_app by assumption. unfold start.
    now rewrite len_app. }
  assert (Hlen2 : len (before ++ labelKeyPattern ++ ws) = start).
  { unfold start. rewrite !len_app. lia. }
  assert (Hlen3 : len (before ++ labelKeyPattern ++ ws ++ String q "") = (start + 1)%nat).
  { unfold start. rewrite !len_app. change (len (String q "")) with 1%nat. lia. }
  assert (Hline : len line = (start + 1 + len v + 1 + len rest)%nat).
  { rewrite H3, len_app, Hlen3, len_app.
    change (len (String q rest)) with (S (len rest)). lia. }
  assert (Hfirst : byte_at line start = q).
  { rewrite H2, <- Hlen2. apply byte_at_app. }
  assert (Hend : scanQuoted q (slice_from line (start + 1)) (start + 1)
                 = (start + 1 + len v)%nat).
  { rewrite H3 at 1. rewrite <- Hlen3, slice_from_app.
    now rewrite scanQuoted_app. }
  assert (Hslice : slice line (start + 1) (start + 1 + len v) = v).
  { rewrite H3, <- Hlen3. apply slice_app. }
  unfold fastExtractLabel. rewrite Hidx. cbv zeta.
  rewrite Hstart, Hfirst.
  destruct (Nat.leb_spec (len line) start) as [Hle | _]; [lia |].
  destruct Hq as [-> | ->].
  - rewrite Ascii.eqb_refl, Hend.
    destruct (Nat.ltb_spec (start + 1 + len v) (len line)) as [_ | Hge]; [| lia].
    exact Hslice.
  - change (sq =? dq)%char with false. cbv iota.
    rewrite Ascii.eqb_refl, Hend.
    destruct (Nat.ltb_spec (start + 1 + len v) (len line)) as [_ | Hge]; [| lia].
    exact Hslice.
Qed.

(** A quoted value without escapes is returned as it stands between its
    quotes, for the double and for the single quote, whatever follows
    it: the pattern has to stand first where it is taken, as it does
    after a text without a double quote. *)
Theorem fastExtractLabel_reads_a_quoted_value
  (q : ascii) (before ws v rest : string) :
  let line := (before ++ labelKeyPattern ++ ws ++ String q (v ++ String q rest))%string in
  q = dq \/ q = sq ->
  blanks ws = true ->
  unescaped q v = true ->
  strings_Index line labelKeyPattern = Some (len before) \/ freeOf dq before = true ->
  fastExtractLabel line = v.
Proof.
  intros line Hq Hws Hv Hfirst.
  apply (fastExtractLabel_quoted q before ws v rest); try assumption.
  destruct Hfirst as [Hidx | Hfree]; [exact Hidx |].
  now apply strings_Index_after_unquoted.
Qed.

(** On the line [{"label": "cat","x":1}] the value is cat. *)
Lemma fastExtractLabel_reads_a_quoted_value_witness :
  fastExtractLabel (bq "{`label`: `cat`,`x`:1}") = "cat"%string.
Proof.
  apply (fastExtractLabel_reads_a_quoted_value dq "{" " " "cat" (bq ",`x`:1}"));
    [left; reflexivity | reflexivity | reflexivity | right; reflexivity].
Defined.

(** ** The fast extractor on bare values *)

Lemma isTokenByte_spec c :
  isTokenByte c = true ->
  (33 <= nat_of_ascii c <= 126)%nat /\ c <> ","%char /\ c <> "}"%char.
Proof.
  unfold isTokenByte. intros H.
  apply andb_prop in H as [H H3]. apply andb_prop in H as [H H2].
  apply andb_prop in H as [H0 H1].
  apply Nat.leb_le in H0, H1.
  apply negb_true_iff in H2, H3. apply Ascii.eqb_neq in H2, H3. auto.
Qed.

Lemma isTokenByte_not_blank c : isTokenByte c = true -> isBlank c = false.
Proof.
  intros H. apply isTokenByte_spec in H as (Hn & _ & _).
  unfold isBlank.
  destruct (Ascii.eqb_spec c " ") as [-> | _];
    [change (nat_of_ascii " ") with 32%nat in Hn; lia |].
  destruct (Ascii.eqb_spec c TAB) as [-> | _];
    [change (nat_of_ascii TAB) with 9%nat in Hn; lia |].
  destruct (Ascii.eqb_spec c LF) as [-> | _];
    [change (nat_of_ascii LF) with 10%nat in Hn; lia |].
  reflexivity.
Qed.

Lemma scanPlain_token t rest n :
  forallb isTokenByte (list_ascii_of_string t) = true ->
  scanPlain (t ++ rest) n = scanPlain rest (n + len t).
Proof.
  unfold len. revert n. induction t as [| c t IH]; intros n Ht.
  - rewrite str_app_nil_l. simpl. now rewrite Nat.add_0_r.
  - simpl in Ht. apply andb_prop in Ht as [Hc Ht].
    pose proof (isTokenByte_not_blank c Hc) as Hb.
    apply isTokenByte_spec in Hc as (_ & Hcomma & Hbrace).
    rewrite str_app_cons. cbn [scanPlain].
    apply Ascii.eqb_neq in Hcomma, Hbrace. rewrite Hcomma, Hbrace.
    unfold isBlank in Hb. apply orb_false_iff in Hb as [_ Hlf]. rewrite Hlf.
    cbn [orb]. rewrite IH by assumption. simpl. f_equal. lia.
Qed.

(** Over blanks the scan stops at the first line feed, or goes on to what
    follows them. *)
Lemma scanPlain_blanks w rest n :
  blanks w = true -> endsValue rest = true ->
  exists w1 w2, w = (w1 ++ w2)%string /\ blanks w1 = true
                /\ scanPlain (w ++ rest) n = (n + len w1)%nat.
Proof.
  unfold blanks, len. revert n. induction w as [| c w IH]; intros n Hw Hrest.
  - exists "", "". split; [reflexivity |]. split; [reflexivity |].
    rewrite str_app_nil_l. simpl. rewrite Nat.add_0_r.
    destruct rest as [| c r]; [reflexivity |].
    simpl in Hrest. cbn [scanPlain]. now rewrite Hrest.
  - simpl in Hw. apply andb_prop in Hw as [Hc Hw].
    rewrite str_app_cons. cbn [scanPlain].
    destruct ((c =? ",")%char || (c =? "}")%char || (c =? LF)%char) eqn:Hstop.
    + exists "", (String c w). split; [reflexivity |]. split; [reflexivity |].
      simpl. lia.
    + destruct (IH (S n) Hw Hrest) as (w1 & w2 & -> & Hw1 & Hscan).
      exists (String c w1), w2. split; [reflexivity |].
      split; [simpl; now rewrite Hc |].
      rewrite Hscan. simpl. lia.
Qed.

Lemma trimLeftBy_stop p1 p2 p3 c r :
  p1 c = false -> (forall x, p2 c x = false) -> (forall x y, p3 c x y = false) ->
  trimLeftBy p1 p2 p3 (String c r) = String c r.
Proof.
  intros H1 H2 H3. cbn [trimLeftBy]. rewrite H1.
  destruct r as [| c2 r2]; [reflexivity |]. rewrite H2.
  destruct r2 as [| c3 r3]; [reflexivity |]. now rewrite H3.
Qed.

Lemma trimLeftBy_skip p1 p2 p3 w s :
  forallb p1 (list_ascii_of_string w) = true ->
  trimLeftBy p1 p2 p3 (w ++ s) = trimLeftBy p1 p2 p3 s.
Proof.
  induction w as [| c w IH]; intros Hw; [reflexivity |].
  simpl in Hw. apply andb_prop in Hw as [Hc Hw].
  rewrite str_app_cons. cbn [trimLeftBy]. rewrite Hc. now apply IH.
Qed.

Lemma isBlank_isSpace1 c : isBlank c = true -> isSpace1 c = true.
Proof.
  unfold isBlank. intros H.
  apply orb_prop in H as [H | H]; [apply orb_prop in H as [H | H] |];
    apply Ascii.eqb_eq in H; subst c; reflexivity.
Qed.

(** An ASCII byte that is no white space stops the trimming, from the
    left and from the right. *)
Lemma token_stops_TrimLeft c r :
  isTokenByte c = true ->
  trimLeftBy isSpace1 isSpace2 isSpace3 (String c r) = String c r.
Proof.
  intros H. apply isTokenByte_spec in H as (Hn & _ & _).
  apply trimLeftBy_stop.
  - unfold isSpace1.
    destruct (Nat.leb_spec 9 (nat_of_ascii c)), (Nat.leb_spec (nat_of_ascii c) 13),
      (Nat.eqb_spec (nat_of_ascii c) 32); simpl; try reflexivity; lia.
  - intros x. unfold isSpace2.
    destruct (Nat.eqb_spec (nat_of_ascii c) 194); [lia | reflexivity].
  - intros x y. unfold isSpace3.
    destruct (Nat.eqb_spec (nat_of_ascii c) 225); [lia |].
    destruct (Nat.eqb_spec (nat_of_ascii c) 226); [lia |].
    destruct (Nat.eqb_spec (nat_of_ascii c) 227); [lia |]. reflexivity.
Qed.

Lemma token_stops_TrimRight c r :
  isTokenByte c = true ->
  trimLeftBy isSpace1 (fun a b => isSpace2 b a) (fun a b c => isSpace3 c b a)
             (String c r) = String c r.
Proof.
  intros H. apply isTokenByte_spec in H as (Hn & _ & _).
  apply trimLeftBy_stop.
  - unfold isSpace1.
    destruct (Nat.leb_spec 9 (nat_of_ascii c)), (Nat.leb_spec (nat_of_ascii c) 13),
      (Nat.eqb_spec (nat_of_ascii c) 32); simpl; try reflexivity; lia.
  - intros x. unfold isSpace2.
    destruct (Nat.eqb_spec (nat_of_ascii c) 133); [lia |].
    destruct (Nat.eqb_spec (nat_of_ascii c) 160); [lia |].
    now rewrite andb_false_r.
  - intros x y. unfold isSpace3.
    destruct (Nat.eqb_spec (nat_of_ascii c) 128); [lia |].
    destruct (Nat.leb_spec 128 (nat_of_ascii c)); [lia |].
    destruct (Nat.eqb_spec (nat_of_ascii c) 168); [lia |].
    destruct (Nat.eqb_spec (nat_of_ascii c) 169); [lia |].
    destruct (Nat.eqb_spec (nat_of_ascii c) 175); [lia |].
    destruct (Nat.eqb_spec (nat_of_ascii c) 159); [lia |].
    now rewrite !andb_false_r.
Qed.

Lemma list_ascii_of_string_app x y :
  list_ascii_of_string (x ++ y)%string
  = list_ascii_of_string x ++ list_ascii_of_string y.
Proof.
  induction x as [| c x IH]; [reflexivity |].
  rewrite str_app_cons. simpl. now rewrite IH.
Qed.

Lemma forallb_strrev p s :
  forallb p (list_ascii_of_string (strrev s)) = forallb p (list_ascii_of_string s).
Proof.
  unfold strrev. rewrite list_ascii_of_string_of_list_ascii.
  induction (list_ascii_of_string s) as [| c l IH]; [reflexivity |].
  simpl. rewrite forallb_app, IH. simpl. rewrite andb_true_r. apply andb_comm.
Qed.

(** Trimming takes the blanks after a bare value and nothing of it. *)
Lemma TrimSpace_token t w :
  t <> ""%string ->
  forallb isTokenByte (list_ascii_of_string t) = true ->
  blanks w = true ->
  strings_TrimSpace (t ++ w) = t.
Proof.
  intros Hne Ht Hw. unfold strings_TrimSpace, TrimLeftSpace, TrimRightSpace.
  destruct t as [| c t']; [done |].
  rewrite str_app_cons, token_stops_TrimLeft
    by (simpl in Ht; now apply andb_prop in Ht as [Hc _]).
  rewrite <- str_app_cons, strrev_app.
  rewrite trimLeftBy_skip.
  2:{ rewrite forallb_strrev. unfold blanks in Hw.
      apply forallb_forall. intros x Hx.
      apply isBlank_isSpace1. rewrite forallb_forall in Hw. now apply Hw. }
  assert (Hrev : forallb isTokenByte (list_ascii_of_string (strrev (String c t'))) = true)
    by now rewrite forallb_strrev.
  destruct (strrev (String c t')) as [| c' r'] eqn:Hr.
  - apply (f_equal strrev) in Hr. rewrite strrev_involutive in Hr. discriminate Hr.
  - rewrite token_stops_TrimRight
      by (simpl in Hrev; now apply andb_prop in Hrev as [Hc _]).
    rewrite <- Hr. apply strrev_involutive.
Qed.

Lemma stripQuotes_unquoted c t :
  c <> dq -> c <> sq -> stripQuotes (String c t) = String c t.
Proof.
  intros Hd Hs. unfold stripQuotes. cbv zeta.
  change (byte_at (String c t) 0) with c.
  apply Ascii.eqb_neq in Hd, Hs. rewrite Hd, Hs. cbn [andb orb].
  now rewrite andb_false_r.
Qed.

(** A bare value (a number, true, false, null, or any run of printable
    bytes without blank, comma or closing brace that does not start with a
    quote) is returned as it is written; the blanks after it are dropped. *)
Theorem fastExtractLabel_reads_a_bare_value
  (before ws t ws' rest : string) :
  let line := (before ++ labelKeyPattern ++ ws ++ t ++ ws' ++ rest)%string in
  strings_Index line labelKeyPattern = Some (len before) ->
  blanks ws = true ->
  bareValue t = true ->
  blanks ws' = true ->
  endsValue rest = true ->
  fastExtractLabel line = t.
Proof.
  intros line Hidx Hws Ht Hws' Hrest.
  destruct t as [| c t']; [discriminate |].
  unfold bareValue in Ht.
  apply andb_prop in Ht as [Hq Htok]. apply andb_prop in Hq as [Hdq Hsq].
  apply negb_true_iff in Hdq, Hsq.
  set (t := String c t') in *.
  assert (Hc : isTokenByte c = true)
    by (simpl in Htok; now apply andb_prop in Htok as [Hc _]).
  set (tail := (ws ++ t ++ ws' ++ rest)%string).
  assert (H1 : line = ((before ++ labelKeyPattern) ++ tail)%string).
  { unfold line, tail. now rewrite !str_app_assoc. }
  assert (H2 : line = ((before ++ labelKeyPattern ++ ws) ++ t ++ ws' ++ rest)%string).
  { unfold line. now rewrite !str_app_assoc. }
  set (start := (len before + len labelKeyPattern + len ws)%nat).
  assert (Hlen2 : len (before ++ labelKeyPattern ++ ws) = start).
  { unfold start. rewrite !len_app. lia. }
  assert (Hstart : skipBlank (slice_from line (len before + len labelKeyPattern))
                             (len before + len labelKeyPattern) = start).
  { rewrite H1 at 1. rewrite <- len_app, slice_from_app.
    unfold tail, t. rewrite str_app_cons.
    rewrite skipBlank_app; [| assumption | now apply isTokenByte_not_blank].
    unfold start. now rewrite len_app. }
  assert (Hline : (start + len t <= len line)%nat).
  { rewrite H2, len_app, Hlen2, len_app. lia. }
  assert (Hfirst : byte_at line start = c).
  { rewrite H2, <- Hlen2. unfold t. rewrite str_app_cons. apply byte_at_app. }
  destruct (scanPlain_blanks ws' rest (start + len t) Hws' Hrest)
    as (w1 & w2 & Hw & Hw1 & Hscan).
  assert (Hend : scanPlain (slice_from line start) start = (start + len t + len w1)%nat).
  { rewrite H2 at 1. rewrite <- Hlen2, slice_from_app, Hlen2.
    now rewrite scanPlain_token. }
  assert (Hslice : slice line start (start + len t + len w1) = (t ++ w1)%string).
  { assert (H3 : line = ((before ++ labelKeyPattern ++ ws) ++ (t ++ w1) ++ (w2 ++ rest))%string).
    { rewrite H2, Hw, !str_app_assoc. reflexivity. }
    rewrite H3, <- Hlen2, <- Nat.add_assoc, <- len_app. apply slice_app. }
  unfold fastExtractLabel. rewrite Hidx. cbv zeta.
  rewrite Hstart, Hfirst, Hdq, Hsq, Hend, Hslice.
  destruct (Nat.leb_spec (len line) start) as [Hle | _].
  { unfold t in Hline. change (len (String c t')) with (S (len t')) in Hline. lia. }
  rewrite TrimSpace_token by (try assumption; discriminate).
  apply stripQuotes_unquoted; now apply Ascii.eqb_neq.
Qed.

(** The number 1.0 of the line [{"label": 1.0 ,"x":2}] is returned as
    written. *)
Lemma fastExtractLabel_reads_a_bare_value_witness :
  fastExtractLabel (bq "{`label`: 1.0 ,`x`:2}") = "1.0"%string.
Proof.
  apply (fastExtractLabel_reads_a_bare_value "{" " " "1.0" " " (bq ",`x`:2}"));
    [vm_compute; reflexivity | reflexivity | reflexivity | reflexivity | reflexivity].
Defined.

(** ** Where the two strategies agree *)

Lemma isLiteralByte_spec c :
  isLiteralByte c = true ->
  (32 <= nat_of_ascii c <= 127)%nat /\ c <> dq /\ c <> backslash.
Proof.
  unfold isLiteralByte. intros H.
  apply andb_prop in H as [H H3]. apply andb_prop in H as [H H2].
  apply andb_prop in H as [H0 H1].
  apply Nat.leb_le in H0, H1.
  apply negb_true_iff in H2, H3. apply Ascii.eqb_neq in H2, H3. auto.
Qed.

Lemma literalText_unescaped v : literalText v = true -> unescaped dq v = true.
Proof.
  unfold literalText, unescaped. rewrite !forallb_forall. intros H c Hc.
  specialize (H c Hc). apply isLiteralByte_spec in H as (_ & Hd & Hb).
  apply Ascii.eqb_neq in Hd, Hb. now rewrite Hd, Hb.
Qed.

Lemma scanString_literal v rest :
  literalText v = true ->
  scanString (v ++ String dq rest)
  = Some (map Raw (list_ascii_of_string v), rest).
Proof.
  unfold literalText. induction v as [| c v IH]; intros Hv.
  - rewrite str_app_nil_l. cbn [scanString]. now rewrite Ascii.eqb_refl.
  - simpl in Hv. apply andb_prop in Hv as [Hc Hv].
    apply isLiteralByte_spec in Hc as (Hn & Hd & Hb).
    apply Ascii.eqb_neq in Hd, Hb.
    rewrite str_app_cons. cbn [scanString]. rewrite Hd, Hb.
    destruct (Z.ltb_spec (code c) 32) as [Hlt | _]; [unfold code in Hlt; lia |].
    now rewrite IH.
Qed.

Lemma unquote_literal v :
  literalText v = true ->
  unquote 0 (map Raw (list_ascii_of_string v)) = v.
Proof.
  unfold literalText. induction v as [| c v IH]; intros Hv; [reflexivity |].
  simpl in Hv. apply andb_prop in Hv as [Hc Hv].
  apply isLiteralByte_spec in Hc as (Hn & _ & _).
  simpl. destruct (Z.ltb_spec (code c) 128) as [_ | Hge]; [| unfold code in Hge; lia].
  now rewrite IH.
Qed.

Lemma parseString_literal v rest :
  literalText v = true -> parseString (v ++ String dq rest) = Some (v, rest).
Proof.
  intros Hv. unfold parseString.
  now rewrite scanString_literal, unquote_literal.
Qed.

Lemma isBlank_isJSONSpace c : isBlank c = true -> isJSONSpace c = true.
Proof.
  unfold isBlank, isJSONSpace. intros H.
  apply orb_prop in H as [H | H]; [apply orb_prop in H as [H | H] |];
    apply Ascii.eqb_eq in H; subst c; reflexivity.
Qed.

Lemma skipWS_blanks ws c r :
  blanks ws = true -> isJSONSpace c = false ->
  skipWS (ws ++ String c r) = String c r.
Proof.
  unfold blanks. induction ws as [| x ws IH]; intros Hws Hc.
  - rewrite str_app_nil_l. cbn [skipWS]. now rewrite Hc.
  - simpl in Hws. apply andb_prop in Hws as [Hx Hws].
    rewrite str_app_cons. cbn [skipWS]. rewrite (isBlank_isJSONSpace x Hx).
    now apply IH.
Qed.

Lemma parseValue_literal f d ws v rest :
  blanks ws = true -> literalText v = true ->
  parseValue (S f) d (ws ++ String dq (v ++ String dq rest))
  = Some (JString v, rest).
Proof.
  intros Hws Hv. cbn [parseValue].
  rewrite skipWS_blanks by (assumption || reflexivity).
  change ((dq =? "{")%char) with false.
  change ((dq =? "[")%char) with false.
  change ((dq =? dq)%char) with true. cbv iota.
  now rewrite parseString_literal.
Qed.

(** One member, the last of its object: a key and a text without
    escapes. *)
Lemma parseMembers_last f d k ws v ws' rest acc :
  literalText k = true -> blanks ws = true -> literalText v = true ->
  blanks ws' = true ->
  parseMembers (S (S f)) d
    (String dq (k ++ String dq (String ":"
       (ws ++ String dq (v ++ String dq (ws' ++ String "}" rest)))))) acc
  = Some (JObject (acc ++ [(k, JString v)]), rest).
Proof.
  intros Hk Hws Hv Hws'. cbn [parseMembers skipWS].
  change (isJSONSpace dq) with false. cbv iota.
  change ((dq =? dq)%char) with true. cbv iota.
  rewrite parseString_literal by assumption.
  cbn [skipWS]. change (isJSONSpace ":") with false. cbv iota.
  change ((":" =? ":")%char) with true. cbv iota.
  rewrite parseValue_literal by assumption.
  rewrite skipWS_blanks by (assumption || reflexivity).
  change (("}" =? ",")%char) with false.
  change (("}" =? "}")%char) with true. cbv iota.
  reflexivity.
Qed.

(** The decoder reads the one-member object as its member. *)
Lemma json_Unmarshal_label ws v ws' :
  blanks ws = true -> literalText v = true -> blanks ws' = true ->
  json_Unmarshal
    ("{" ++ labelKeyPattern ++ ws ++ String dq (v ++ String dq (ws' ++ "}")))%string
  = Some [("label"%string, JString v)].
Proof.
  intros Hws Hv Hws'.
  set (body := (String dq ("label" ++ String dq (String ":"
                  (ws ++ String dq (v ++ String dq (ws' ++ String "}" ""))))))%string).
  assert (Hline : ("{" ++ labelKeyPattern ++ ws
                     ++ String dq (v ++ String dq (ws' ++ "}")))%string
                  = String "{" body).
  { reflexivity. }
  rewrite Hline. unfold json_Unmarshal.
  assert (Hfuel : exists f, len (String "{" body) = S (S (S f))).
  { unfold body, len. cbn [String.length]. rewrite str_app_cons.
    cbn [String.length]. eauto. }
  destruct Hfuel as (f & ->).
  cbn [parseValue skipWS].
  change (isJSONSpace "{") with false. cbv iota.
  change (("{" =? "{")%char) with true. cbv iota.
  change (maxNestingDepth <=? 0) with false. cbv iota.
  unfold body at 1. cbn [skipWS].
  change (isJSONSpace dq) with false. cbv iota.
  change ((dq =? "}")%char) with false. cbv iota.
  unfold body.
  rewrite (parseMembers_last (S f) (0 + 1) "label" ws v ws' "" [])
    by (assumption || reflexivity).
  reflexivity.
Qed.

(** On a one-member object whose label is a text of plain ASCII, both
    strategies extract that text, with blanks or none after the colon and
    before the closing brace. *)
Theorem strategies_agree_on_a_plain_label (ws v ws' : string) :
  let line :=
    ("{" ++ labelKeyPattern ++ ws ++ String dq (v ++ String dq (ws' ++ "}")))%string in
  blanks ws = true -> literalText v = true -> blanks ws' = true ->
  extracted "label" true line = Some v
  /\ extracted "label" false line = Some v
  /\ (forall st, processLine "label" true st line = processLine "label" false st line).
Proof.
  intros line Hws Hv Hws'.
  assert (Hfast : extracted "label" true line = Some v).
  { unfold extracted. f_equal.
    apply (fastExtractLabel_quoted dq "{" ws v (ws' ++ "}")%string).
    - apply (strings_Index_after_unquoted "{"). reflexivity.
    - now left.
    - assumption.
    - now apply literalText_unescaped. }
  assert (Hfull : extracted "label" false line = Some v).
  { unfold extracted, line. rewrite json_Unmarshal_label by assumption.
    reflexivity. }
  split; [exact Hfast |]. split; [exact Hfull |].
  intros st. rewrite !processLine_countedLabel. unfold countedLabel.
  now rewrite Hfast, Hfull.
Qed.

Lemma strategies_agree_on_a_plain_label_witness :
  extracted "label" true (bq "{`label`: `New York` }") = Some "New York"%string
  /\ extracted "label" false (bq "{`label`: `New York` }") = Some "New York"%string.
Proof.
  destruct (strategies_agree_on_a_plain_label " " "New York" " ")
    as (Hfast & Hfull & _); try reflexivity.
  split; [exact Hfast | exact Hfull].
Defined.

(** ** Which values the full parse counts *)

Lemma str_app_not_empty_l a b : a <> ""%string -> (a ++ b)%string <> ""%string.
Proof. destruct a; [done | discriminate]. Qed.

Lemma str_app_not_empty_r a b : b <> ""%string -> (a ++ b)%string <> ""%string.
Proof. destruct a; [now rewrite str_app_nil_l | discriminate]. Qed.

Lemma fmtE_not_empty digs dp : fmtE digs dp <> ""%string.
Proof.
  destruct (fmtE_hasExponent digs dp) as (before & after & ->).
  apply str_app_not_empty_r. discriminate.
Qed.

Lemma zeros_not_empty n : (0 < n)%nat -> zeros n <> ""%string.
Proof. destruct n; [lia | discriminate]. Qed.

Lemma fmtF_not_empty digs dp : fmtF digs dp <> ""%string.
Proof.
  unfold fmtF.
  destruct (Z.ltb_spec 0 dp) as [Hdp | Hdp].
  - destruct (Z.leb_spec (Z.of_nat (String.length digs)) dp) as [Hnd | Hnd].
    + destruct digs as [| c digs]; [| discriminate].
      rewrite str_app_nil_l. apply zeros_not_empty. simpl. lia.
    + apply str_app_not_empty_r. discriminate.
  - destruct (_ =? 0); discriminate.
Qed.

Lemma fmt_g_not_empty f : fmt_g f <> ""%string.
Proof.
  destruct f as [s | s | | s m e]; simpl; try (destruct s; discriminate);
    try discriminate.
  destruct (shortest m e) as [digs dp].
  apply str_app_not_empty_r.
  destruct (usesExponent dp); [apply fmtE_not_empty | apply fmtF_not_empty].
Qed.

(** Under the full parse every value present at the key gives a label,
    whatever its type, but the empty text: [null] gives [<nil>], an array
    and an object their [%v] texts. *)
Theorem full_parse_labels_every_value_but_the_empty_text
  (data : list (string * JSON)) (key : string) :
  (labelOfData data key = ""%string
   <-> obj_lookup key data = None \/ obj_lookup key data = Some (JString ""))
  /\ (obj_lookup key data = Some JNull -> labelOfData data key = "<nil>"%string)
  /\ (forall elems, obj_lookup key data = Some (JArray elems) ->
        labelOfData data key = ("[" ++ join " " (map fmt_v elems) ++ "]")%string)
  /\ (forall members, obj_lookup key data = Some (JObject members) ->
        exists inner, labelOfData data key = ("map[" ++ inner ++ "]")%string).
Proof.
  unfold labelOfData. split_and!.
  - destruct (obj_lookup key data) as [[| b | f | s | elems | members] |].
    + split; [discriminate | intros [H | H]; discriminate].
    + split; [destruct b; discriminate | intros [H | H]; discriminate].
    + split; [intros H; now apply fmt_g_not_empty in H
             | intros [H | H]; discriminate].
    + split; [intros ->; now right | intros [H | H]; [discriminate | congruence]].
    + split; [discriminate | intros [H | H]; discriminate].
    + split; [discriminate | intros [H | H]; discriminate].
    + split; [now left | reflexivity].
  - now intros ->.
  - now intros elems ->.
  - intros members ->. eexists. reflexivity.
Qed.

(** ** Lines of a file, split and reordered *)

Lemma countedLabels_app key fast l1 l2 :
  countedLabels key fast (l1 ++ l2)
  = countedLabels key fast l1 ++ countedLabels key fast l2.
Proof. unfold countedLabels. apply omap_app. Qed.

(** The counts of a file are those of its parts, merged as the aggregator
    merges them, and they do not depend on the order of the lines. *)
Theorem scanLines_of_parts_and_orders (labelKey : string) (fastParse : bool) :
  (forall lines1 lines2,
      scanLines labelKey fastParse (lines1 ++ lines2)
      = (mergeCounts (fst (scanLines labelKey fastParse lines1))
                     (fst (scanLines labelKey fastParse lines2)),
         Int64.add (snd (scanLines labelKey fastParse lines1))
                   (snd (scanLines labelKey fastParse lines2))))
  /\ (forall lines1 lines2,
        lines1 ≡ₚ lines2 ->
        scanLines labelKey fastParse lines1 = scanLines labelKey fastParse lines2)
  /\ (forall acc path1 path2 path lines1 lines2,
        let part1 := processFile (Scanned lines1 None) path1 labelKey fastParse in
        let part2 := processFile (Scanned lines2 None) path2 labelKey fastParse in
        let whole := processFile (Scanned (lines1 ++ lines2) None) path labelKey fastParse in
        let result (r : gmap string Z * Z * option string) :=
          {| Counts := fst (fst r); Lines := snd (fst r); Error := snd r |} in
        collect (collect acc (result part1)) (result part2)
        = collect acc (result whole)).
Proof.
  assert (Happ : forall lines1 lines2,
      scanLines labelKey fastParse (lines1 ++ lines2)
      = (mergeCounts (fst (scanLines labelKey fastParse lines1))
                     (fst (scanLines labelKey fastParse lines2)),
         Int64.add (snd (scanLines labelKey fastParse lines1))
                   (snd (scanLines labelKey fastParse lines2)))).
  { intros lines1 lines2. rewrite !scanLines_tally. cbn [fst snd].
    rewrite countedLabels_app, mergeCounts_tally, length_app.
    f_equal. unfold Int64.add. rewrite wrap_add_l, wrap_add_r. f_equal. lia. }
  split; [exact Happ |]. split.
  - intros lines1 lines2 Hperm. rewrite !scanLines_tally.
    assert (Hc : countedLabels labelKey fastParse lines1
                 ≡ₚ countedLabels labelKey fastParse lines2).
    { unfold countedLabels. now rewrite Hperm. }
    f_equal; [now apply tally_perm |].
    now rewrite (Permutation_length Hc).
  - intros acc path1 path2 path lines1 lines2. cbv zeta.
    unfold processFile. rewrite Happ.
    destruct (scanLines labelKey fastParse lines1) as [c1 n1].
    destruct (scanLines labelKey fastParse lines2) as [c2 n2].
    unfold collect. cbn [Error Counts Lines fst snd totalCounts totalLines errors].
    f_equal.
    + apply mergeCounts_assoc.
    + symmetry. apply int64_add_assoc.
Qed.

(** ** No workers *)

(** With a worker count of zero or less no job is taken: the call still
    succeeds and reports the files found, but with no label, no line and
    no error. *)
Theorem countLabels_without_workers_counts_nothing
  (w : World) (schedule : list nat) (config : Config) (directory : string)
  (r : Result) :
  Workers config <= 0 ->
  returned (countLabels w schedule config directory) = inr r ->
  LabelCounts r = ∅
  /\ SortedLabels r = []
  /\ TotalLines r = 0
  /\ UniqueLabels r = 0
  /\ Errors r = []
  /\ 0 < FilesProcessed r
  /\ FilesProcessed r = Z.of_nat (length (fst (collectJSONLFiles (tree w) directory))).
Proof.
  intros Hw. unfold countLabels.
  destruct (collectJSONLFiles (tree w) directory) as [files [err |]];
    [discriminate |].
  destruct files as [| file files]; [discriminate |].
  cbn [length Nat.eqb returned fst]. intros Hr. injection Hr as <-.
  unfold arrivals. destruct (Z.ltb_spec 0 (Workers config)) as [Hpos | _]; [lia |].
  cbn [fold_left collectAll totalCounts totalLines errors LabelCounts SortedLabels
       TotalLines UniqueLabels Errors FilesProcessed].
  split_and!; try reflexivity; lia.
Qed.

Lemma countLabels_without_workers_counts_nothing_witness :
  exists r,
    returned (countLabels demoWorld [0; 1; 2]%nat
                {| LabelKey := "label"; Workers := 0; BatchSize := 10000;
                   UseFastParse := true; Output := "out";
                   OutputSuffix := "_label_stats.json" |} "data") = inr r
    /\ LabelCounts r = ∅ /\ Errors r = [] /\ FilesProcessed r = 3.
Proof.
  eexists. split; [reflexivity |].
  destruct (countLabels_without_workers_counts_nothing
              demoWorld [0; 1; 2]%nat
              {| LabelKey := "label"; Workers := 0; BatchSize := 10000;
                 UseFastParse := true; Output := "out";
                 OutputSuffix := "_label_stats.json" |} "data" _
              ltac:(simpl; lia) eq_refl)
    as (Hc & _ & _ & _ & He & _ & _).
  split; [exact Hc |]. split; [exact He | reflexivity].
Defined.

(** ** The command line *)

Lemma args_ind2 (P : list string -> Prop) :
  P [] -> (forall a, P [a]) ->
  (forall a b rest, P rest -> P (b :: rest) -> P (a :: b :: rest)) ->
  forall l, P l.
Proof.
  intros H0 H1 H2.
  assert (H : forall l, P l /\ forall a, P (a :: l)).
  { induction l as [| b rest [IH IH']]; [auto |].
    split; [apply IH' |]. intros a. apply H2; [exact IH | apply IH']. }
  intros l. apply H.
Qed.

Lemma parseArgs_workers_positive args :
  forall config warnings,
    0 < Workers config -> 0 < Workers (fst (parseArgs args config warnings)).
Proof.
  induction args as [| a | a b rest IH1 IH2] using args_ind2;
    intros config warnings Hpos.
  - exact Hpos.
  - cbn [parseArgs].
    repeat (destruct (String.eqb a _); [exact Hpos |]).
    exact Hpos.
  - cbn [parseArgs].
    destruct (String.eqb a "-label-key"); [now apply IH1 |].
    destruct (String.eqb a "-output"); [now apply IH1 |].
    destruct (String.eqb a "-workers").
    { apply IH1. destruct (Sscanf_d b) as [n |]; [| exact Hpos].
      destruct (Z.ltb_spec 0 n); [assumption | exact Hpos]. }
    destruct (String.eqb a "-suffix"); [now apply IH1 |].
    destruct (String.eqb a "-full-parse"); now apply IH2.
Qed.

(** However the program is called, the configuration it goes on with
    has a positive number of workers. *)
Theorem command_line_gives_a_positive_worker_count
  (numCPU : Z) (osArgs : list string) (directory : string) (config : Config)
  (warnings : list string) :
  0 < numCPU < 2 ^ 62 ->
  commandLine numCPU osArgs = Proceed directory config warnings ->
  0 < Workers config.
Proof.
  intros Hcpu. unfold commandLine.
  destruct osArgs as [| prog [| first args]]; try discriminate.
  destruct (_ || _); [discriminate |].
  pose proof (parseArgs_workers_positive args (defaultConfig numCPU) []) as Hw.
  destruct (parseArgs args (defaultConfig numCPU) []) as [config' warnings'].
  intros H. injection H as _ <- _. apply Hw.
  cbn [defaultConfig Workers]. rewrite wrap_small; [lia |].
  unfold Int64.in_range, Int64.half.
  change (2 ^ 63) with (2 * 2 ^ 62). lia.
Qed.

Lemma command_line_gives_a_positive_worker_count_witness :
  commandLine 4 [ "jsonl-counter"; "./data"; "-workers"; "0"; "-workers"; "-3" ]%string
  = Proceed "./data" (defaultConfig 4) []
  /\ 0 < Workers (defaultConfig 4).
Proof.
  assert (H : commandLine 4 [ "jsonl-counter"; "./data"; "-workers"; "0";
                              "-workers"; "-3" ]%string
              = Proceed "./data" (defaultConfig 4) []) by (vm_compute; reflexivity).
  split; [exact H |].
  apply (command_line_gives_a_positive_worker_count 4 _ _ _ _ ltac:(lia) H).
Defined.

Lemma list_sub_two (a b : string) rest : [a; b] ⊆ a :: b :: rest.
Proof.
  intros x Hx. apply elem_of_cons in Hx as [-> | Hx]; [apply list_elem_of_here |].
  apply list_elem_of_singleton in Hx as ->.
  apply list_elem_of_further, list_elem_of_here.
Qed.

Lemma list_sub_rest_two (a b : string) rest : rest ⊆ a :: b :: rest.
Proof. intros x Hx. now do 2 apply list_elem_of_further. Qed.

Lemma list_sub_one (a : string) rest : [a] ⊆ a :: rest.
Proof.
  intros x Hx. apply list_elem_of_singleton in Hx as ->. apply list_elem_of_here.
Qed.

Lemma list_sub_rest_one (a : string) rest : rest ⊆ a :: rest.
Proof. intros x Hx. now apply list_elem_of_further. Qed.

Lemma list_sub_nil (l : list string) : [] ⊆ l.
Proof. intros x Hx. inversion Hx. Qed.

Ltac by_subset :=
  match goal with
  | H : ?l ⊆ ?args, Hx : ?x ∈ ?l |- ?x ∈ ?args => exact (H x Hx)
  end.

Ltac list_mem :=
  repeat first [apply list_elem_of_here | apply list_elem_of_further];
  try assumption.

Lemma changedByOptions_refl args config : changedByOptions args config config.
Proof. unfold changedByOptions. split_and!; done. Qed.

Lemma changedByOptions_trans args1 args2 args c0 c1 c2 :
  args1 ⊆ args -> args2 ⊆ args ->
  changedByOptions args1 c0 c1 -> changedByOptions args2 c1 c2 ->
  changedByOptions args c0 c2.
Proof.
  intros H1 H2 (Hb & Hf & Hk & Ho & Hs & Hw) (Hb' & Hf' & Hk' & Ho' & Hs' & Hw').
  unfold changedByOptions. split_and!.
  - congruence.
  - intros Hne. destruct (decide (UseFastParse c2 = UseFastParse c1)) as [He | Hn].
    + rewrite He in *. destruct (Hf Hne) as [? ?]. split; [done | by_subset].
    + destruct (Hf' Hn) as [? ?]. split; [done | by_subset].
  - intros Hne. destruct (decide (LabelKey c2 = LabelKey c1)) as [He | Hn].
    + rewrite He in *. destruct (Hk Hne) as [? ?]. split; by_subset.
    + destruct (Hk' Hn) as [? ?]. split; by_subset.
  - intros Hne. destruct (decide (Output c2 = Output c1)) as [He | Hn].
    + rewrite He in *. destruct (Ho Hne) as [? ?]. split; by_subset.
    + destruct (Ho' Hn) as [? ?]. split; by_subset.
  - intros Hne. destruct (decide (OutputSuffix c2 = OutputSuffix c1)) as [He | Hn].
    + rewrite He in *. destruct (Hs Hne) as [? ?]. split; by_subset.
    + destruct (Hs' Hn) as [? ?]. split; by_subset.
  - intros Hne. destruct (decide (Workers c2 = Workers c1)) as [He | Hn].
    + rewrite He in *. destruct (Hw Hne) as (? & ? & v & ? & ?).
      split_and!; [by_subset | done | exists v; split; [by_subset | done]].
    + destruct (Hw' Hn) as (? & ? & v & ? & ?).
      split_and!; [by_subset | done | exists v; split; [by_subset | done]].
Qed.

(** What the loop leaves: the fields changed through their options, and
    warnings for arguments that are no option. *)
Lemma parseArgs_changes (args : list string) :
  forall config warnings,
    changedByOptions args config (fst (parseArgs args config warnings))
    /\ exists unknown,
         snd (parseArgs args config warnings)
         = warnings ++ map unknownArgument unknown
         /\ forall a, a ∈ unknown -> a ∈ args /\ knownOption a = false.
Proof.
  assert (Hstep1 : forall a b rest config config1 warnings,
    changedByOptions [a; b] config config1 ->
    (changedByOptions rest config1 (fst (parseArgs rest config1 warnings))
     /\ exists unknown,
          snd (parseArgs rest config1 warnings)
          = warnings ++ map unknownArgument unknown
          /\ forall x, x ∈ unknown -> x ∈ rest /\ knownOption x = false) ->
    changedByOptions (a :: b :: rest) config (fst (parseArgs rest config1 warnings))
    /\ exists unknown,
         snd (parseArgs rest config1 warnings)
         = warnings ++ map unknownArgument unknown
         /\ forall x, x ∈ unknown -> x ∈ a :: b :: rest /\ knownOption x = false).
  { intros a b rest config config1 warnings Hc [Hrest (unknown & Hw & Hu)]. split.
    - eapply (changedByOptions_trans [a; b] rest);
        [apply list_sub_two | apply list_sub_rest_two | exact Hc | exact Hrest].
    - exists unknown. split; [exact Hw |]. intros x Hx.
      destruct (Hu x Hx). split; [now do 2 apply list_elem_of_further | done]. }
  assert (Hnone : forall l config warnings,
    changedByOptions l config config
    /\ exists unknown,
         warnings = warnings ++ map unknownArgument unknown
         /\ forall x, x ∈ unknown -> x ∈ l /\ knownOption x = false).
  { intros l config warnings. split; [apply changedByOptions_refl |].
    exists []. split; [now rewrite app_nil_r | intros x Hx; inversion Hx]. }
  assert (Hflag : forall a rest config warnings,
    String.eqb a "-full-parse" = true ->
    (forall config warnings,
        changedByOptions rest config (fst (parseArgs rest config warnings))
        /\ exists unknown,
             snd (parseArgs rest config warnings)
             = warnings ++ map unknownArgument unknown
             /\ forall x, x ∈ unknown -> x ∈ rest /\ knownOption x = false) ->
    changedByOptions (a :: rest) config
      (fst (parseArgs rest (setUseFastParse false config) warnings))
    /\ exists unknown,
         snd (parseArgs rest (setUseFastParse false config) warnings)
         = warnings ++ map unknownArgument unknown
         /\ forall x, x ∈ unknown -> x ∈ a :: rest /\ knownOption x = false).
  { intros a rest config warnings Ha IH. apply String.eqb_eq in Ha. subst a.
    destruct (IH (setUseFastParse false config) warnings) as [Hrest (unknown & Hw & Hu)].
    split.
    - eapply (changedByOptions_trans ["-full-parse"%string] rest);
        [apply list_sub_one | apply list_sub_rest_one | | exact Hrest].
      unfold changedByOptions. cbn [setUseFastParse BatchSize UseFastParse LabelKey
                                    Output OutputSuffix Workers].
      split_and!; try done. intros _. split; [done | list_mem].
    - exists unknown. split; [exact Hw |]. intros x Hx.
      destruct (Hu x Hx). split; [now apply list_elem_of_further | done]. }
  assert (Hunknown : forall a rest config warnings,
    knownOption a = false ->
    (forall config warnings,
        changedByOptions rest config (fst (parseArgs rest config warnings))
        /\ exists unknown,
             snd (parseArgs rest config warnings)
             = warnings ++ map unknownArgument unknown
             /\ forall x, x ∈ unknown -> x ∈ rest /\ knownOption x = false) ->
    changedByOptions (a :: rest) config
      (fst (parseArgs rest config (warnings ++ [unknownArgument a])))
    /\ exists unknown,
         snd (parseArgs rest config (warnings ++ [unknownArgument a]))
         = warnings ++ map unknownArgument unknown
         /\ forall x, x ∈ unknown -> x ∈ a :: rest /\ knownOption x = false).
  { intros a rest config warnings Ha IH.
    destruct (IH config (warnings ++ [unknownArgument a])) as [Hrest (unknown & Hw & Hu)].
    split.
    - eapply (changedByOptions_trans [] rest);
        [apply list_sub_nil | apply list_sub_rest_one
        | apply changedByOptions_refl | exact Hrest].
    - exists (a :: unknown). split; [rewrite Hw, <- app_assoc; reflexivity |].
      intros x Hx. apply elem_of_cons in Hx as [-> | Hx];
        [split; [apply list_elem_of_here | done] |].
      destruct (Hu x Hx). split; [now apply list_elem_of_further | done]. }
  induction args as [| a | a b rest IH1 IH2] using args_ind2;
    intros config warnings.
  - apply Hnone.
  - cbn [parseArgs].
    destruct (String.eqb a "-label-key") eqn:E1; [apply Hnone |].
    destruct (String.eqb a "-output") eqn:E2; [apply Hnone |].
    destruct (String.eqb a "-workers") eqn:E3; [apply Hnone |].
    destruct (String.eqb a "-suffix") eqn:E4; [apply Hnone |].
    destruct (String.eqb a "-full-parse") eqn:E5.
    + apply (Hflag a [] config warnings E5). intros c w. apply Hnone.
    + apply (Hunknown a [] config warnings); [unfold knownOption; now rewrite E1, E2, E3, E4, E5 |].
      intros c w. apply Hnone.
  - cbn [parseArgs].
    destruct (String.eqb a "-label-key") eqn:E1.
    { apply String.eqb_eq in E1. subst a. apply Hstep1; [| apply IH1].
      unfold changedByOptions. cbn [setLabelKey BatchSize UseFastParse LabelKey
                                    Output OutputSuffix Workers].
      split_and!; try done. intros _. split; list_mem. }
    destruct (String.eqb a "-output") eqn:E2.
    { apply String.eqb_eq in E2. subst a. apply Hstep1; [| apply IH1].
      unfold changedByOptions. cbn [setOutput BatchSize UseFastParse LabelKey
                                    Output OutputSuffix Workers].
      split_and!; try done. intros _. split; list_mem. }
    destruct (String.eqb a "-workers") eqn:E3.
    { apply String.eqb_eq in E3. subst a. apply Hstep1; [| apply IH1].
      destruct (Sscanf_d b) as [n |] eqn:Hscan; [| apply changedByOptions_refl].
      destruct (Z.ltb_spec 0 n) as [Hpos | _]; [| apply changedByOptions_refl].
      unfold changedByOptions. cbn [setWorkers BatchSize UseFastParse LabelKey
                                    Output OutputSuffix Workers].
      split_and!; try done. intros _.
      split_and!; [list_mem | done | exists b; split; [list_mem | done]]. }
    destruct (String.eqb a "-suffix") eqn:E4.
    { apply String.eqb_eq in E4. subst a. apply Hstep1; [| apply IH1].
      unfold changedByOptions. cbn [setOutputSuffix BatchSize UseFastParse LabelKey
                                    Output OutputSuffix Workers].
      split_and!; try done. intros _. split; list_mem. }
    destruct (String.eqb a "-full-parse") eqn:E5.
    + apply (Hflag a (b :: rest) config warnings E5). exact IH2.
    + apply (Hunknown a (b :: rest) config warnings);
        [unfold knownOption; now rewrite E1, E2, E3, E4, E5 | exact IH2].
Qed.

Lemma takesValue_knownOption arg : takesValue arg = true -> knownOption arg = true.
Proof. unfold takesValue, knownOption. intros ->. reflexivity. Qed.

(** The warnings of the loop: one for each argument met that is no
    option, in their order, after those printed before. *)
Lemma parseArgs_warnings (args : list string) :
  forall config warnings,
    snd (parseArgs args config warnings)
    = (warnings ++ map unknownArgument (unknownArguments args))%list.
Proof.
  unfold unknownArguments.
  induction args as [| a | a b rest IH1 IH2] using args_ind2;
    intros config warnings.
  - cbn. now rewrite app_nil_r.
  - cbn [parseArgs argumentsMet List.filter]. unfold knownOption, takesValue.
    destruct (String.eqb a "-label-key"); [cbn; now rewrite app_nil_r |].
    destruct (String.eqb a "-output"); [cbn; now rewrite app_nil_r |].
    destruct (String.eqb a "-workers"); [cbn; now rewrite app_nil_r |].
    destruct (String.eqb a "-suffix"); [cbn; now rewrite app_nil_r |].
    destruct (String.eqb a "-full-parse"); cbn; [now rewrite app_nil_r | reflexivity].
  - cbn [parseArgs argumentsMet List.filter]. unfold knownOption, takesValue.
    destruct (String.eqb a "-label-key"); [cbn [orb negb]; apply IH1 |].
    destruct (String.eqb a "-output"); [cbn [orb negb]; apply IH1 |].
    destruct (String.eqb a "-workers"); [cbn [orb negb]; apply IH1 |].
    destruct (String.eqb a "-suffix"); [cbn [orb negb]; apply IH1 |].
    destruct (String.eqb a "-full-parse"); cbn [orb negb].
    + apply IH2.
    + etransitivity; [apply IH2 |]. cbn [map]. now rewrite <- app_assoc.
Qed.

Lemma argumentsMet_among (args : list string) :
  forall a, a ∈ argumentsMet args -> a ∈ args.
Proof.
  induction args as [| x | x y rest IH1 IH2] using args_ind2; intros a Ha.
  - inversion Ha.
  - cbn [argumentsMet] in Ha. destruct (takesValue x); exact Ha.
  - cbn [argumentsMet] in Ha. apply elem_of_cons in Ha as [-> | Ha];
      [apply list_elem_of_here |].
    destruct (takesValue x).
    + do 2 apply list_elem_of_further. now apply IH1.
    + apply list_elem_of_further. now apply IH2.
Qed.

Lemma argumentsMet_plain (args : list string) :
  Forall (fun arg => takesValue arg = false) args -> argumentsMet args = args.
Proof.
  induction 1 as [| a rest Ha _ IH]; [reflexivity |].
  cbn [argumentsMet]. now rewrite Ha, IH.
Qed.

(** The argument loop changes each field of the configuration only
    through the option of that field, to a value found among the
    arguments; the batch size is never changed and the fast strategy can
    only be turned off.  It prints one warning for each argument it
    reads as an option and that is none, in their order, and no other:
    the arguments it reads as options are all but the values of the
    options that take one, so all of them where no such option is
    given. *)
Theorem command_line_options_change_only_their_fields (args : list string) :
  forall config warnings,
    changedByOptions args config (fst (parseArgs args config warnings))
    /\ snd (parseArgs args config warnings)
       = (warnings ++ map unknownArgument (unknownArguments args))%list
    /\ (forall a, a ∈ unknownArguments args ->
                  a ∈ argumentsMet args /\ a ∈ args /\ knownOption a = false)
    /\ (forall a, a ∈ argumentsMet args -> knownOption a = false ->
                  a ∈ unknownArguments args)
    /\ (Forall (fun arg => takesValue arg = false) args -> argumentsMet args = args).
Proof.
  intros config warnings. split_and!.
  - apply parseArgs_changes.
  - apply parseArgs_warnings.
  - intros a Ha. unfold unknownArguments in Ha.
    apply list_elem_of_In, filter_In in Ha as [Hmet Hknown].
    apply list_elem_of_In in Hmet. apply negb_true_iff in Hknown.
    split_and!; [assumption | now apply argumentsMet_among | assumption].
  - intros a Hmet Hknown. unfold unknownArguments.
    apply list_elem_of_In, filter_In. split; [now apply list_elem_of_In |].
    now rewrite Hknown.
  - apply argumentsMet_plain.
Qed.


Lemma takeDigits_end acc k junk :
  endsNumber junk = true -> takeDigits acc k junk = (acc, k, junk).
Proof.
  destruct junk as [| c r]; [reflexivity |].
  simpl. intros H. apply negb_true_iff in H. now rewrite H.
Qed.

Lemma takeDigits_step c r acc k :
  isDigit c = true ->
  takeDigits acc k (String c r) = takeDigits (10 * acc + (code c - 48)) (k + 1) r.
Proof. intros H. cbn [takeDigits]. now rewrite H. Qed.

Ltac digit_case IH p :=
  cbn [NilEmpty.string_of_uint];
  rewrite str_app_cons, takeDigits_step by reflexivity;
  match goal with
  | |- context [code ?c - 48] =>
      let x := eval vm_compute in (code c - 48) in
      change (code c - 48) with x
  end;
  match goal with
  | |- context [takeDigits ?v _ _] => replace v with (Z.pos p) by lia
  end;
  rewrite IH by assumption; cbn [Pos.of_uint_acc String.length];
  match goal with
  | |- (?a, ?b, ?c) = (?a', ?b', ?c') => replace b' with b by lia
  end;
  reflexivity.

Lemma takeDigits_uint_acc d : forall acc k junk,
  endsNumber junk = true ->
  takeDigits (Z.pos acc) k (NilEmpty.string_of_uint d ++ junk)
  = (Z.pos (Pos.of_uint_acc d acc),
     k + Z.of_nat (String.length (NilEmpty.string_of_uint d)), junk).
Proof.
  induction d as [| d IH | d IH | d IH | d IH | d IH | d IH | d IH | d IH | d IH | d IH];
    intros acc k junk Hj.
  - change (NilEmpty.string_of_uint Decimal.Nil) with ""%string.
    rewrite takeDigits_end by assumption. simpl. now rewrite Z.add_0_r.
  - digit_case IH (10 * acc)%positive.
  - digit_case IH (1 + 10 * acc)%positive.
  - digit_case IH (2 + 10 * acc)%positive.
  - digit_case IH (3 + 10 * acc)%positive.
  - digit_case IH (4 + 10 * acc)%positive.
  - digit_case IH (5 + 10 * acc)%positive.
  - digit_case IH (6 + 10 * acc)%positive.
  - digit_case IH (7 + 10 * acc)%positive.
  - digit_case IH (8 + 10 * acc)%positive.
  - digit_case IH (9 + 10 * acc)%positive.
Qed.

Ltac lead_case p :=
  cbn [NilEmpty.string_of_uint];
  rewrite str_app_cons, takeDigits_step by reflexivity;
  match goal with
  | |- context [code ?c - 48] =>
      let x := eval vm_compute in (code c - 48) in
      change (code c - 48) with x
  end;
  match goal with
  | |- context [takeDigits ?v _ _] => replace v with (Z.pos p) by lia
  end;
  rewrite takeDigits_uint_acc by assumption; cbn [Pos.of_uint String.length];
  match goal with
  | |- (?a, ?b, ?c) = (?a', ?b', ?c') => replace b' with b by lia
  end;
  reflexivity.

Lemma takeDigits_uint d : forall k junk,
  endsNumber junk = true ->
  takeDigits 0 k (NilEmpty.string_of_uint d ++ junk)
  = (Z.of_N (Pos.of_uint d),
     k + Z.of_nat (String.length (NilEmpty.string_of_uint d)), junk).
Proof.
  induction d as [| d IH | d IH | d IH | d IH | d IH | d IH | d IH | d IH | d IH | d IH];
    intros k junk Hj.
  - change (NilEmpty.string_of_uint Decimal.Nil) with ""%string.
    rewrite takeDigits_end by assumption. simpl. now rewrite Z.add_0_r.
  - cbn [NilEmpty.string_of_uint].
    rewrite str_app_cons, takeDigits_step by reflexivity.
    change (10 * 0 + (code "0" - 48)) with 0.
    rewrite IH by assumption. cbn [Pos.of_uint String.length].
    match goal with
    | |- (?a, ?b, ?c) = (?a', ?b', ?c') => replace b' with b by lia
    end.
    reflexivity.
  - lead_case 1%positive.
  - lead_case 2%positive.
  - lead_case 3%positive.
  - lead_case 4%positive.
  - lead_case 5%positive.
  - lead_case 6%positive.
  - lead_case 7%positive.
  - lead_case 8%positive.
  - lead_case 9%positive.
Qed.

(** The decimal text of a positive number starts with a digit. *)
Lemma itoa_pos n :
  0 < n ->
  exists c r, itoa n = String c r /\ isDigit c = true
              /\ itoa n = NilEmpty.string_of_uint (N.to_uint (Z.to_N n)).
Proof.
  intros Hn. unfold itoa.
  destruct (Z.to_N n) as [| p] eqn:Hp; [lia |].
  assert (Hne : N.to_uint (N.pos p) <> Decimal.Nil).
  { intros H. pose proof (DecimalN.Unsigned.of_to (N.pos p)) as Hof.
    rewrite H in Hof. discriminate Hof. }
  destruct (N.to_uint (N.pos p)) as [| d | d | d | d | d | d | d | d | d | d];
    [done | ..]; eexists _, _; (split; [reflexivity |]); split; reflexivity.
Qed.

Lemma digit_stops_scanSkipSpace c r :
  isDigit c = true -> scanSkipSpace (String c r) = Some (String c r).
Proof.
  unfold isDigit, code. intros H. apply andb_prop in H as [Hlo Hhi].
  apply Z.leb_le in Hlo, Hhi.
  assert (Hn : (48 <= nat_of_ascii c <= 57)%nat) by lia.
  cbn [scanSkipSpace].
  destruct (Ascii.eqb_spec c LF) as [-> | _];
    [change (nat_of_ascii LF) with 10%nat in Hn; lia |].
  assert (H1 : isSpace1 c = false).
  { unfold isSpace1.
    destruct (Nat.leb_spec 9 (nat_of_ascii c)), (Nat.leb_spec (nat_of_ascii c) 13),
      (Nat.eqb_spec (nat_of_ascii c) 32); simpl; try reflexivity; lia. }
  rewrite H1. destruct r as [| c2 r2]; [reflexivity |].
  assert (H2 : isSpace2 c c2 = false).
  { unfold isSpace2. destruct (Nat.eqb_spec (nat_of_ascii c) 194); [lia | reflexivity]. }
  rewrite H2. destruct r2 as [| c3 r3]; [reflexivity |].
  assert (H3 : isSpace3 c c2 c3 = false).
  { unfold isSpace3.
    destruct (Nat.eqb_spec (nat_of_ascii c) 225); [lia |].
    destruct (Nat.eqb_spec (nat_of_ascii c) 226); [lia |].
    destruct (Nat.eqb_spec (nat_of_ascii c) 227); [lia |]. reflexivity. }
  now rewrite H3.
Qed.

Lemma Sscanf_d_itoa n junk :
  0 < n < 2 ^ 63 -> endsNumber junk = true ->
  Sscanf_d (itoa n ++ junk) = Some n.
Proof.
  intros Hn Hj. destruct (itoa_pos n ltac:(lia)) as (c & r & Hcr & Hc & Hstr).
  unfold Sscanf_d. rewrite Hcr, str_app_cons, digit_stops_scanSkipSpace by assumption.
  assert (Hplus : (c =? "+")%char = false).
  { destruct (Ascii.eqb_spec c "+") as [-> | _]; [discriminate Hc | reflexivity]. }
  assert (Hminus : (c =? "-")%char = false).
  { destruct (Ascii.eqb_spec c "-") as [-> | _]; [discriminate Hc | reflexivity]. }
  rewrite Hplus, Hminus. rewrite <- str_app_cons, <- Hcr, Hstr.
  rewrite takeDigits_uint by assumption.
  change (Pos.of_uint ?d) with (N.of_uint d). rewrite DecimalN.Unsigned.of_to.
  rewrite Z2N.id by lia.
  assert (Hlen : 0 + Z.of_nat (String.length
                   (NilEmpty.string_of_uint (N.to_uint (Z.to_N n)))) <> 0).
  { rewrite <- Hstr, Hcr. simpl. lia. }
  apply Z.eqb_neq in Hlen. rewrite Hlen.
  destruct (Z.leb_spec (- Int64.half) n) as [_ | Hlt];
    [| unfold Int64.half in Hlt; lia].
  destruct (Z.ltb_spec n Int64.half) as [_ | Hge];
    [reflexivity | unfold Int64.half in Hge; lia].
Qed.

(** The option -workers takes the decimal text of every positive count
    below 2^63, also when other text follows the digits. *)
Theorem workers_option_takes_a_decimal_count
  (n : Z) (junk : string) (args : list string) (config : Config)
  (warnings : list string) :
  0 < n < 2 ^ 63 ->
  endsNumber junk = true ->
  parseArgs ("-workers"%string :: (itoa n ++ junk)%string :: args) config warnings
  = parseArgs args (setWorkers n config) warnings.
Proof.
  intros Hn Hj. cbn [parseArgs].
  change (String.eqb "-workers" "-label-key") with false.
  change (String.eqb "-workers" "-output") with false.
  change (String.eqb "-workers" "-workers") with true. cbv iota.
  rewrite Sscanf_d_itoa by assumption.
  destruct (Z.ltb_spec 0 n); [reflexivity | lia].
Qed.

Lemma workers_option_takes_a_decimal_count_witness :
  fst (parseArgs [ "-workers"; "16x" ]%string (defaultConfig 4) [])
  = setWorkers 16 (defaultConfig 4).
Proof.
  change "16x"%string with (itoa 16 ++ "x")%string.
  rewrite (workers_option_takes_a_decimal_count 16 "x" [] (defaultConfig 4) []);
    [reflexivity | lia | reflexivity].
Defined.

(** ** The output file *)

Lemma freeOf_app c a b : freeOf c (a ++ b) = freeOf c a && freeOf c b.
Proof. unfold freeOf. now rewrite list_ascii_of_string_app, forallb_app. Qed.

Lemma freeOf_cons c x s :
  freeOf c (String x s) = negb (x =? c)%char && freeOf c s.
Proof. reflexivity. Qed.

(** Replacing leaves out no byte that neither the text nor the
    replacement holds. *)
Lemma replaceFrom_freeOf b old new s : forall skip,
  freeOf b s = true -> freeOf b new = true ->
  freeOf b (replaceFrom old new skip s) = true.
Proof.
  induction s as [| c r IH]; intros skip Hs Hnew; [reflexivity |].
  rewrite freeOf_cons in Hs. apply andb_prop in Hs as [Hc Hr].
  cbn [replaceFrom]. destruct skip as [| k]; [| now apply IH].
  destruct (String.prefix old (String c r)).
  - rewrite freeOf_app, Hnew. now apply IH.
  - rewrite freeOf_cons, Hc. now apply IH.
Qed.

(** Replacing a byte by a text without it leaves none of it. *)
Lemma replaceFrom_byte_gone o new s :
  freeOf o new = true ->
  freeOf o (replaceFrom (String o "") new 0 s) = true.
Proof.
  intros Hnew. induction s as [| c r IH]; [reflexivity |].
  cbn [replaceFrom]. change (len (String o "") - 1)%nat with 0%nat.
  destruct (String.prefix (String o "") (String c r)) eqn:Hp.
  - now rewrite freeOf_app, Hnew, IH.
  - rewrite freeOf_cons, IH, andb_true_r.
    cbn [String.prefix] in Hp.
    destruct (ascii_dec o c) as [-> | Hne].
    + destruct r; discriminate Hp.
    + apply negb_true_iff, Ascii.eqb_neq. congruence.
Qed.

Lemma outputBaseName_sanitised absDir :
  freeOf " " (outputBaseName absDir) = true
  /\ freeOf "/" (outputBaseName absDir) = true
  /\ freeOf backslash (outputBaseName absDir) = true
  /\ freeOf ":" (outputBaseName absDir) = true.
Proof.
  unfold outputBaseName. cbv zeta.
  unfold strings_ReplaceAll.
  change (String.eqb " " "_") with false.
  change (String.eqb "/" "_") with false.
  change (String.eqb (String backslash "") "_") with false.
  change (String.eqb ":" "") with false.
  change (String.eqb " " "") with false.
  change (String.eqb "/" "") with false.
  change (String.eqb (String backslash "") "") with false.
  cbv iota.
  match goal with
  | |- context [replaceFrom " " "_" 0 ?d] => set (d0 := d)
  end.
  set (d1 := replaceFrom " " "_" 0 d0).
  set (d2 := replaceFrom "/" "_" 0 d1).
  set (d3 := replaceFrom (String backslash "") "_" 0 d2).
  assert (H1 : freeOf " " d1 = true) by (apply replaceFrom_byte_gone; reflexivity).
  assert (H2 : freeOf "/" d2 = true) by (apply replaceFrom_byte_gone; reflexivity).
  assert (H3 : freeOf backslash d3 = true) by (apply replaceFrom_byte_gone; reflexivity).
  assert (H12 : freeOf " " d2 = true) by (apply replaceFrom_freeOf; [assumption | reflexivity]).
  assert (H13 : freeOf " " d3 = true) by (apply replaceFrom_freeOf; [assumption | reflexivity]).
  assert (H23 : freeOf "/" d3 = true) by (apply replaceFrom_freeOf; [assumption | reflexivity]).
  split_and!.
  - apply replaceFrom_freeOf; [assumption | reflexivity].
  - apply replaceFrom_freeOf; [assumption | reflexivity].
  - apply replaceFrom_freeOf; [assumption | reflexivity].
  - apply replaceFrom_byte_gone. reflexivity.
Qed.

(** The path returned names a file after the directory: the directory's
    name without blank, slash, backslash and colon, followed by the
    suffix (the default one for an empty suffix); without an output
    directory it is that file name alone, else it is put below the
    output directory, which [ensureDir] accepted. *)
Theorem getOutputFilePath_names_the_file_after_the_directory
  (wd : string + string) (probe : DirProbe)
  (directory outputDir suffix path : string) (printed : list string) :
  getOutputFilePath wd probe directory outputDir suffix = (inr path, printed) ->
  exists absDir,
    filepath_Abs wd directory = inr absDir
    /\ freeOf " " (outputBaseName absDir) = true
    /\ freeOf "/" (outputBaseName absDir) = true
    /\ freeOf backslash (outputBaseName absDir) = true
    /\ freeOf ":" (outputBaseName absDir) = true
    /\ let fileName :=
         (outputBaseName absDir
            ++ (if String.eqb suffix "" then defaultSuffix else suffix))%string in
       (outputDir = ""%string -> path = fileName /\ printed = [])
       /\ (outputDir <> ""%string ->
           ensureDir probe outputDir = (None, printed)
           /\ exists absOutputDir,
                filepath_Abs wd outputDir = inr absOutputDir
                /\ path = filepath_JoinAll [absOutputDir; fileName]).
Proof.
  unfold getOutputFilePath.
  destruct (filepath_Abs wd directory) as [err | absDir]; [discriminate |].
  intros H. exists absDir. split; [reflexivity |].
  destruct (outputBaseName_sanitised absDir) as (H1 & H2 & H3 & H4).
  split_and!; try assumption.
  - intros ->. cbn in H. now injection H as <- <-.
  - intros Hne. apply String.eqb_neq in Hne. rewrite Hne in H. cbn [negb] in H.
    destruct (ensureDir probe outputDir) as [[err |] out]; [discriminate |].
    destruct (filepath_Abs wd outputDir) as [err | absOut]; [discriminate |].
    injection H as <- <-. split; [reflexivity |]. now exists absOut.
Qed.

(** The directory [./my data:1] below [/home/u], with the output
    directory [out]: the file is [my_data1_label_stats.json] below
    [/home/u/out]. *)
Lemma getOutputFilePath_names_the_file_after_the_directory_witness :
  getOutputFilePath (inr "/home/u")
    {| firstStat := StatDir; mkdirAll := None; secondStat := StatDir |}
    "./my data:1" "out" ""
  = (inr "/home/u/out/my_data1_label_stats.json", [])
  /\ outputBaseName "/home/u/my data:1" = "my_data1"%string
  /\ freeOf " " (outputBaseName "/home/u/my data:1") = true
  /\ freeOf ":" (outputBaseName "/home/u/my data:1") = true.
Proof.
  assert (H : getOutputFilePath (inr "/home/u")
                {| firstStat := StatDir; mkdirAll := None; secondStat := StatDir |}
                "./my data:1" "out" ""
              = (inr "/home/u/out/my_data1_label_stats.json"%string, []))
    by (vm_compute; reflexivity).
  split; [exact H |]. split; [vm_compute; reflexivity |].
  destruct (getOutputFilePath_names_the_file_after_the_directory _ _ _ _ _ _ _ H)
    as (absDir & Habs & Hblank & _ & _ & Hcolon & _).
  vm_compute in Habs. injection Habs as <-.
  split; [exact Hblank | exact Hcolon].
Defined.

(** [ensureDir] accepts a path exactly when it is a directory in the
    end, the one found or the one made; it prints only when it has made
    the directory, and the empty path is accepted unseen. *)
Theorem ensureDir_accepts_directories_only (probe : DirProbe) (dirPath : string) :
  dirPath <> ""%string ->
  coherent probe ->
  (fst (ensureDir probe dirPath) = None <-> secondStat probe = StatDir)
  /\ (snd (ensureDir probe dirPath) <> []
      <-> exists err, firstStat probe = StatNotExist err /\ mkdirAll probe = None)
  /\ (forall p, ensureDir p "" = (None, [])).
Proof.
  intros Hne Hco. apply String.eqb_neq in Hne.
  unfold ensureDir, coherent in *. rewrite Hne.
  destruct probe as [first mk second]. cbn [firstStat mkdirAll secondStat] in *.
  split_and!.
  - destruct first as [| | e | e]; [| | destruct mk as [m |] |]; subst second;
      cbn; split; intros H; try done.
  - destruct first as [| | e | e]; [| | destruct mk as [m |] |]; subst second;
      cbn; split; try done; try (intros (err & H1 & H2); discriminate).
    intros _. now exists e.
  - reflexivity.
Qed.

Lemma ensureDir_accepts_directories_only_witness :
  ensureDir {| firstStat := StatNotExist "stat out: no such file or directory";
               mkdirAll := None; secondStat := StatDir |} "out"
  = (None, ["已创建输出目录: out"%string])
  /\ ensureDir {| firstStat := StatFile; mkdirAll := None; secondStat := StatFile |} "out"
     = (Some "输出路径 out 已存在但不是目录"%string, []).
Proof.
  split; [| reflexivity].
  destruct (ensureDir_accepts_directories_only
              {| firstStat := StatNotExist "stat out: no such file or directory";
                 mkdirAll := None; secondStat := StatDir |} "out"
              ltac:(discriminate) eq_refl) as ([_ Hok] & _ & _).
  specialize (Hok eq_refl). reflexivity.
Defined.

Lemma pathElems_cons c r :
  pathElems (String c r)
  = if (c =? "/")%char then ""%string :: pathElems r
    else match pathElems r with
         | e :: es => String c e :: es
         | [] => [String c ""]
         end.
Proof. reflexivity. Qed.

Lemma pathElems_not_nil p : pathElems p <> [].
Proof.
  induction p as [| c r IH]; [discriminate |].
  rewrite pathElems_cons. destruct (c =? "/")%char; [discriminate |].
  destruct (pathElems r); [done | discriminate].
Qed.

Lemma pathElems_slash_free p :
  Forall (fun e => freeOf "/" e = true) (pathElems p).
Proof.
  induction p as [| c r IH]; [repeat constructor |].
  rewrite pathElems_cons. destruct (c =? "/")%char eqn:Hc.
  - constructor; [reflexivity | exact IH].
  - destruct (pathElems r) as [| e es] eqn:Hr; [now apply pathElems_not_nil in Hr |].
    apply Forall_cons in IH as [He Hes]. constructor; [| exact Hes].
    rewrite freeOf_cons, Hc. exact He.
Qed.

(** The elements of a text without a slash: the text. *)
Lemma pathElems_single a : freeOf "/" a = true -> pathElems a = [a].
Proof.
  induction a as [| c r IH]; intros Ha; [reflexivity |].
  rewrite freeOf_cons in Ha. apply andb_prop in Ha as [Hc Hr].
  apply negb_true_iff in Hc. rewrite pathElems_cons, Hc, IH by assumption.
  reflexivity.
Qed.

Lemma pathElems_app_slash a b :
  freeOf "/" a = true ->
  pathElems (a ++ String "/" b) = a :: pathElems b.
Proof.
  induction a as [| c r IH]; intros Ha.
  - rewrite str_app_nil_l. reflexivity.
  - rewrite freeOf_cons in Ha. apply andb_prop in Ha as [Hc Hr].
    apply negb_true_iff in Hc.
    rewrite str_app_cons, pathElems_cons, Hc, IH by assumption. reflexivity.
Qed.

Lemma pathElems_join l :
  l <> [] -> Forall (fun e => freeOf "/" e = true) l ->
  pathElems (join "/" l) = l.
Proof.
  induction l as [| a l IH]; [done |]. intros _ Hl.
  apply Forall_cons in Hl as [Ha Hl].
  destruct l as [| b l]; [now apply pathElems_single |].
  change (join "/" (a :: b :: l)) with (a ++ String "/" (join "/" (b :: l)))%string.
  rewrite pathElems_app_slash by assumption.
  now rewrite IH.
Qed.

Lemma lastElem_proper l : forall found,
  Forall properElem l ->
  lastElem l found = match rev l with e :: _ => Some e | [] => found end.
Proof.
  induction l as [| a l IH]; intros found Hl; [reflexivity |].
  apply Forall_cons in Hl as [(Hne & _) Hl].
  cbn [lastElem]. apply String.eqb_neq in Hne. rewrite Hne.
  rewrite IH by assumption. cbn [rev].
  destruct (rev l) as [| e es]; reflexivity.
Qed.

Lemma cleanStep_proper kept e :
  Forall properElem kept -> freeOf "/" e = true ->
  Forall properElem (cleanStep true kept e).
Proof.
  intros Hk He. unfold cleanStep.
  destruct (String.eqb_spec e "") as [-> | H0]; [exact Hk |].
  destruct (String.eqb_spec e ".") as [-> | H1]; [exact Hk |]. cbn [orb].
  destruct (String.eqb_spec e "..") as [-> | H2].
  - destruct kept as [| top below]; [constructor |].
    apply Forall_cons in Hk as [(_ & _ & Htop & _) Hb].
    apply String.eqb_neq in Htop. now rewrite Htop.
  - constructor; [| exact Hk]. now repeat split.
Qed.

Lemma fold_cleanStep_proper elems : forall kept,
  Forall properElem kept ->
  Forall (fun e => freeOf "/" e = true) elems ->
  Forall properElem (fold_left (cleanStep true) elems kept).
Proof.
  induction elems as [| e elems IH]; intros kept Hk He; [exact Hk |].
  apply Forall_cons in He as [He Hes]. cbn [fold_left].
  apply IH; [now apply cleanStep_proper | exact Hes].
Qed.

(** A rooted path is cleaned to the slash and proper elements. *)
Lemma filepath_Clean_rooted p :
  filepath_IsAbs p = true ->
  exists kept, Forall properElem kept
               /\ filepath_Clean p = ("/" ++ join "/" (rev kept))%string.
Proof.
  intros Hp. unfold filepath_Clean.
  destruct (String.eqb_spec p "") as [-> | _]; [discriminate Hp |].
  cbv zeta. rewrite Hp.
  exists (fold_left (cleanStep true) (pathElems p) []).
  split; [| reflexivity].
  apply fold_cleanStep_proper; [constructor | apply pathElems_slash_free].
Qed.

Lemma properElem_rev kept : Forall properElem kept -> Forall properElem (rev kept).
Proof. intros H. now apply Forall_rev. Qed.

Lemma join_not_empty a l : a <> ""%string -> join "/" (a :: l) <> ""%string.
Proof.
  intros Ha. destruct l as [| b l]; [exact Ha |].
  change (join "/" (a :: b :: l)) with (a ++ String "/" (join "/" (b :: l)))%string.
  destruct a; [done | discriminate].
Qed.

Lemma filepath_Base_rooted kept :
  Forall properElem kept ->
  filepath_Base ("/" ++ join "/" (rev kept))
  = match kept with top :: _ => top | [] => "/"%string end.
Proof.
  intros Hk. unfold filepath_Base.
  change ("/" ++ join "/" (rev kept))%string with (String "/" (join "/" (rev kept))).
  change (String.eqb (String "/" (join "/" (rev kept))) "") with false. cbv iota.
  rewrite pathElems_cons. change (("/" =? "/")%char) with true. cbv iota.
  cbn [lastElem]. change (String.eqb "" "") with true. cbv iota.
  destruct kept as [| top below]; [reflexivity |].
  assert (Hrev : rev (top :: below) <> []).
  { cbn [rev]. intros H. now apply app_eq_nil in H as [_ H]. }
  rewrite pathElems_join; [| exact Hrev |].
  2:{ apply Forall_rev. eapply Forall_impl; [exact Hk |]. now intros e (_ & _ & _ & He). }
  rewrite lastElem_proper by now apply Forall_rev.
  now rewrite rev_involutive.
Qed.

Lemma filepath_Abs_rooted wd directory absDir :
  (forall dir, wd = inr dir -> filepath_IsAbs dir = true) ->
  filepath_Abs wd directory = inr absDir ->
  exists p, filepath_IsAbs p = true /\ absDir = filepath_Clean p.
Proof.
  intros Hwd. unfold filepath_Abs.
  destruct (filepath_IsAbs directory) eqn:Hd.
  - intros H. injection H as <-. now exists directory.
  - destruct wd as [err | dir]; [discriminate |].
    specialize (Hwd dir eq_refl).
    intros H. injection H as <-.
    cbn [filepath_JoinAll].
    destruct (String.eqb_spec dir "") as [-> | _]; [discriminate Hwd |].
    exists (join "/" [dir; directory]). split; [| reflexivity].
    change (join "/" [dir; directory]) with (dir ++ String "/" directory)%string.
    destruct dir as [| c r]; [discriminate Hwd |].
    unfold filepath_IsAbs in *. rewrite str_app_cons.
    cbn [String.prefix] in *.
    destruct (ascii_dec "/" c); [| discriminate Hwd].
    now destruct (r ++ String "/" directory)%string.
Qed.

(** The last element of an absolute path that is clean. *)
Lemma filepath_Base_of_absolute
  (wd : string + string) (directory absDir : string) :
  (forall dir, wd = inr dir -> filepath_IsAbs dir = true) ->
  filepath_Abs wd directory = inr absDir ->
  filepath_IsAbs absDir = true
  /\ filepath_Base absDir <> "."%string
  /\ filepath_Base absDir <> ""%string
  /\ (filepath_Base absDir = "/"%string <-> absDir = "/"%string)
  /\ freeOf "/" (filepath_Base absDir) = negb (String.eqb absDir "/").
Proof.
  intros Hwd Habs.
  destruct (filepath_Abs_rooted wd directory absDir Hwd Habs) as (p & Hp & ->).
  destruct (filepath_Clean_rooted p Hp) as (kept & Hk & ->).
  rewrite filepath_Base_rooted by assumption.
  assert (Hrooted : filepath_IsAbs ("/" ++ join "/" (rev kept)) = true).
  { unfold filepath_IsAbs.
    change ("/" ++ join "/" (rev kept))%string with (String "/" (join "/" (rev kept))).
    cbn [String.prefix]. destruct (ascii_dec "/" "/"); [| done].
    now destruct (join "/" (rev kept)). }
  split; [exact Hrooted |]. clear Hrooted.
  destruct kept as [| top below].
  - split_and!; try done.
  - pose proof Hk as Hk'. apply Forall_cons in Hk' as [(H0 & H1 & H2 & Hs) _].
    assert (Hne : ("/" ++ join "/" (rev (top :: below)))%string <> "/"%string).
    { assert (Hall : Forall properElem (rev (top :: below))) by now apply Forall_rev.
      destruct (rev (top :: below)) as [| b l] eqn:Hr.
      - cbn [rev] in Hr. now apply app_eq_nil in Hr as [_ Hr].
      - apply Forall_cons in Hall as [(Hb & _) _].
        pose proof (join_not_empty b l Hb) as Hj.
        destruct (join "/" (b :: l)); [done | discriminate]. }
    split_and!; try done.
    + split; [| done]. intros ->. discriminate Hs.
    + apply String.eqb_neq in Hne. rewrite Hne. exact Hs.
Qed.

(** The absolute path of the input directory is rooted and its last
    element is a name, except for the root itself: the tests for [.] and
    the empty name at line 173 never hold, and the default name is used
    for the root directory only.  So without an output directory
    [getOutputFilePath] returns the name [data] with the suffix for the
    root, and for any other directory its last element, cleaned of
    blanks, slashes, backslashes and colons, with the suffix. *)
Theorem default_name_is_used_for_the_root_only
  (wd : string + string) (directory absDir : string) :
  (forall dir, wd = inr dir -> filepath_IsAbs dir = true) ->
  filepath_Abs wd directory = inr absDir ->
  filepath_IsAbs absDir = true
  /\ filepath_Base absDir <> "."%string
  /\ filepath_Base absDir <> ""%string
  /\ (filepath_Base absDir = "/"%string <-> absDir = "/"%string)
  /\ freeOf "/" (filepath_Base absDir) = negb (String.eqb absDir "/")
  /\ (forall probe suffix,
        getOutputFilePath wd probe directory "" suffix
        = (inr ((if String.eqb absDir "/" then "data"
                 else strings_ReplaceAll
                        (strings_ReplaceAll
                           (strings_ReplaceAll
                              (strings_ReplaceAll (filepath_Base absDir) " " "_")
                              "/" "_")
                           (String backslash "") "_")
                        ":" "")
                  ++ (if String.eqb suffix "" then defaultSuffix else suffix))%string,
           [])).
Proof.
  intros Hwd Habs.
  destruct (filepath_Base_of_absolute wd directory absDir Hwd Habs)
    as (Hrooted & Hdot & Hempty & Hroot & Hfree).
  split_and!; try assumption.
  intros probe suffix. unfold getOutputFilePath. rewrite Habs.
  cbn [String.eqb negb]. cbv iota. do 2 f_equal. f_equal.
  unfold outputBaseName.
  apply String.eqb_neq in Hdot, Hempty. rewrite Hdot, Hempty.
  destruct (String.eqb_spec absDir "/") as [-> | Hne].
  - reflexivity.
  - destruct (String.eqb_spec (filepath_Base absDir) "/") as [Hb | _];
      [now apply Hroot in Hb | reflexivity].
Qed.

Lemma default_name_is_used_for_the_root_only_witness :
  filepath_Abs (inr "/home/u") "../.." = inr "/"%string
  /\ outputBaseName "/" = "data"%string
  /\ filepath_Base "/" = "/"%string
  /\ (forall probe,
        getOutputFilePath (inr "/home/u") probe "../.." "" ""
        = (inr "data_label_stats.json"%string, [])).
Proof.
  assert (H : filepath_Abs (inr "/home/u") "../.." = inr "/"%string)
    by (vm_compute; reflexivity).
  split; [exact H |]. split; [vm_compute; reflexivity |].
  destruct (default_name_is_used_for_the_root_only (inr "/home/u") "../.." "/")
    as (_ & _ & _ & [_ Hroot] & _ & Hout).
  - intros dir Hd. injection Hd as <-. reflexivity.
  - exact H.
  - split; [apply Hroot; reflexivity |].
    intros probe. exact (Hout probe ""%string).
Defined.

(** ** Which names are label files *)

Lemma string_of_list_ascii_app x y :
  string_of_list_ascii (x ++ y)
  = (string_of_list_ascii x ++ string_of_list_ascii y)%string.
Proof.
  induction x as [| c x IH]; [reflexivity |].
  simpl. rewrite str_app_cons. now rewrite IH.
Qed.

(** The scan of [filepath.Ext] from the end of the name: over bytes that
    are neither dot nor slash up to the last dot. *)
Lemma ext_rev_found pre post acc :
  Forall (fun c => c <> "."%char /\ c <> "/"%char) pre ->
  ext_rev (pre ++ "."%char :: post) acc = "."%char :: rev pre ++ acc.
Proof.
  revert acc. induction pre as [| c pre IH]; intros acc Hpre; [reflexivity |].
  apply Forall_cons in Hpre as [[Hdot Hslash] Hpre].
  cbn [app ext_rev].
  apply Ascii.eqb_neq in Hdot, Hslash. rewrite Hdot, Hslash.
  rewrite IH by assumption. cbn [rev]. now rewrite <- app_assoc.
Qed.

Lemma ext_rev_cases l : forall acc,
  ext_rev l acc = []
  \/ exists pre post,
       l = pre ++ "."%char :: post
       /\ Forall (fun c => c <> "."%char /\ c <> "/"%char) pre
       /\ ext_rev l acc = "."%char :: rev pre ++ acc.
Proof.
  induction l as [| c l IH]; intros acc; [now left |].
  cbn [ext_rev].
  destruct (Ascii.eqb_spec c "/") as [-> | Hslash]; [now left |].
  destruct (Ascii.eqb_spec c ".") as [-> | Hdot].
  - right. exists [], l. split; [reflexivity |]. split; [constructor | reflexivity].
  - destruct (IH (c :: acc)) as [Hnil | (pre & post & -> & Hpre & Hext)];
      [now left |].
    right. exists (c :: pre), post. split; [reflexivity |].
    split; [now constructor |].
    rewrite Hext. cbn [rev]. now rewrite <- app_assoc.
Qed.

(** The extension is the end of the name. *)
Lemma filepath_Ext_suffix name :
  exists stem, name = (stem ++ filepath_Ext name)%string.
Proof.
  unfold filepath_Ext.
  destruct (ext_rev_cases (rev (list_ascii_of_string name)) [])
    as [-> | (pre & post & Hl & _ & ->)].
  - exists name. now rewrite str_app_nil_r.
  - exists (string_of_list_ascii (rev post)).
    rewrite <- string_of_list_ascii_app, app_nil_r.
    apply (f_equal (@rev ascii)) in Hl.
    rewrite rev_involutive, rev_app_distr in Hl. cbn [rev] in Hl.
    rewrite <- app_assoc in Hl. cbn [app] in Hl.
    rewrite <- Hl. now rewrite string_of_list_ascii_of_string.
Qed.

Lemma lowerByte_dot c : lowerByte c = "."%char -> c = "."%char.
Proof.
  unfold lowerByte.
  destruct ((65 <=? nat_of_ascii c) && (nat_of_ascii c <=? 90))%nat eqn:Hup;
    [| done].
  apply andb_prop in Hup as [Hlo Hhi]. apply Nat.leb_le in Hlo, Hhi.
  intros H. apply (f_equal nat_of_ascii) in H.
  rewrite nat_ascii_embedding in H by lia.
  change (nat_of_ascii ".") with 46%nat in H. lia.
Qed.

Lemma lowerByte_letter c t :
  lowerByte c = t -> t <> "."%char -> t <> "/"%char ->
  c <> "."%char /\ c <> "/"%char.
Proof.
  intros H Hdot Hslash. split; intros ->; subst t; [now apply Hdot | now apply Hslash].
Qed.

(** A text that lowers to [.jsonl] or [.json] is a dot and letters. *)
Lemma lowered_extension ext :
  strings_ToLower ext = ".jsonl"%string \/ strings_ToLower ext = ".json"%string ->
  exists e, list_ascii_of_string ext = "."%char :: e
            /\ Forall (fun c => c <> "."%char /\ c <> "/"%char) e.
Proof.
  unfold strings_ToLower. intros H.
  assert (Hl : map lowerByte (list_ascii_of_string ext)
               = list_ascii_of_string ".jsonl"
               \/ map lowerByte (list_ascii_of_string ext)
                  = list_ascii_of_string ".json").
  { destruct H as [H | H]; [left | right];
      apply (f_equal list_ascii_of_string) in H;
      now rewrite list_ascii_of_string_of_list_ascii in H. }
  clear H. destruct (list_ascii_of_string ext) as [| c0 e]; [destruct Hl; discriminate |].
  exists e.
  assert (H0 : lowerByte c0 = "."%char) by (destruct Hl as [H | H]; now injection H).
  apply lowerByte_dot in H0 as ->. split; [reflexivity |].
  assert (He : Forall (fun t => t <> "."%char /\ t <> "/"%char) (map lowerByte e)).
  { destruct Hl as [H | H]; injection H as ->; repeat constructor; discriminate. }
  clear Hl. induction e as [| c e IH]; [constructor |].
  cbn [map] in He. apply Forall_cons in He as [[Hd Hs] He].
  constructor; [| now apply IH].
  now apply (lowerByte_letter c (lowerByte c)).
Qed.

(** A name is a label file exactly when it ends in a dot followed by
    jsonl or json, in any letter case; what stands before that dot does
    not matter, it may be empty or hold more dots. *)
Theorem label_files_are_named_by_their_last_extension (name : string) :
  isJSONLName name = true
  <-> exists stem ext,
        name = (stem ++ ext)%string
        /\ (strings_ToLower ext = ".jsonl"%string
            \/ strings_ToLower ext = ".json"%string).
Proof.
  unfold isJSONLName. cbv zeta. rewrite orb_true_iff, !String.eqb_eq. split.
  - intros H. destruct (filepath_Ext_suffix name) as (stem & Hname).
    exists stem, (filepath_Ext name). now split.
  - intros (stem & ext & -> & H).
    destruct (lowered_extension ext H) as (e & Hext & He).
    assert (Hsame : filepath_Ext (stem ++ ext) = ext).
    { unfold filepath_Ext.
      rewrite list_ascii_of_string_app, Hext, rev_app_distr. cbn [rev].
      rewrite <- app_assoc. cbn [app].
      rewrite ext_rev_found by now apply Forall_rev.
      rewrite rev_involutive, app_nil_r, <- Hext.
      apply string_of_list_ascii_of_string. }
    now rewrite Hsame.
Qed.

(** ** Saving a result *)

Lemma firstSome_none {K : Type} (outcomes : list (K * option float64)) :
  Forall (fun kv => snd kv = None) outcomes -> firstSome outcomes = None.
Proof.
  induction 1 as [| [k x] rest Hx _ IH]; [reflexivity |].
  cbn [snd] in Hx. subst x. exact IH.
Qed.

Lemma unsupportedValue_counts (counts : gmap string Z) :
  unsupportedValue
    (DMap (map (fun kv => (fst kv, DInt (snd kv))) (map_to_list counts))) = None.
Proof.
  cbn [unsupportedValue]. apply firstSome_none.
  rewrite (sort_Slice_perm _ _).
  induction (map_to_list counts) as [| [k n] l IH]; [constructor |].
  constructor; [reflexivity | exact IH].
Qed.

Lemma unsupportedValue_ranked (l : list LabelCount) :
  unsupportedValue
    (DList (map (fun lc => DStruct [ ("label"%string, DString (Label lc));
                                     ("count"%string, DInt (Count lc)) ]) l)) = None.
Proof.
  cbn [unsupportedValue]. induction l as [| lc l IH]; [reflexivity | exact IH].
Qed.

Lemma unsupportedValue_strings (l : list string) :
  unsupportedValue (DList (map DString l)) = None.
Proof.
  cbn [unsupportedValue]. induction l as [| s l IH]; [reflexivity | exact IH].
Qed.

(** The encoder meets the rate before the time, and nothing else it
    could refuse. *)
Lemma unsupportedValue_formatted result timing timestamp :
  unsupportedValue (formatted result timing timestamp)
  = if isFinite (LinesPerSecond timing)
    then if isFinite (ProcessingTime timing) then None
         else Some (ProcessingTime timing)
    else Some (LinesPerSecond timing).
Proof.
  pose proof (unsupportedValue_counts (LabelCounts result)) as Hc.
  pose proof (unsupportedValue_ranked (SortedLabels result)) as Hr.
  pose proof (unsupportedValue_strings (Errors result)) as He.
  unfold formatted. cbv zeta.
  set (counts := DMap (map _ (map_to_list (LabelCounts result)))) in *.
  set (ranked := DList (map _ (SortedLabels result))) in *.
  set (errs := DList (map DString (Errors result))) in *.
  match goal with
  | |- context [("metadata"%string, ?m)] => set (meta := m)
  end.
  assert (Hm : unsupportedValue meta
               = if isFinite (LinesPerSecond timing)
                 then if isFinite (ProcessingTime timing) then None
                      else Some (ProcessingTime timing)
                 else Some (LinesPerSecond timing)).
  { unfold meta. cbn.
    destruct (isFinite (LinesPerSecond timing)); [| reflexivity].
    destruct (isFinite (ProcessingTime timing)); reflexivity. }
  clearbody counts ranked errs meta.
  destruct (0 <? length (Errors result))%nat; cbn; rewrite ?He, Hc, Hm, Hr;
    destruct (isFinite (LinesPerSecond timing)); try reflexivity;
    destruct (isFinite (ProcessingTime timing)); reflexivity.
Qed.

(** A run whose measured time is zero cannot be saved: its rate is the
    quotient by zero, an infinity or (for no line) a NaN, which the
    encoder refuses; nothing is written.  With a time and a rate that are
    numbers, the text is written unless the file cannot be. *)
Theorem a_run_measured_at_zero_seconds_cannot_be_saved
  (render : Doc -> string) (writeFile : option string)
  (result : Result) (timestamp outputFile : string) :
  (let timing := measure (TotalLines result) 0 in
   ProcessingTime timing = S754_zero false
   /\ isFinite (LinesPerSecond timing) = false
   /\ saveResult render writeFile result timing timestamp outputFile
      = (Some ("序列化JSON失败: json: unsupported value: "
                 ++ fmt_g (LinesPerSecond timing))%string, None))
  /\ (forall timing,
        isFinite (ProcessingTime timing) = true ->
        isFinite (LinesPerSecond timing) = true ->
        saveResult render writeFile result timing timestamp outputFile
        = match writeFile with
          | Some err => (Some ("写入文件失败: " ++ err)%string, None)
          | None =>
              (None, Some (outputFile, render (formatted result timing timestamp)))
          end).
Proof.
  split.
  - cbv zeta.
    assert (Hpt : ProcessingTime (measure (TotalLines result) 0) = S754_zero false)
      by reflexivity.
    assert (Hrate : isFinite (LinesPerSecond (measure (TotalLines result) 0)) = false).
    { unfold measure. cbv zeta. cbn [LinesPerSecond].
      change (Duration_Seconds 0) with (S754_zero false).
      unfold float64_div. now destruct (float64_of_int64 (TotalLines result)). }
    split; [exact Hpt |]. split; [exact Hrate |].
    unfold saveResult. rewrite unsupportedValue_formatted, Hrate. reflexivity.
  - intros timing Hpt Hrate. unfold saveResult.
    now rewrite unsupportedValue_formatted, Hrate, Hpt.
Qed.

(** ** Where the two strategies differ *)











